(** * go-verkle: the tree engine and the stateless tree engine

    A shallow embedding of [tree.go] (module [Tree]) and of [stateless.go]
    (module [Stateless]), followed by the properties established about them.

    Conventions.
    - A Go [byte] is a [Z] in [0, 256); byte arithmetic that can wrap is
      written with an explicit [mod 256].
    - A Go [[]byte] used as a key is a [list Z]; a [[]byte] whose nil-ness is
      observable (a value, a serialized commitment) is a [slice], that is an
      [option (list Z)] with [None] standing for the nil slice.
    - A Go panic is the outcome [Panic]; a returned [error] is ordinary data. *)

From Stdlib Require Import ZArith Lia.
From stdpp Require Import base option list gmap strings sorting.

Open Scope Z_scope.

Set Warnings "-register-all".

(** ** Shared vocabulary *)

Definition slice := option (list Z).

(** [len(s)] and the bytes of a slice; the nil slice has no bytes. *)
Definition slice_bytes (s : slice) : list Z := default [] s.
Definition slice_len (s : slice) : Z := Z.of_nat (length (slice_bytes s)).

(** [bytes.Equal]: nil and empty compare equal. *)
Definition bytes_Equal (a b : list Z) : bool := bool_decide (a = b).

(** Outcome of running a piece of code: it returns, or it panics.  The third
    outcome is a device of the embedding only, for functions whose recursion
    is not structural. *)
Inductive result (A : Type) : Type :=
| Ok (a : A)
| Panic (msg : string)
| OutOfFuel.
Arguments Ok {A} a.
Arguments Panic {A} msg.
Arguments OutOfFuel {A}.

Definition rbind {A B} (r : result A) (k : A -> result B) : result B :=
  match r with
  | Ok a => k a
  | Panic m => Panic m
  | OutOfFuel => OutOfFuel
  end.

Declare Scope res_scope.
Delimit Scope res_scope with res.
Notation "'let?' x ':=' r 'in' k" := (rbind r (fun x => k))
  (at level 10, x pattern, r at level 100, k at level 200) : res_scope.

(** [s[i]] on a byte slice: a run-time panic outside [0, len(s)). *)
Definition index (s : list Z) (i : Z) : result Z :=
  if (i <? 0) || (Z.of_nat (length s) <=? i) then Panic "index out of range"
  else match s !! Z.to_nat i with
       | Some b => Ok b
       | None => Panic "index out of range"
       end.

(** Little-endian and big-endian readings of a byte string. *)
Fixpoint le_to_Z (bs : list Z) : Z :=
  match bs with
  | [] => 0
  | b :: r => b + 256 * le_to_Z r
  end.

Fixpoint Z_to_le (n : nat) (x : Z) : list Z :=
  match n with
  | O => []
  | S m => (x mod 256) :: Z_to_le m (x / 256)
  end.

Definition be_to_Z (bs : list Z) : Z := le_to_Z (reverse bs).

(** ** tree.go *)

Module Tree.

Local Open Scope res_scope.

Inductive error : Type :=
| errInsertIntoHash
| errValueNotPresent
| errorsNew (msg : string).

(** Threshold for using multi exponentiation. *)
Definition multiExpThreshold : Z := 110.

Definition zeroHash : list Z := replicate 32 0.

(** The [bls] package (curve arithmetic) and [crypto/sha256] are external to
    the repository; they are taken as an interface, with the operations that
    [tree.go] calls. *)
Class BLS : Type := {
  G1 : Type;
  Fr : Type;
  ZERO_G1 : G1;
  ZeroG1 : G1;
  GenG1 : G1;
  AddG1 : G1 -> G1 -> G1;
  MulG1 : G1 -> Fr -> G1;
  LinCombG1 : list G1 -> list Fr -> G1;
  ToCompressedG1 : G1 -> list Z;
  FrFrom32 : list Z -> option Fr;
  AsFr : Z -> Fr;
  EqualZero : Fr -> bool;
  (** the zero value of the Go type [bls.Fr], as [make([]bls.Fr, n)] yields *)
  Fr_zero_value : Fr;
  sha256_Sum256 : list Z -> list Z
}.

Record TreeConfig `{BLS} : Type := mkTreeConfig {
  width : Z;
  nodeWidth : Z;
  modulus : Z;
  lg1 : list G1
}.

(** [GetTreeConfig] is defined in a file of the repository that is not among
    the sources; it is taken as it is used by [New]. *)
Class Config `{BLS} : Type := {
  GetTreeConfig : Z -> TreeConfig
}.

Section WithCurve.
Context `{config : Config}.

(** The node variants of [tree.go].  [nilNode] is the nil interface value,
    which [Get] and [CreateAccount] test for. *)
Inductive VerkleNode : Type :=
| InternalNode (children : list VerkleNode) (depth : Z) (hash : list Z)
    (commitment : option G1) (treeConfig : TreeConfig)
| hashedNode (hash : list Z) (commitment : option G1)
| accountLeaf (key : list Z) (value : slice)
    (Version : Z) (Balance : option Z) (Nonce CodeSize : Z) (CodeHash : list Z)
    (commitment : option G1) (treeConfig : option TreeConfig)
| leafNode (key : list Z) (value : slice)
| empty
| nilNode.

Definition newInternalNode (depth : Z) (tc : TreeConfig) : result VerkleNode :=
  if nodeWidth tc <? 0 then Panic "makeslice: len out of range"
  else Ok (InternalNode (replicate (Z.to_nat (nodeWidth tc)) empty) depth zeroHash None tc).

(** New creates a new tree root *)
Definition New (width : Z) : result VerkleNode :=
  newInternalNode 0 (GetTreeConfig width).

Definition uint64 (x : Z) : Z := x mod 2 ^ 64.
Definition uint8 (x : Z) : Z := x mod 2 ^ 8.

(** A shift by a negative count panics at run time. *)
Definition shl8 (x s : Z) : result Z :=
  if s <? 0 then Panic "negative shift amount" else Ok (uint8 (Z.shiftl x s)).
Definition shr8 (x s : Z) : result Z :=
  if s <? 0 then Panic "negative shift amount" else Ok (Z.shiftr x s).

Definition offset2KeyTenBits (key : list Z) (offset : Z) : result Z :=
  let nFirstByte := Z.quot offset 8 in
  let nBitsInSecondByte := Z.rem (offset + 10) 8 in
  let firstBitShift := 8 - Z.rem offset 8 in
  let lastBitShift := Z.rem (8 - nBitsInSecondByte) 8 in
  let? b0 := index key nFirstByte in
  let? hi := shr8 b0 firstBitShift in
  let? leftMask := shl8 hi firstBitShift in
  let ret := uint64 (Z.shiftl (Z.lxor b0 leftMask)
                       (uint64 (nBitsInSecondByte - 1) mod 8 + 1)) in
  if nFirstByte + 1 <? Z.of_nat (length key) then
    let? b1 := index key (nFirstByte + 1) in
    let? lo := shr8 b1 lastBitShift in
    Ok (Z.lor ret lo)
  else Ok ret.

(** offset2Key extracts the n bits of a key that correspond to the
    index of a child node. *)
Definition offset2Key (key : list Z) (offset width : Z) : result Z :=
  if width =? 10 then offset2KeyTenBits key offset
  else if width =? 8 then index key (Z.quot offset 8)
  else Panic "node width not supported".

(** [children[i]] and [children[i] = c] on the child slice. *)
Definition child_at (children : list VerkleNode) (i : Z) : result VerkleNode :=
  if i <? 0 then Panic "index out of range"
  else match children !! Z.to_nat i with
       | Some c => Ok c
       | None => Panic "index out of range"
       end.

Definition set_child (children : list VerkleNode) (i : Z) (c : VerkleNode)
  : result (list VerkleNode) :=
  if (i <? 0) || (Z.of_nat (length children) <=? i) then Panic "index out of range"
  else Ok (<[Z.to_nat i := c]> children).

(** [k[:n]]: the embedding takes the capacity of a key to be its length, so
    slicing past the end panics. *)
Definition slice_to (k : list Z) (n : nat) : result (list Z) :=
  if Z.of_nat (length k) <? Z.of_nat n then Panic "slice bounds out of range"
  else Ok (take n k).

(** [big.Int.Bytes]: big-endian, minimal length. *)
Definition bigInt_Bytes (x : Z) : list Z :=
  let a := Z.abs x in
  if a =? 0 then [] else reverse (Z_to_le (Z.to_nat (Z.log2 a / 8 + 1)) a).

(** [binary.BigEndian.PutUint64] into a fresh 8-byte array. *)
Definition PutUint64 (v : Z) : list Z := reverse (Z_to_le 8 (uint64 v)).

(** [binary.BigEndian.Uint64]: reads the first 8 bytes, panics on fewer. *)
Definition BigEndian_Uint64 (b : list Z) : result Z :=
  if Z.of_nat (length b) <? 8 then Panic "index out of range"
  else Ok (be_to_Z (take 8 b)).

Definition accountLeafVersion : Z := 0.
Definition accountLeafBalance : Z := 1.
Definition accountLeafNonce : Z := 2.
Definition accountLeafCodeHash : Z := 3.
Definition accountLeafCodeSize : Z := 4.

(** [Insert]: the method of each node variant, dispatched on the receiver.
    The result is the receiver after the call together with the returned
    error.  The recursion of [InternalNode.Insert] into a branch it has just
    created is not structural, hence the fuel. *)
Fixpoint Insert (fuel : nat) (n : VerkleNode) (key : list Z) (value : slice)
  : result (VerkleNode * option error) :=
  match fuel with
  | O => OutOfFuel
  | S fuel =>
    match n with
    | InternalNode children depth hash _ tc =>
      (* Clear cached commitment on modification *)
      let commitment := @None G1 in
      let? nChild := offset2Key key depth (width tc) in
      let? child := child_at children nChild in
      match child with
      | empty =>
        let? children := set_child children nChild (leafNode key value) in
        Ok (InternalNode children depth hash commitment tc, None)
      | hashedNode _ _ =>
        Ok (InternalNode children depth hash commitment tc, Some errInsertIntoHash)
      | leafNode ckey cvalue =>
        (* Need to add a new branch node to differentiate between two keys,
           if the keys are different.  Otherwise, just update the key. *)
        if bytes_Equal ckey key then
          let? children := set_child children nChild (leafNode ckey value) in
          Ok (InternalNode children depth hash commitment tc, None)
        else
          let width := width tc in
          let? nextWordInExistingKey := offset2Key ckey (depth + width) width in
          let? newBranch := newInternalNode (depth + width) tc in
          match newBranch with
          | InternalNode bchildren bdepth bhash bcomm btc =>
            let? bchildren := set_child bchildren nextWordInExistingKey child in
            let? nextWordInInsertedKey := offset2Key key (depth + width) width in
            let? newBranch :=
              if negb (nextWordInInsertedKey =? nextWordInExistingKey) then
                (* Next word differs, so this was the last level. *)
                let? bchildren :=
                  set_child bchildren nextWordInInsertedKey (leafNode key value) in
                Ok (InternalNode bchildren bdepth bhash bcomm btc)
              else
                (* the error of the recursive call is dropped *)
                let? r := Insert fuel (InternalNode bchildren bdepth bhash bcomm btc)
                            key value in
                Ok (fst r) in
            let? children := set_child children nChild newBranch in
            Ok (InternalNode children depth hash commitment tc, None)
          | _ => Panic "interface conversion"
          end
      | _ => (* InternalNode *)
        let? r := Insert fuel child key value in
        let? children := set_child children nChild (fst r) in
        Ok (InternalNode children depth hash commitment tc, snd r)
      end
    | accountLeaf nkey nvalue ver bal nonce csize chash comm tc =>
      let? k31 := slice_to key 31 in
      let? n31 := slice_to nkey 31 in
      if negb (bytes_Equal k31 n31) then
        Ok (n, Some (errorsNew "inserting invalid key into key"))
      else
        let? sel := index key 31 in
        if sel =? accountLeafBalance then
          match bal with
          | None => Panic "nil pointer dereference"
          | Some _ =>
            Ok (accountLeaf nkey nvalue ver (Some (be_to_Z (slice_bytes value)))
                  nonce csize chash None tc, None)
          end
        else if sel =? accountLeafNonce then
          let? nonce := BigEndian_Uint64 (slice_bytes value) in
          Ok (accountLeaf nkey nvalue ver bal nonce csize chash None tc, None)
        else Ok (n, Some (errorsNew "writing to read-only location"))
    | leafNode nkey nvalue =>
      if negb (bytes_Equal key nkey) then
        Ok (n, Some (errorsNew "inserting invalid key into key"))
      else Ok (leafNode key value, None)
    | hashedNode _ _ => Ok (n, Some errInsertIntoHash)
    | empty => Ok (n, Some (errorsNew "an empty node should not be inserted directly into"))
    | nilNode => Panic "nil pointer dereference"
    end
  end.

(** [Get]: read-only on every variant, so the embedding returns no node. *)
Fixpoint Get (n : VerkleNode) (k : list Z) : result (slice * option error) :=
  match n with
  | InternalNode children depth _ _ tc =>
    let? nChild := offset2Key k depth (width tc) in
    if nChild <? 0 then Panic "index out of range" else
    (fix at_child (cs : list VerkleNode) (i : nat) : result (slice * option error) :=
       match cs, i with
       | [], _ => Panic "index out of range"
       | child :: _, O =>
         match child with
         | empty | hashedNode _ _ | nilNode =>
           Ok (None, Some (errorsNew "trying to read from an invalid child"))
         | _ => Get child k
         end
       | _ :: cs, S i => at_child cs i
       end) children (Z.to_nat nChild)
  | accountLeaf nkey _ ver bal nonce csize chash _ _ =>
    if negb (bytes_Equal k nkey) then Ok (None, Some errValueNotPresent)
    else
      let? sel := index k 31 in
      if sel =? accountLeafVersion then Ok (Some (PutUint64 ver), None)
      else if sel =? accountLeafBalance then
        match bal with
        | None => Panic "nil pointer dereference"
        | Some b => Ok (Some (bigInt_Bytes b), None)
        end
      else if sel =? accountLeafNonce then Ok (Some (PutUint64 nonce), None)
      else if sel =? accountLeafCodeHash then Ok (Some chash, None)
      else if sel =? accountLeafCodeSize then Ok (Some (PutUint64 csize), None)
      else Ok (None, Some errValueNotPresent)
  | leafNode nkey nvalue =>
    if negb (bytes_Equal k nkey) then Ok (None, Some errValueNotPresent)
    else Ok (nvalue, None)
  | hashedNode _ _ => Ok (None, Some (errorsNew "can not read from a hash node"))
  | empty => Ok (None, None)
  | nilNode => Panic "nil pointer dereference"
  end.

(** [hashToFr] takes a hash and turns it into a [bls.Fr] integer, making
    sure that this doesn't overflow the modulus.  [big.Int.Mod] panics on a
    zero modulus and is Euclidean otherwise. *)
Definition hashToFr (h : list Z) (modulus : Z) : result Fr :=
  (* reverse endianness, apply modulus *)
  let h2 := reverse h in
  if modulus =? 0 then Panic "division by zero"
  else
    let x := be_to_Z h2 mod Z.abs modulus in
    (* 32 bytes, big endian, then back to original endianness *)
    let h' := Z_to_le 32 x in
    match FrFrom32 h' with
    | Some out => Ok out
    | None => Panic "invalid Fr number"
    end.

(** [poly[idx] = v] on the polynomial slice. *)
Definition set_poly (poly : list Fr) (idx : nat) (v : Fr) : result (list Fr) :=
  if Z.of_nat (length poly) <=? Z.of_nat idx then Panic "index out of range"
  else Ok (<[idx := v]> poly).

(** The non-MSM branch of [ComputeCommitment]: the direct sum over the
    non-zero coefficients. *)
Fixpoint sum_poly (lg1 : list G1) (poly : list Fr) (i : nat) (comm : G1) : result G1 :=
  match poly with
  | [] => Ok comm
  | p :: poly' =>
    if negb (EqualZero p) then
      match lg1 !! i with
      | Some g => sum_poly lg1 poly' (S i) (AddG1 comm (MulG1 g p))
      | None => Panic "index out of range"
      end
    else sum_poly lg1 poly' (S i) comm
  end.

(** [accountLeaf.ComputeCommitment], after the receiver's fields. *)
Definition accountLeaf_ComputeCommitment (ver : Z) (bal : option Z)
    (nonce csize : Z) (chash : list Z) (tc : option TreeConfig) : result G1 :=
  match tc with
  | None => Panic "nil pointer dereference"
  | Some tc =>
    match bal with
    | None => Panic "nil pointer dereference"
    | Some b =>
      let p0 := AsFr ver in
      if 2 ^ 256 <=? Z.abs b then Panic "math/big: buffer too small to fit value"
      else
        let data := reverse (Z_to_le 32 (Z.abs b)) in
        let? p1 := hashToFr data (modulus tc) in
        let p2 := AsFr nonce in
        let? p3 := hashToFr chash (modulus tc) in
        let p4 := AsFr csize in
        sum_poly (lg1 tc) [p0; p1; p2; p3; p4] 0 ZERO_G1
    end
  end.

(** [Hash] of the variants whose hash needs no commitment. *)
Definition leafNode_Hash (key : list Z) (value : slice) : list Z :=
  sha256_Sum256 (key ++ slice_bytes value).

(** [ComputeCommitment]: the result is the commitment together with the
    receiver after the call (the commitment is cached on the way). *)
Fixpoint ComputeCommitment (n : VerkleNode) : result (G1 * VerkleNode) :=
  match n with
  | InternalNode children depth hash (Some c) tc => Ok (c, n)
  | InternalNode children depth hash None tc =>
    if nodeWidth tc <? 0 then Panic "makeslice: len out of range"
    else
      let poly := replicate (Z.to_nat (nodeWidth tc)) Fr_zero_value in
      let? r :=
        (fix loop (cs : list VerkleNode) (idx : nat) (poly : list Fr)
             (emptyChildren : Z) : result (list VerkleNode * list Fr * Z) :=
           match cs with
           | [] => Ok ([], poly, emptyChildren)
           | childC :: rest =>
             let? s :=
               match childC with
               | empty => Ok (childC, poly, emptyChildren + 1)
               | leafNode k v =>
                 let? f := hashToFr (leafNode_Hash k v) (modulus tc) in
                 let? poly := set_poly poly idx f in
                 Ok (childC, poly, emptyChildren)
               | hashedNode h _ =>
                 let? f := hashToFr h (modulus tc) in
                 let? poly := set_poly poly idx f in
                 Ok (childC, poly, emptyChildren)
               | _ =>
                 let? cc := ComputeCommitment childC in
                 let compressed := ToCompressedG1 (fst cc) in
                 let? f := hashToFr (sha256_Sum256 compressed) (modulus tc) in
                 let? poly := set_poly poly idx f in
                 Ok (snd cc, poly, emptyChildren)
               end in
             let '(childC, poly, emptyChildren) := s in
             let? t := loop rest (S idx) poly emptyChildren in
             let '(rest, poly, emptyChildren) := t in
             Ok (childC :: rest, poly, emptyChildren)
           end) children O poly 0 in
      let '(children, poly, emptyChildren) := r in
      let? commP :=
        if multiExpThreshold <=? nodeWidth tc - emptyChildren then
          Ok (LinCombG1 (lg1 tc) poly)
        else sum_poly (lg1 tc) poly 0 ZERO_G1 in
      Ok (commP, InternalNode children depth hash (Some commP) tc)
  | hashedNode h None =>
    let? hashAsFr := hashToFr h 0 in
    let c := MulG1 GenG1 hashAsFr in
    Ok (c, hashedNode h (Some c))
  | hashedNode h (Some c) => Ok (c, n)
  | accountLeaf k v ver bal nonce csize chash _ tc =>
    let? c := accountLeaf_ComputeCommitment ver bal nonce csize chash tc in
    Ok (c, accountLeaf k v ver bal nonce csize chash (Some c) tc)
  | leafNode _ _ => Panic "can't compute the commitment directly"
  | empty => Ok (ZeroG1, n)
  | nilNode => Panic "nil pointer dereference"
  end.

(** Shapes used to state properties: an internal node all of whose slots are
    empty but one, and one with two occupied slots. *)
Definition single (tc : TreeConfig) (depth : Z) (i : Z) (c : VerkleNode) : VerkleNode :=
  InternalNode (<[Z.to_nat i := c]> (replicate (Z.to_nat (nodeWidth tc)) empty))
    depth zeroHash None tc.

Definition fork (tc : TreeConfig) (depth : Z) (i : Z) (c : VerkleNode)
    (j : Z) (c' : VerkleNode) : VerkleNode :=
  InternalNode
    (<[Z.to_nat j := c']> (<[Z.to_nat i := c]> (replicate (Z.to_nat (nodeWidth tc)) empty)))
    depth zeroHash None tc.

(** The zero value of [accountLeaf], as [new(accountLeaf)] yields. *)
Definition accountLeaf_zero_value : VerkleNode :=
  accountLeaf [] None 0 None 0 0 (replicate 32 0) None None.

(** [CreateAccount]: the method of each node variant.  The result is the
    receiver after the call together with the returned error. *)
Fixpoint CreateAccount (fuel : nat) (n : VerkleNode) (key : list Z)
    (version nonce codeSize : Z) (balance : option Z) (codeHash : list Z)
  : result (VerkleNode * option error) :=
  match fuel with
  | O => OutOfFuel
  | S fuel =>
    match n with
    | InternalNode children depth hash comm tc =>
      let? nChild := offset2Key key depth (width tc) in
      let? child := child_at children nChild in
      match child with
      | leafNode _ _ | hashedNode _ _ | nilNode =>
        Ok (n, Some (errorsNew "trying to create an account in an invalid subtree"))
      | empty =>
        let? children :=
          set_child children nChild
            (accountLeaf key None version balance nonce codeSize codeHash None None) in
        Ok (InternalNode children depth hash comm tc, None)
      | accountLeaf ckey _ _ _ _ _ _ _ _ =>
        (* Insert an intermediate node *)
        let? newBranch := newInternalNode (depth + width tc) tc in
        let? nExisting := offset2Key ckey (depth + 1) (width tc) in
        let? nNew := offset2Key key (depth + 1) (width tc) in
        match newBranch with
        | InternalNode bchildren bdepth bhash bcomm btc =>
          let? bchildren := set_child bchildren nExisting child in
          if negb (nExisting =? nNew) then
            let? children :=
              set_child children nChild (InternalNode bchildren bdepth bhash bcomm btc) in
            let? r := CreateAccount fuel (InternalNode bchildren bdepth bhash bcomm btc)
                        key version nonce codeSize balance codeHash in
            let? children := set_child children nChild (fst r) in
            Ok (InternalNode children depth hash comm tc, snd r)
          else
            (* The new branch is the first differing branch, set both of them
               in their own slot. *)
            let? children := set_child children nNew accountLeaf_zero_value in
            let? r := CreateAccount fuel accountLeaf_zero_value
                        key version nonce codeSize balance codeHash in
            let? children := set_child children nNew (fst r) in
            Ok (InternalNode children depth hash comm tc, snd r)
        | _ => Panic "interface conversion"
        end
      | InternalNode _ _ _ _ _ =>
        let? r := CreateAccount fuel child key version nonce codeSize balance codeHash in
        let? children := set_child children nChild (fst r) in
        Ok (InternalNode children depth hash comm tc, snd r)
      end
    | accountLeaf _ _ _ _ _ _ _ _ _ =>
      Ok (n, Some (errorsNew "creating over an already exisiting account"))
    | leafNode _ _ => Ok (n, Some (errorsNew "inserting an account node in a storage leaf"))
    | hashedNode _ _ => Ok (n, Some (errorsNew "inserting an account node in a hash node"))
    | empty =>
      Ok (n, Some (errorsNew "inserting an account node directly into an empty node"))
    | nilNode => Panic "nil pointer dereference"
    end
  end.

(** The loop of [InternalNode.ComputeCommitment] over the children. *)
Definition commit_children (modulus : Z) :=
  fix loop (cs : list VerkleNode) (idx : nat) (poly : list Fr)
      (emptyChildren : Z) : result (list VerkleNode * list Fr * Z) :=
    match cs with
    | [] => Ok ([], poly, emptyChildren)
    | childC :: rest =>
      let? s :=
        match childC with
        | empty => Ok (childC, poly, emptyChildren + 1)
        | leafNode k v =>
          let? f := hashToFr (leafNode_Hash k v) modulus in
          let? poly := set_poly poly idx f in
          Ok (childC, poly, emptyChildren)
        | hashedNode h _ =>
          let? f := hashToFr h modulus in
          let? poly := set_poly poly idx f in
          Ok (childC, poly, emptyChildren)
        | _ =>
          let? cc := ComputeCommitment childC in
          let compressed := ToCompressedG1 (fst cc) in
          let? f := hashToFr (sha256_Sum256 compressed) modulus in
          let? poly := set_poly poly idx f in
          Ok (snd cc, poly, emptyChildren)
        end in
      let '(childC, poly, emptyChildren) := s in
      let? t := loop rest (S idx) poly emptyChildren in
      let '(rest, poly, emptyChildren) := t in
      Ok (childC :: rest, poly, emptyChildren)
    end.

(** What [InternalNode.Get] does with the child it has selected. *)
Definition read_child (child : VerkleNode) (k : list Z) : result (slice * option error) :=
  match child with
  | empty | hashedNode _ _ | nilNode =>
    Ok (None, Some (errorsNew "trying to read from an invalid child"))
  | _ => Get child k
  end.

(** A caller that inserts the pairs in order and stops at the first error. *)
Fixpoint InsertAll (fuel : nat) (n : VerkleNode) (kvs : list (list Z * slice))
  : result (VerkleNode * option error) :=
  match kvs with
  | [] => Ok (n, None)
  | (k, v) :: kvs =>
    let? r := Insert fuel n k v in
    match snd r with
    | None => InsertAll fuel (fst r) kvs
    | Some err => Ok (fst r, Some err)
    end
  end.

(** The map from keys to values that the same pairs define: the last value
    written to a key wins. *)
Definition written (kvs : list (list Z * slice)) : gmap (list Z) slice :=
  foldl (fun m kv => <[kv.1 := kv.2]> m) ∅ kvs.

End WithCurve.

(** A byte of a key. *)
Definition is_byte (b : Z) : Prop := 0 <= b < 256.

Section Shapes.
Context `{bls : BLS}.

(** A tree as insertions of 32-byte keys build it below the path [p]. *)
Inductive wf (tc : TreeConfig) : list Z -> VerkleNode -> Prop :=
| wf_empty p : wf tc p empty
| wf_leaf p k v :
    length k = 32%nat -> Forall is_byte k -> p `prefix_of` k ->
    wf tc p (leafNode k v)
| wf_internal p cs h c :
    (length p <= 31)%nat ->
    length cs = 256%nat ->
    (forall i ch, cs !! i = Some ch -> wf tc (p ++ [Z.of_nat i]) ch) ->
    wf tc p (InternalNode cs (8 * Z.of_nat (length p)) h c tc).

End Shapes.

(** [setBit]: the receiver slice after the call. *)
Definition setBit (bitlist : list Z) (idx : Z) : result (list Z) :=
  let byt := Z.quot idx 8 in
  let bit := Z.rem idx 8 in
  let? old := index bitlist byt in
  let? m := shl8 1 bit in
  Ok (<[Z.to_nat byt := Z.lor old m]> bitlist).

(** Bit [i] of a bit list, bit 0 being the least significant bit of the
    first byte. *)
Definition bit_at (bitlist : list Z) (i : Z) : bool :=
  Z.testbit (default 0 (bitlist !! Z.to_nat (i / 8))) (i mod 8).

End Tree.

(** ** stateless.go *)

Module Stateless.

Local Open Scope res_scope.

Definition NodeWidth : Z := 256.

(** The errors of the package that [stateless.go] returns, and the two ways
    it builds new ones. *)
Inductive error : Type :=
| errInsertIntoOtherStem
| errNotSupportedInStateless
| errStatelessAndStatefulMix
| errorsNew (msg : string)
| fmtErrorf (format : string) (args : list (list Z)) (wrapped : error).

(** The curve library behind [Point] and [Fr], with the helpers of the
    package that wrap it ([leafToComms], [StemFromBytes], the SRS and
    [CommitToPoly] of the configuration).  All of it lies outside the two
    files and is taken as an interface. *)
Class Curve : Type := {
  Point : Type;
  Fr : Type;
  (** the zero values of the Go types, as [new(Point)] and [var x Fr] yield *)
  Point_zero_value : Point;
  Fr_zero_value : Fr;
  Identity : Point;
  Point_Add : Point -> Point -> Point;
  Point_ScalarMul : Point -> Fr -> Point;
  MapToScalarField : Point -> Fr;
  FrZero : Fr;
  FrOne : Fr;
  Fr_Sub : Fr -> Fr -> Fr;
  (** [cfg.conf.SRSPrecompPoints.SRS[i]]; the file indexes it with
      [2+(index/128)] and [2*(index%128)(+1)] for a byte [index], all below
      256, the number of basis points a node of width 256 has at least *)
  SRS : Z -> Point;
  leafToComms : slice -> Fr * Fr;
  StemFromBytes : slice -> Fr;
  CommitToPoly : list Fr -> Z -> Point;
  (** [p.Bytes()], the 32-byte serialization of a point *)
  Point_Bytes : Point -> list Z
}.

(** *** Points live on a heap

    A [*Point] is a pointer: commitments are updated in place and may be
    shared, so the embedding keeps the points in a store and the nodes hold
    locations ([None] is the nil pointer). *)
Definition loc := nat.
Abbreviation heap := (list Point) (only parsing).

Section WithCurve.
Context `{curve : Curve}.

(** A computation on the heap that may panic. *)
Definition M (A : Type) : Type := heap -> result (A * heap).

Definition ret {A} (a : A) : M A := fun h => Ok (a, h).
Definition bind {A B} (m : M A) (k : A -> M B) : M B :=
  fun h => match m h with
           | Ok (a, h') => k a h'
           | Panic msg => Panic msg
           | OutOfFuel => OutOfFuel
           end.
Definition panic {A} (msg : string) : M A := fun _ => Panic msg.
Definition out_of_fuel {A} : M A := fun _ => OutOfFuel.
Definition lift {A} (r : result A) : M A :=
  fun h => match r with
           | Ok a => Ok (a, h)
           | Panic msg => Panic msg
           | OutOfFuel => OutOfFuel
           end.

(** [new(Point)] followed by an initialisation to [v]. *)
Definition new_Point (v : Point) : M loc := fun h => Ok (length h, h ++ [v]).

(** Reading and writing through a [*Point]. *)
Definition load (p : option loc) : M Point :=
  fun h => match p with
           | None => Panic "nil pointer dereference"
           | Some l => match h !! l with
                       | Some v => Ok (v, h)
                       | None => Panic "invalid pointer"
                       end
           end.
Definition store (p : option loc) (v : Point) : M unit :=
  fun h => match p with
           | None => Panic "nil pointer dereference"
           | Some l => if bool_decide (l < length h)%nat then Ok (tt, <[l := v]> h)
                       else Panic "invalid pointer"
           end.

End WithCurve.

Declare Scope heap_scope.
Delimit Scope heap_scope with heap.
Notation "'let!' x ':=' m 'in' k" := (bind m (fun x => k))
  (at level 10, x pattern, m at level 100, k at level 200) : heap_scope.

Local Open Scope heap_scope.

(** *** Go maps keyed by a byte

    A map field is [None] when it is the nil map.  Reading a nil map yields
    the zero value, writing to it panics, deleting from it does nothing. *)
Section GoMap.
Context {V : Type}.

Definition map_get (m : option (gmap Z V)) (k : Z) : option V :=
  m ≫= (fun m => m !! k).
Definition map_set (m : option (gmap Z V)) (k : Z) (v : V) : result (option (gmap Z V)) :=
  match m with
  | None => Panic "assignment to entry in nil map"
  | Some m => Ok (Some (<[k := v]> m))
  end.
Definition map_delete (m : option (gmap Z V)) (k : Z) : option (gmap Z V) :=
  delete k <$> m.
Definition map_len (m : option (gmap Z V)) : Z :=
  match m with
  | None => 0
  | Some m => Z.of_nat (size m)
  end.
(** The keys of a map, in ascending order. *)
Definition map_keys (m : option (gmap Z V)) : list Z :=
  match m with
  | None => []
  | Some m => merge_sort Z.le (map_to_list m).*1
  end.

End GoMap.

(** *** Nodes *)

(** [StatelessNode], over the type of the nodes it has as children.  An entry
    of [children] that is [None] holds the nil interface value; an entry of
    [unresolved] or [values] that is [None] holds the nil slice.  The entries
    of [cow] are never nil: the file stores there only [new(Point)] and
    [Generator()]. *)
Record StatelessNodeOf (N : Type) `{Curve} : Type := mkStatelessNode {
  children : option (gmap Z (option N));
  unresolved : option (gmap Z slice);
  values : option (gmap Z slice);
  stem : slice;
  depth : Z;
  count : Z;
  hash : option Fr;
  cow : option (gmap Z loc);
  commitment : option loc;
  c1 : option loc;
  c2 : option loc
}.
Arguments mkStatelessNode {N _}.
Arguments children {N _}.
Arguments unresolved {N _}.
Arguments values {N _}.
Arguments stem {N _}.
Arguments depth {N _}.
Arguments count {N _}.
Arguments hash {N _}.
Arguments cow {N _}.
Arguments commitment {N _}.
Arguments c1 {N _}.
Arguments c2 {N _}.

(** [HashedNode], after the two composite literals of [stateless.go]. *)
Record HashedNode : Type := mkHashedNode {
  hn_commitment : slice;
  hn_cachedPoint : option loc
}.

(** [InternalNode] and [LeafNode] of the package are declared in files that
    are not among the sources; their representation stays abstract. *)
Class StatefulNodes : Type := {
  InternalNode : Type;
  LeafNode : Type
}.

Inductive VerkleNode `{Curve} `{StatefulNodes} : Type :=
| NEmpty
| NHashed (h : HashedNode)
| NInternal (i : InternalNode)
| NLeaf (l : LeafNode)
| NStateless (s : StatelessNodeOf VerkleNode).

Definition StatelessNode `{Curve} `{StatefulNodes} : Type := StatelessNodeOf VerkleNode.

(** [NodeResolverFn] *)
Definition NodeResolverFn : Type := slice -> slice * option error.

(** [ProofElements]; [ByPath] is keyed by the bytes of the Go string. *)
Record ProofElements `{Curve} : Type := mkProofElements {
  Cis : list (option loc);
  Zis : list Z;
  Yis : list Fr;
  ByPath : gmap (list Z) (option loc)
}.

(** [stemInfo], with the fields that [insertStem] reads. *)
Record stemInfo : Type := mkStemInfo {
  stemType : Z;
  has_c1 : bool;
  has_c2 : bool;
  si_values : option (gmap Z slice);
  si_stem : slice
}.

(** The methods of the other node kinds and the helpers of the package that
    [stateless.go] calls but that are declared elsewhere.  A method returns
    its receiver after the call next to its results. *)
Class Package `{Curve} `{StatefulNodes} : Type := {
  Empty_Commitment : M (option loc);
  Empty_Commit : M (option loc);
  Empty_Get : list Z -> NodeResolverFn -> M (slice * option error);
  HashedNode_Commitment : HashedNode -> M (option loc * HashedNode);
  HashedNode_Commit : HashedNode -> M (option loc * HashedNode);
  HashedNode_Get : HashedNode -> list Z -> NodeResolverFn
                   -> M (slice * option error * HashedNode);
  InternalNode_Commitment : InternalNode -> M (option loc * InternalNode);
  InternalNode_Commit : InternalNode -> M (option loc * InternalNode);
  InternalNode_Get : InternalNode -> list Z -> NodeResolverFn
                     -> M (slice * option error * InternalNode);
  InternalNode_InsertStem : InternalNode -> list Z -> list slice -> NodeResolverFn
                            -> M (option error * InternalNode);
  LeafNode_Commitment : LeafNode -> M (option loc * LeafNode);
  LeafNode_Commit : LeafNode -> M (option loc * LeafNode);
  LeafNode_Get : LeafNode -> list Z -> NodeResolverFn
                 -> M (slice * option error * LeafNode);
  LeafNode_updateMultipleLeaves : LeafNode -> list slice -> M LeafNode;
  LeafNode_stem : LeafNode -> list Z;
  LeafNode_depth : LeafNode -> Z;
  LeafNode_setDepth : LeafNode -> Z -> LeafNode;
  NewLeafNode : list Z -> list slice -> M LeafNode;
  ParseStatelessNode : slice -> Z -> slice -> M (option VerkleNode * option error);
  equalPaths : list Z -> list Z -> bool;
  ProofElements_Merge : ProofElements -> ProofElements -> ProofElements;
  (** the extension statuses of a proof, constants of the package *)
  extStatusAbsentEmpty : Z;
  extStatusAbsentOther : Z;
  extStatusPresent : Z
}.

Section WithPackage.
Context `{package : Package}.

(** The order in which a [range] over a map visits its keys is not fixed by
    the language.  [range_order] stands for the choice the run time makes:
    given the keys of the map in ascending order it returns them in the order
    of the visit. *)
Variable range_order : list Z -> list Z.

Definition range_keys {V} (m : option (gmap Z V)) : list Z :=
  range_order (map_keys m).

(** [sort.Slice(indices, func(i, j int) bool { return indices[i] < indices[j] })] *)
Definition sort_Slice (indices : list Z) : list Z := merge_sort Z.le indices.

Definition byte (x : Z) : Z := x mod 256.
Definition uint (x : Z) : Z := x mod 2 ^ 64.

(** Field updates. *)
Definition with_children (n : StatelessNode) (cs : option (gmap Z (option VerkleNode)))
  : StatelessNode :=
  mkStatelessNode cs (unresolved n) (values n) (stem n) (depth n) (count n)
    (hash n) (cow n) (commitment n) (c1 n) (c2 n).
Definition with_unresolved (n : StatelessNode) (u : option (gmap Z slice)) : StatelessNode :=
  mkStatelessNode (children n) u (values n) (stem n) (depth n) (count n)
    (hash n) (cow n) (commitment n) (c1 n) (c2 n).
Definition with_values (n : StatelessNode) (vs : option (gmap Z slice)) : StatelessNode :=
  mkStatelessNode (children n) (unresolved n) vs (stem n) (depth n) (count n)
    (hash n) (cow n) (commitment n) (c1 n) (c2 n).
Definition with_count (n : StatelessNode) (c : Z) : StatelessNode :=
  mkStatelessNode (children n) (unresolved n) (values n) (stem n) (depth n) c
    (hash n) (cow n) (commitment n) (c1 n) (c2 n).
Definition with_cow (n : StatelessNode) (cw : option (gmap Z loc)) : StatelessNode :=
  mkStatelessNode (children n) (unresolved n) (values n) (stem n) (depth n) (count n)
    (hash n) cw (commitment n) (c1 n) (c2 n).

(** [n.children[i]], the nil interface when the key is missing. *)
Definition child_get (n : StatelessNode) (i : Z) : option VerkleNode :=
  mjoin (map_get (children n) i).
(** [n.children[i] = c] *)
Definition child_set (n : StatelessNode) (i : Z) (c : option VerkleNode) : M StatelessNode :=
  let! cs := lift (map_set (children n) i c) in
  ret (with_children n cs).
(** [n.values[i]] and [n.unresolved[i]], the nil slice when the key is missing. *)
Definition value_get (n : StatelessNode) (i : Z) : slice := mjoin (map_get (values n) i).
Definition unresolved_get (n : StatelessNode) (i : Z) : slice :=
  mjoin (map_get (unresolved n) i).

(** Modelled from the spec: [offset2key] is missing from the sources; the
    stateless path computes [nChild = stem[depth]], one byte of the stem per
    level. *)
Definition offset2key (key : list Z) (offset : Z) : result Z := index key offset.

(** Modelled from the spec: [Generator] is missing from the sources; the
    points it returns are what the spec calls the group identity (the
    comment at its use in [InsertAtStem] says the commitment is set to 0). *)
Definition Generator : M loc := new_Point Identity.

(** Modelled from the spec: [CopyPoint] is missing from the sources; the
    snapshot is a deep copy, the value of [src] is written into [dst]. *)
Definition CopyPoint (dst src : option loc) : M unit :=
  let! v := load src in store dst v.

(** Modelled from the spec: [toFr] is missing from the sources; [to_fr] is
    the canonical scalar image of a group element, here [MapToScalarField]
    of the point read through the pointer. *)
Definition toFr (p : option loc) : M Fr :=
  let! v := load p in ret (MapToScalarField v).

(** [p.Add(p, q)] *)
Definition Point_Add_inplace (p : option loc) (q : Point) : M unit :=
  let! v := load p in store p (Point_Add v q).

Definition NewStateless : M StatelessNode :=
  let! g := Generator in
  ret (mkStatelessNode (Some ∅) (Some ∅) None None 0 0 (Some FrZero) None (Some g) None None).

Definition NewStatelessWithCommitment (point : option loc) : M StatelessNode :=
  let! xfr := toFr point in
  ret (mkStatelessNode (Some ∅) None None None 0 0 (Some xfr) None point None None).

Definition getOldCn (n : StatelessNode) (index : Z) : M (option loc * Fr) :=
  let c := if index <? 128 then c1 n else c2 n in
  let! oldc := toFr c in
  ret (c, oldc).

Definition updateC (n : StatelessNode) (index : Z) (c : option loc) (oldc : Fr) : M unit :=
  let! newc := toFr c in
  let newc := Fr_Sub newc oldc in
  let diff := Point_ScalarMul (SRS (2 + index / 128)) newc in
  Point_Add_inplace (commitment n) diff.

Definition updateCn (n : StatelessNode) (index : Z) (value : slice) (c : option loc) : M unit :=
  let oldVal := leafToComms (value_get n index) in
  let newVal := leafToComms value in
  let newVal0 := Fr_Sub (fst newVal) (fst oldVal) in
  let! _ := Point_Add_inplace c (Point_ScalarMul (SRS (2 * (index mod 128))) newVal0) in
  let newVal1 := Fr_Sub (snd newVal) (snd oldVal) in
  Point_Add_inplace c (Point_ScalarMul (SRS (2 * (index mod 128) + 1)) newVal1).

(** The loop of [updateMultipleLeaves]: [i] is the int index into [values],
    [c1v]/[old1] and [c2v]/[old2] are the local variables of the function. *)
Fixpoint updateMultipleLeaves_loop (n : StatelessNode) (i : Z) (vs : list slice)
    (c1v : option loc) (old1 : Fr) (c2v : option loc) (old2 : Fr)
  : M (StatelessNode * (option loc * Fr) * (option loc * Fr)) :=
  match vs with
  | [] => ret (n, (c1v, old1), (c2v, old2))
  | v :: vs =>
    if negb (slice_len v =? 0)
       && negb (bytes_Equal (slice_bytes v) (slice_bytes (value_get n (byte i)))) then
      let! r :=
        if i <? 128 then
          let! co := match c1v with
                     | None => getOldCn n (byte i)
                     | Some _ => ret (c1v, old1)
                     end in
          let! _ := updateCn n (byte i) v (fst co) in
          ret (co, (c2v, old2))
        else
          let! co := match c2v with
                     | None => getOldCn n (byte i)
                     | Some _ => ret (c2v, old2)
                     end in
          let! _ := updateCn n (byte i) v (fst co) in
          ret ((c1v, old1), co) in
      let! vals := lift (map_set (values n) (byte i) v) in
      updateMultipleLeaves_loop (with_values n vals) (i + 1) vs
        (fst (fst r)) (snd (fst r)) (fst (snd r)) (snd (snd r))
    else updateMultipleLeaves_loop n (i + 1) vs c1v old1 c2v old2
  end.

Definition updateMultipleLeaves (n : StatelessNode) (vals : list slice) : M StatelessNode :=
  let! r := updateMultipleLeaves_loop n 0 vals None Fr_zero_value None Fr_zero_value in
  let '(n, (c1v, old1), (c2v, old2)) := r in
  let! _ := match c1v with
            | Some _ => updateC n 0 c1v old1
            | None => ret tt
            end in
  let! _ := match c2v with
            | Some _ => updateC n 128 c2v old2
            | None => ret tt
            end in
  ret n.

(** [c.Commitment()] on a child, dispatched on its kind. *)
Definition Commitment_of (c : VerkleNode) : M (option loc * VerkleNode) :=
  match c with
  | NEmpty => let! p := Empty_Commitment in ret (p, NEmpty)
  | NHashed h => let! r := HashedNode_Commitment h in ret (fst r, NHashed (snd r))
  | NInternal i => let! r := InternalNode_Commitment i in ret (fst r, NInternal (snd r))
  | NLeaf l => let! r := LeafNode_Commitment l in ret (fst r, NLeaf (snd r))
  | NStateless s => ret (commitment s, c)
  end.

Definition cowChild (n : StatelessNode) (index : Z) : M StatelessNode :=
  match children n with
  | None => ret n (* only internal nodes are supported *)
  | Some _ =>
    let cw := match cow n with
              | None => ∅
              | Some cw => cw
              end in
    let n := with_cow n (Some cw) in
    match cw !! index with
    | Some _ => ret n
    | None =>
      let! q := new_Point Point_zero_value in
      let n := with_cow n (Some (<[index := q]> cw)) in
      match child_get n index with
      | None => panic "nil pointer dereference"
      | Some c =>
        let! r := Commitment_of c in
        let! n := child_set n index (Some (snd r)) in
        let! _ := CopyPoint (Some q) (fst r) in
        ret n
      end
    end
  end.

Definition newLeafChildFromMultipleValues (n : StatelessNode) (stem : list Z)
    (vals : list slice) : M LeafNode :=
  if negb (Z.of_nat (length vals) =? 256) then panic "expecting a 256 leaf values"
  else
    let! newchild := NewLeafNode stem vals in
    let newchild := LeafNode_setDepth newchild (byte (depth n + 1)) in
    let! r := LeafNode_Commit newchild in
    ret (snd r).

(** [InsertAtStem].  The result is the returned error and the receiver after
    the call.  The recursion goes into nodes that the call itself creates or
    parses, so it is bounded by fuel; only a recursive call spends it. *)
Fixpoint InsertAtStem (fuel : nat) (n : StatelessNode) (stem : list Z)
    (vals : list slice) (resolver : NodeResolverFn)
  : M (option error * StatelessNode) :=
  (* index of the child pointed by the next byte in the key *)
  let! nChild := lift (offset2key stem (depth n)) in
  match values n with
  | Some _ =>
    let! n := updateMultipleLeaves n vals in
    ret (None, n)
  | None =>
    (* special case: missing child, check whether there is a child node
       to deserialize, and if that is not the case, this is an empty child. *)
    let! early :=
      match child_get n nChild with
      | None =>
        let unres := unresolved_get n nChild in
        if slice_len unres =? 0 then
          let! n := child_set n nChild (Some NEmpty) in
          let! n := cowChild n nChild in
          let! leaf := newLeafChildFromMultipleValues n stem vals in
          let! n := child_set n nChild (Some (NLeaf leaf)) in
          ret (inl n)
        else
          let! n := child_set n nChild (Some (NHashed (mkHashedNode unres None))) in
          (* fallthrough to hash resolution *)
          ret (inr n)
      | Some _ => ret (inr n)
      end in
    match early with
    | inl n => ret (None, n)
    | inr n =>
      (* If the child is a hash, the node needs to be resolved
         before there is an insert into it. *)
      let! resolved :=
        match child_get n nChild with
        | Some (NHashed h) =>
          let comm := hn_commitment h in
          match resolver comm with
          | (_, Some err) =>
            ret (inl (fmtErrorf "stem insertion failed (node resolution error) %x %w"
                        [stem] err, n))
          | (serialized, None) =>
            let! r := ParseStatelessNode serialized (byte (depth n + 1)) comm in
            match r with
            | (_, Some err) => ret (inl (err, n))
            | (node, None) =>
              let! n := child_set n nChild node in
              ret (inr n)
            end
          end
        | _ => ret (inr n)
        end in
      match resolved with
      | inl (err, n) => ret (Some err, n)
      | inr n =>
        let! n := cowChild n nChild in
        match child_get n nChild with
        | Some (NInternal child) =>
          let! r := InternalNode_InsertStem child stem vals resolver in
          let! c := InternalNode_Commit (snd r) in
          let! n := child_set n nChild (Some (NInternal (snd c))) in
          ret (fst r, n)
        | Some (NStateless child) =>
          match fuel with
          | O => out_of_fuel
          | S fuel =>
            let! r := InsertAtStem fuel child stem vals resolver in
            let! n := child_set n nChild (Some (NStateless (snd r))) in
            ret (fst r, n)
          end
        | Some (NLeaf child) =>
          if equalPaths (LeafNode_stem child) stem then
            let! child := LeafNode_updateMultipleLeaves child vals in
            let! n := child_set n nChild (Some (NLeaf child)) in
            ret (None, n)
          else
            let! nextexisting :=
              lift (offset2key (LeafNode_stem child) (LeafNode_depth child)) in
            (* Insert multiple intermediate nodes *)
            let! g := Generator in
            let! g0 := Generator in
            let moved := LeafNode_setDepth child (byte (LeafNode_depth child + 1)) in
            let newbranch :=
              mkStatelessNode (Some {[nextexisting := Some (NLeaf moved)]}) None None None
                (LeafNode_depth child) 0 None
                (* manually set the commitment to 0 *)
                (Some {[nextexisting := g0]}) (Some g) None None in
            let! n := child_set n nChild (Some (NStateless newbranch)) in
            let n := with_count n (uint (count n + 1)) in
            match fuel with
            | O => out_of_fuel
            | S fuel =>
              let! r := InsertAtStem fuel newbranch stem vals resolver in
              let! n := child_set n nChild (Some (NStateless (snd r))) in
              ret (fst r, n)
            end
        | _ => ret (Some errNotSupportedInStateless, n)
        end
      end
    end
  end.

Definition Insert (fuel : nat) (n : StatelessNode) (key : list Z) (value : slice)
    (resolver : NodeResolverFn) : M (option error * StatelessNode) :=
  let vals := replicate (Z.to_nat NodeWidth) (@None (list Z)) in
  let! sfx := lift (index key 31) in
  let vals := <[Z.to_nat sfx := value]> vals in
  let! stem := lift (Tree.slice_to key 31) in
  InsertAtStem fuel n stem vals resolver.

(** Delete writes the value `0` at `key` since verkle trees need to
    distinguish between a node that used to be present and was then deleted,
    and a node that was never present. *)
Definition Delete (fuel : nat) (n : StatelessNode) (key : list Z)
    (resolver : NodeResolverFn) : M (option error * StatelessNode) :=
  let zero := replicate 32 0 in
  Insert fuel n key (Some zero) resolver.

(** [comms[0]] and [comms[1:]] *)
Definition comms_head (comms : list (option loc)) : result (option loc) :=
  match comms with
  | [] => Panic "index out of range"
  | c :: _ => Ok c
  end.

Definition with_proof_leaf (n : StatelessNode) (c1' c2' : option loc) (info : stemInfo)
    (d : Z) : StatelessNode :=
  mkStatelessNode (children n) (unresolved n) (si_values info) (si_stem info) d (count n)
    (hash n) (cow n) (commitment n) c1' c2'.
Definition with_depth (n : StatelessNode) (d : Z) : StatelessNode :=
  mkStatelessNode (children n) (unresolved n) (values n) (stem n) d (count n)
    (hash n) (cow n) (commitment n) (c1 n) (c2 n).

(** [insertStem] inserts a given stem in the tree, placing it as described by
    [stemInfo].  Its third parameter is the list of commitments that have
    not been assigned a node.  The result is the list that remains, the
    returned error and the receiver after the call. *)
Fixpoint insertStem (fuel : nat) (n : StatelessNode) (path : list Z) (info : stemInfo)
    (comms : list (option loc)) : M (list (option loc) * option error * StatelessNode) :=
  match path with
  | [] => ret (comms, Some (errorsNew "invalid path"), n)
  | [p0] =>
    (* path is 1 byte long, the leaf node must be created *)
    let status := Z.land (stemType info) 3 in
    if status =? extStatusAbsentEmpty then
      (* mark the child as absent *)
      let! n := child_set n p0 None in
      ret (comms, None, n)
    else if status =? extStatusAbsentOther then
      (* insert poa stem *)
      let! c0 := lift (comms_head comms) in
      let! v := load c0 in
      let! n := child_set n p0
                  (Some (NHashed (mkHashedNode (Some (Point_Bytes v)) c0))) in
      ret (tail comms, None, n)
    else if status =? extStatusPresent then
      (* insert stem *)
      let! c0 := lift (comms_head comms) in
      let! newchild := NewStatelessWithCommitment c0 in
      let comms := tail comms in
      let! r1 := if has_c1 info then
                   let! c := lift (comms_head comms) in ret (c, tail comms)
                 else ret (c1 newchild, comms) in
      let! r2 := if has_c2 info then
                   let! c := lift (comms_head (snd r1)) in ret (c, tail (snd r1))
                 else ret (c2 newchild, snd r1) in
      let newchild := with_proof_leaf newchild (fst r1) (fst r2) info (byte (depth n + 1)) in
      let! n := child_set n p0 (Some (NStateless newchild)) in
      ret (snd r2, None, n)
    else ret (comms, None, n)
  | p0 :: rest =>
    (* create the child node if missing *)
    let! r :=
      match child_get n p0 with
      | None =>
        let! c0 := lift (comms_head comms) in
        let! newchild := NewStatelessWithCommitment c0 in
        let newchild := with_depth newchild (byte (depth n + 1)) in
        let! n := child_set n p0 (Some (NStateless newchild)) in
        ret (tail comms, n)
      | Some _ => ret (comms, n)
      end in
    let '(comms, n) := r in
    (* This should only be used in the context of stateless nodes,
       so panic if another node type is found. *)
    match child_get n p0 with
    | Some (NStateless child) =>
      match fuel with
      | O => out_of_fuel
      | S fuel =>
        (* recurse *)
        let! r := insertStem fuel child rest info comms in
        let! n := child_set n p0 (Some (NStateless (snd r))) in
        ret (fst r, n)
      end
    | _ => panic "interface conversion: VerkleNode is not *StatelessNode"
    end
  end.

(** [insertValue]: the result is the returned error and the receiver after
    the call. *)
Fixpoint insertValue (fuel : nat) (n : StatelessNode) (key : list Z) (value : slice)
  : M (option error * StatelessNode) :=
  (* reached a leaf node ? *)
  if map_len (children n) =? 0 then
    let! k31 := lift (Tree.slice_to key 31) in
    if negb (bytes_Equal k31 (slice_bytes (stem n))) then
      ret (Some errInsertIntoOtherStem, n)
    else
      let! sfx := lift (index key 31) in
      let! vals := lift (map_set (values n) sfx value) in
      ret (None, with_values n vals)
  else (* no, recurse *)
    let! nChild := lift (offset2key key (depth n)) in
    match child_get n nChild with
    | None =>
      if negb (slice_len value =? 0) then panic "inserting non-nil value into nil node"
      else ret (None, n)
    | Some (NStateless child) =>
      match fuel with
      | O => out_of_fuel
      | S fuel =>
        (* the error of the recursive call is dropped *)
        let! r := insertValue fuel child key value in
        let! n := child_set n nChild (Some (NStateless (snd r))) in
        ret (None, n)
      end
    | Some _ => panic "interface conversion: VerkleNode is not *StatelessNode"
    end.

(** [Get]: the result is the value, the error and the receiver after the
    call (a resolved child is installed on the way). *)
Fixpoint Get (fuel : nat) (n : StatelessNode) (k : list Z) (getter : NodeResolverFn)
  : M (slice * option error * StatelessNode) :=
  match values n with
  | Some _ =>
    (* if the stems are different, then the key is missing *)
    let! k31 := lift (Tree.slice_to k 31) in
    if bytes_Equal (slice_bytes (stem n)) k31 then
      let! sfx := lift (index k 31) in
      ret (value_get n sfx, None, n)
    else ret (None, None, n)
  | None =>
    let! nChild := lift (offset2key k (depth n)) in
    let! r :=
      match child_get n nChild with
      | None =>
        match unresolved_get n nChild with
        | None => ret (inl (None, None))
        | Some u =>
          (* resolve the child before recursing *)
          match getter (Some u) with
          | (_, Some err) =>
            ret (inl (None, Some (fmtErrorf "could not resolve unresolved item: %w" [] err)))
          | (serialized, None) =>
            let! r := ParseStatelessNode serialized (byte (depth n + 1)) (Some u) in
            match r with
            | (_, Some err) =>
              ret (inl (None, Some (fmtErrorf "could not deserialize node: %w" [] err)))
            | (child, None) =>
              let! n := child_set n nChild child in
              let n := with_unresolved n (map_delete (unresolved n) nChild) in
              ret (inr (child, n))
            end
          end
        end
      | Some c => ret (inr (Some c, n))
      end in
    match r with
    | inl (v, err) => ret (v, err, n)
    | inr (child, n) =>
      match child with
      | None => panic "nil pointer dereference"
      | Some NEmpty =>
        let! r := Empty_Get k getter in ret (fst r, snd r, n)
      | Some (NHashed h) =>
        let! r := HashedNode_Get h k getter in
        let! n := child_set n nChild (Some (NHashed (snd r))) in
        ret (fst r, n)
      | Some (NInternal i) =>
        let! r := InternalNode_Get i k getter in
        let! n := child_set n nChild (Some (NInternal (snd r))) in
        ret (fst r, n)
      | Some (NLeaf l) =>
        let! r := LeafNode_Get l k getter in
        let! n := child_set n nChild (Some (NLeaf (snd r))) in
        ret (fst r, n)
      | Some (NStateless s) =>
        match fuel with
        | O => out_of_fuel
        | S fuel =>
          let! r := Get fuel s k getter in
          let! n := child_set n nChild (Some (NStateless (snd r))) in
          ret (fst r, n)
        end
      end
    end
  end.

Definition Commitment (n : StatelessNode) : option loc := commitment n.

(** [c.Commit()] on a child that is not a [StatelessNode]. *)
Definition Commit_other (c : VerkleNode) : M (option loc * VerkleNode) :=
  match c with
  | NEmpty => let! p := Empty_Commit in ret (p, NEmpty)
  | NHashed h => let! r := HashedNode_Commit h in ret (fst r, NHashed (snd r))
  | NInternal i => let! r := InternalNode_Commit i in ret (fst r, NInternal (snd r))
  | NLeaf l => let! r := LeafNode_Commit l in ret (fst r, NLeaf (snd r))
  | NStateless s => ret (commitment s, c)
  end.

(** [Commit]: the result is the returned pointer and the receiver after the
    call. *)
Fixpoint Commit (fuel : nat) (n : StatelessNode) : M (option loc * StatelessNode) :=
  if negb (map_len (values n) =? 0) then
    (* skip this, stateless leaf nodes are currently broken *)
    ret (commitment n, n)
  else
    let poly := replicate (Z.to_nat NodeWidth) Fr_zero_value in
    let empty := 256 in
    if negb (map_len (cow n) =? 0) then
      let! r :=
        (fix loop (idxs : list Z) (n : StatelessNode) (poly : list Fr) (empty : Z)
           : M (StatelessNode * list Fr * Z) :=
           match idxs with
           | [] => ret (n, poly, empty)
           | idx :: idxs =>
             let comm := map_get (cow n) idx in
             let empty := empty - 1 in
             let! pre := toFr comm in
             match child_get n idx with
             | None => panic "nil pointer dereference"
             | Some c =>
               let! r :=
                 match c with
                 | NStateless s =>
                   match fuel with
                   | O => out_of_fuel
                   | S fuel =>
                     let! r := Commit fuel s in ret (fst r, NStateless (snd r))
                   end
                 | _ => Commit_other c
                 end in
               let! n := child_set n idx (Some (snd r)) in
               let! v := toFr (fst r) in
               let poly := <[Z.to_nat idx := Fr_Sub v pre]> poly in
               loop idxs n poly empty
             end
           end) (range_keys (cow n)) n poly empty in
      let '(n, poly, empty) := r in
      let n := with_cow n None in
      let! _ := Point_Add_inplace (commitment n) (CommitToPoly poly empty) in
      ret (commitment n, n)
    else ret (commitment n, n).

(** [path[0]] *)
Definition path0 (path : list (list Z)) : result (list Z) :=
  match path with
  | [] => Panic "index out of range"
  | p :: _ => Ok p
  end.

Definition pe_append `{Curve} (pe : ProofElements) (c : option loc) (z : Z) (y : Fr)
  : ProofElements :=
  mkProofElements _ (Cis pe ++ [c]) (Zis pe ++ [z]) (Yis pe ++ [y]) (ByPath pe).
Definition pe_by_path `{Curve} (pe : ProofElements) (path : list Z) (c : option loc)
  : ProofElements :=
  mkProofElements _ (Cis pe) (Zis pe) (Yis pe) (<[path := c]> (ByPath pe)).

(** The loop that decides which of C1 and C2 are opened, over the keys of
    [n.values] in the order of the visit. *)
Fixpoint hasC_loop (suffixes : list Z) (hasC1 hasC2 : bool) : bool * bool :=
  match suffixes with
  | [] => (hasC1, hasC2)
  | suffix :: suffixes =>
    let hasC1 := hasC1 || (suffix <? 128) in
    let hasC2 := hasC2 || (128 <=? suffix) in
    if hasC2 then (hasC1, hasC2) (* break *)
    else hasC_loop suffixes hasC1 hasC2
  end.

(** The loop of [GetProofItems] over the stored suffixes, in ascending order. *)
Fixpoint suffix_loop (n : StatelessNode) (p0 : list Z) (suffixes : list Z)
    (pe : ProofElements) : ProofElements :=
  match suffixes with
  | [] => pe
  | suffix :: suffixes =>
    let scomm := if 128 <=? suffix then c2 n else c1 n in
    match scomm with
    | None => (* Proof of absence: case of a missing suffix tree. *)
      suffix_loop n p0 suffixes pe
    | Some _ =>
      let slot := value_get n suffix in
      let suffSlot := byte (2 + suffix / 128) in
      let slotPath := p0 ++ [suffSlot] in
      let ys := match slot with
                | None => (* Proof of absence: case of a missing value. *)
                  (FrZero, FrZero)
                | Some _ => leafToComms slot
                end in
      let pe := pe_append pe scomm (byte (2 * suffix)) (fst ys) in
      let pe := pe_append pe scomm (byte (2 * suffix + 1)) (snd ys) in
      suffix_loop n p0 suffixes (pe_by_path pe slotPath scomm)
    end
  end.

(** [GetProofItems]: the result is the proof elements and the receiver after
    the call (the other two returned values are always nil). *)
Fixpoint GetProofItems (fuel : nat) (n : StatelessNode) (path : list (list Z))
  : M (ProofElements * StatelessNode) :=
  let pe := mkProofElements _ [] [] [] ∅ in
  if map_len (values n) =? 0 then
    (* First case: this node is an internal node. *)
    let indices := sort_Slice (range_keys (children n)) in
    let! r :=
      (fix level (idxs : list Z) (n : StatelessNode) (pe : ProofElements)
         : M (StatelessNode * ProofElements) :=
         match idxs with
         | [] => ret (n, pe)
         | idx :: idxs =>
           (* Add the proof elements for this opening of the polynomial *)
           let! r :=
             match child_get n idx with
             | None => (* when proving that a key is not in the tree *)
               ret (FrZero, n)
             | Some c =>
               let! cc := Commitment_of c in
               let! n := child_set n idx (Some (snd cc)) in
               let! yi := toFr (fst cc) in
               ret (yi, n)
             end in
           let '(yi, n) := r in
           let! p0 := lift (path0 path) in
           let childpath := p0 ++ [idx] in
           let pe := pe_append pe (commitment n) idx yi in
           level idxs n (pe_by_path pe childpath (commitment n))
         end) indices n pe in
    let '(n, pe) := r in
    (* Recurse into the child and append its proof elements,
       only if the child isn't a hashed node. *)
    let! r :=
      (fix recurse (idxs : list Z) (n : StatelessNode) (pe : ProofElements)
         : M (StatelessNode * ProofElements) :=
         match idxs with
         | [] => ret (n, pe)
         | idx :: idxs =>
           let! p0 := lift (path0 path) in
           let childpath := p0 ++ [idx] in
           match child_get n idx with
           | Some (NStateless child) =>
             match fuel with
             | O => out_of_fuel
             | S fuel =>
               let! r := GetProofItems fuel child [childpath] in
               let! n := child_set n idx (Some (NStateless (snd r))) in
               recurse idxs n (ProofElements_Merge pe (fst r))
             end
           | None | Some (NHashed _) =>
             (* We already have what we need, do nothing *)
             recurse idxs n pe
           | Some _ => panic "invalid node type in stateless GetProofItems"
           end
         end) indices n pe in
    let '(n, pe) := r in
    ret (pe, n)
  else
    (* Second case: this node is a leaf and so the insertion order
       for values differs. *)
    (* Append the extension level stuff. *)
    let pe := pe_append pe (commitment n) 0 FrOne in
    let pe := pe_append pe (commitment n) 1 (StemFromBytes (stem n)) in
    (* NOTE: C2 will be added before the values pertaining to C1. *)
    let '(hasC1, hasC2) := hasC_loop (range_keys (values n)) false false in
    let! pe :=
      if hasC1 then
        let! yi := toFr (c1 n) in ret (pe_append pe (commitment n) 2 yi)
      else ret pe in
    let! pe :=
      if hasC2 then
        let! yi := toFr (c2 n) in ret (pe_append pe (commitment n) 3 yi)
      else ret pe in
    let! p0 := lift (path0 path) in
    let pe := pe_by_path pe p0 (commitment n) in
    (* Go over the values and add their commitments *)
    let indices := sort_Slice (range_keys (values n)) in
    ret (suffix_loop n p0 indices pe, n).

End WithPackage.

(** *** The remaining methods *)

Section Serialization.
Context `{package : Package}.

(** [leafRLPType] and [internalRLPType], the type tags of the serialization,
    are constants declared in a file that is not among the sources. *)
Variable leafRLPType internalRLPType : Z.

(** [Children]: the 256 child slots, [Empty] where there is no child. *)
Definition Children (n : StatelessNode) : list VerkleNode :=
  (fun i => match child_get n (byte i) with
            | Some c => c
            | None => NEmpty
            end) <$> seqZ 0 256.

(** [SetChild]: the returned error and the receiver after the call.  A
    [VerkleNode] that is nil is no [*StatelessNode]. *)
Definition SetChild (n : StatelessNode) (i : Z) (v : option VerkleNode)
  : M (option error * StatelessNode) :=
  if NodeWidth <=? i then
    ret (Some (errorsNew "child index higher than node width"), n)
  else
    match v with
    | Some (NStateless c) =>
      let! n := child_set n (byte i) (Some (NStateless c)) in
      ret (None, n)
    | _ => ret (Some errStatelessAndStatefulMix, n)
    end.

(** The zero bytes that fill a value up to 32 bytes. *)
Definition padding (v : list Z) : list Z := replicate (32 - length v) 0.

(** The loop of [Serialize] over the values of a leaf; [None] is the early
    return on a value that is not loaded. *)
Fixpoint Serialize_values (n : StatelessNode) (idxs : list Z) (bitlist buf : list Z)
  : result (option (list Z * list Z)) :=
  match idxs with
  | [] => Ok (Some (bitlist, buf))
  | i :: rest =>
    match map_get (values n) (byte i) with
    | None => Ok None
    | Some None => Serialize_values n rest bitlist buf
    | Some (Some v) =>
      let? bitlist := Tree.setBit bitlist i in
      Serialize_values n rest bitlist (buf ++ v ++ padding v)
    end
  end.

(** The loop of [Serialize] over the child slots of an internal node. *)
Fixpoint Serialize_children (n : StatelessNode) (idxs : list Z) (bitlist buf : list Z)
  : M (StatelessNode * list Z * list Z) :=
  match idxs with
  | [] => ret (n, bitlist, buf)
  | i :: rest =>
    match map_get (children n) (byte i) with
    | Some c =>
      let! bitlist := lift (Tree.setBit bitlist i) in
      match c with
      | None => panic "nil pointer dereference"
      | Some c =>
        let! r := Commitment_of c in
        let! n := child_set n (byte i) (Some (snd r)) in
        let! p := load (fst r) in
        Serialize_children n rest bitlist (buf ++ Point_Bytes p)
      end
    | None =>
      (* if neither resolved nor unresolved, this
         is an empty node, to be skipped. *)
      match map_get (unresolved n) (byte i) with
      | Some bytes =>
        let! bitlist := lift (Tree.setBit bitlist i) in
        Serialize_children n rest bitlist (buf ++ slice_bytes bytes)
      | None => Serialize_children n rest bitlist buf
      end
    end
  end.

(** [Serialize]: the returned bytes and error, and the receiver after the
    call. *)
Definition Serialize (n : StatelessNode) : M (slice * option error * StatelessNode) :=
  let bitlist := replicate 32 0 in
  match children n with
  | None =>
    (* Only serialize leaf nodes if all the values are loaded *)
    let! r := lift (Serialize_values n (seqZ 0 NodeWidth) bitlist []) in
    match r with
    | None => ret (None, Some errNotSupportedInStateless, n)
    | Some (bitlist, buf) =>
      ret (Some ([leafRLPType] ++ slice_bytes (stem n) ++ bitlist ++ buf), None, n)
    end
  | Some _ =>
    let! r := Serialize_children n (seqZ 0 NodeWidth) bitlist [] in
    let '(n, bitlist, buf) := r in
    ret (Some ([internalRLPType] ++ bitlist ++ buf), None, n)
  end.

(** What [Serialize] appends for the value at a suffix. *)
Definition value_bytes (n : StatelessNode) (i : Z) : list Z :=
  match value_get n i with
  | Some v => v ++ padding v
  | None => []
  end.

End Serialization.

Section Copying.
Context `{package : Package}.
Variable range_order : list Z -> list Z.

(** The [Copy] methods of the other node kinds are declared in files that
    are not among the sources. *)
Variable Copy_of : VerkleNode -> M VerkleNode.

(** [make([]byte, len(v))] followed by [copy]: the copy of a nil slice is an
    empty slice that is not nil. *)
Definition copy_bytes (v : slice) : slice := Some (slice_bytes v).

(** [Copy]: the node it returns.  The receiver is only read. *)
Fixpoint Copy (fuel : nat) (n : StatelessNode) : M StatelessNode :=
  let! p := new_Point Point_zero_value in
  let r := mkStatelessNode None None None None (depth n) (count n) None None
             (Some p) None None in
  let! r :=
    match children n with
    | Some _ =>
      (fix loop (idxs : list Z) (r : StatelessNode) : M StatelessNode :=
         match idxs with
         | [] => ret r
         | i :: idxs =>
           match child_get n i with
           | None => panic "nil pointer dereference"
           | Some child =>
             let! c :=
               match child with
               | NStateless s =>
                 match fuel with
                 | O => out_of_fuel
                 | S fuel => let! c := Copy fuel s in ret (NStateless c)
                 end
               | _ => Copy_of child
               end in
             let! r := child_set r i (Some c) in
             loop idxs r
           end
         end) (range_keys range_order (children n)) (with_children r (Some ∅))
    | None =>
      ret (with_values r (Some (copy_bytes <$> default ∅ (values n))))
    end in
  let r := match unresolved n with
           | Some u => with_unresolved r (Some (copy_bytes <$> u))
           | None => r
           end in
  let r := mkStatelessNode (children r) (unresolved r) (values r) (stem r) (depth r)
             (count r) (hash n) (cow r) (commitment r) (c1 r) (c2 r) in
  let! _ := match commitment n with
            | Some _ => CopyPoint (commitment r) (commitment n)
            | None => ret tt
            end in
  match cow n with
  | Some _ =>
    (fix loop (idxs : list Z) (r : StatelessNode) : M StatelessNode :=
       match idxs with
       | [] => ret r
       | k :: idxs =>
         let! q := new_Point Point_zero_value in
         let! _ := CopyPoint (Some q) (map_get (cow n) k) in
         let! cw := lift (map_set (cow r) k q) in
         loop idxs (with_cow r cw)
       end) (range_keys range_order (cow n)) (with_cow r (Some ∅))
  | None => ret r
  end.

End Copying.

Section Paths.
Context `{package : Package}.

(** [reaches d n key]: from [n], the bytes of [key] select stateless
    children down to a node in leaf mode that holds the stem of [key], [d]
    levels below. *)
Inductive reaches : nat -> StatelessNode -> list Z -> Prop :=
| reaches_leaf n key vs :
    map_len (children n) = 0 ->
    values n = Some vs ->
    stem n = Some (take 31 key) ->
    reaches 0 n key
| reaches_child d n key i c :
    map_len (children n) <> 0 ->
    values n = None ->
    offset2key key (depth n) = Ok i ->
    child_get n i = Some (NStateless c) ->
    reaches d c key ->
    reaches (S d) n key.

End Paths.

End Stateless.

(** ** Concrete trees and keys

    The inputs on which the embedded code is run below.  Heap locations 0 to
    3 hold the commitments the nodes point to. *)

Module Scenarios.
Import Stateless.

Section WithPackage.
Context `{package : Package}.

Definition zero_stem : list Z := replicate 31 0.

(** The key with stem 0...0 and suffix 5, and a key with another stem (it
    differs in byte 1) and the same suffix. *)
Definition key_zero_5 : list Z := zero_stem ++ [5].
Definition key_other_5 : list Z := [0; 1] ++ replicate 29 0 ++ [5].
(** A key whose first byte selects no child of the roots below. *)
Definition key_absent : list Z := replicate 32 1.

Definition value_a : slice := Some (replicate 32 1).
Definition value_b : slice := Some (replicate 32 2).
Definition zero32 : slice := Some (replicate 32 0).

(** What a proof says of the stem 0...0: it is present, with C1 and C2 and
    with values at the suffixes 5 and 200. *)
Definition stem_zero_info : stemInfo :=
  mkStemInfo extStatusPresent true true (Some {[5 := value_a; 200 := value_b]})
    (Some zero_stem).

(** The leaf that proof reconstruction ([insertStem]) builds for it below
    the root: a node in leaf mode at depth 1, whose commitment, C1 and C2 are
    at the locations 0, 1 and 2; [c] is the commitment it was built with. *)
Definition leaf_5_200 (c : Point) : StatelessNode :=
  mkStatelessNode (Some ∅) None (Some {[5 := value_a; 200 := value_b]})
    (Some zero_stem) 1 0 (Some (MapToScalarField c)) None
    (Some 0%nat) (Some 1%nat) (Some 2%nat).

(** The root after that reconstruction: its child 0 is the leaf, its own
    commitment is at location 3. *)
Definition root_over_leaf (c : Point) : StatelessNode :=
  mkStatelessNode (Some {[0 := Some (NStateless (leaf_5_200 c))]}) (Some ∅) None None
    0 0 (Some FrZero) None (Some 3%nat) None None.

(** A root whose child 0 is known by its serialized commitment only. *)
Definition unresolved_commitment : list Z := [9; 9].
Definition root_unresolved : StatelessNode :=
  mkStatelessNode (Some ∅) (Some {[0 := Some unresolved_commitment]}) None None
    0 0 (Some FrZero) None (Some 3%nat) None None.

(** A resolver that has no node to offer. *)
Definition failing_resolver (err : error) : NodeResolverFn := fun _ => (None, Some err).

(** 256 absent values. *)
Definition no_values : list slice := replicate 256 None.

End WithPackage.
End Scenarios.

(** ** Concrete instances of the interfaces

    The integers stand for the curve: points and scalars are numbers, the
    group law is addition.  The instances serve to run the embedded code on
    concrete inputs. *)

Module Model.

Definition bls : Tree.BLS := {|
  Tree.G1 := Z;
  Tree.Fr := Z;
  Tree.ZERO_G1 := 0;
  Tree.ZeroG1 := 0;
  Tree.GenG1 := 1;
  Tree.AddG1 := Z.add;
  Tree.MulG1 := Z.mul;
  Tree.LinCombG1 := fun gs ps => foldr Z.add 0 (zip_with Z.mul gs ps);
  Tree.ToCompressedG1 := Z_to_le 48;
  Tree.FrFrom32 := fun bs => Some (le_to_Z bs);
  Tree.AsFr := fun x => x;
  Tree.EqualZero := fun x => x =? 0;
  Tree.Fr_zero_value := 0;
  Tree.sha256_Sum256 := fun bs => take 32 (bs ++ replicate 32 0)
|}.

Definition config : @Tree.Config bls := {|
  Tree.GetTreeConfig := fun w =>
    @Tree.mkTreeConfig bls w (2 ^ w) 13 (replicate (Z.to_nat (2 ^ w)) 1)
|}.

Definition curve : Stateless.Curve := {|
  Stateless.Point := Z;
  Stateless.Fr := Z;
  Stateless.Point_zero_value := 0;
  Stateless.Fr_zero_value := 0;
  Stateless.Identity := 0;
  Stateless.Point_Add := Z.add;
  Stateless.Point_ScalarMul := Z.mul;
  Stateless.MapToScalarField := fun x => x;
  Stateless.FrZero := 0;
  Stateless.FrOne := 1;
  Stateless.Fr_Sub := Z.sub;
  Stateless.SRS := fun i => i + 1;
  Stateless.leafToComms := fun s =>
    match s with
    | None => (0, 0)
    | Some bs => (le_to_Z (take 16 bs) + 2 ^ 128, le_to_Z (drop 16 bs))
    end;
  Stateless.StemFromBytes := fun s => le_to_Z (slice_bytes s);
  Stateless.CommitToPoly := fun poly _ =>
    foldr Z.add 0 (zip_with Z.mul poly (Z.of_nat <$> seq 1 256));
  Stateless.Point_Bytes := fun p => [p]
|}.

(** No stateful node is ever built in the runs below. *)
Definition nodes : Stateless.StatefulNodes := {|
  Stateless.InternalNode := unit;
  Stateless.LeafNode := unit
|}.

#[local] Existing Instance curve.
#[local] Existing Instance nodes.

Definition package : Stateless.Package := {|
  Stateless.Empty_Commitment :=
    Stateless.bind (Stateless.new_Point 0) (fun l => Stateless.ret (Some l));
  Stateless.Empty_Commit :=
    Stateless.bind (Stateless.new_Point 0) (fun l => Stateless.ret (Some l));
  Stateless.Empty_Get := fun _ _ => Stateless.ret (None, None);
  Stateless.HashedNode_Commitment := fun h => Stateless.ret (Stateless.hn_cachedPoint h, h);
  Stateless.HashedNode_Commit := fun h => Stateless.ret (Stateless.hn_cachedPoint h, h);
  Stateless.HashedNode_Get := fun h _ _ =>
    Stateless.ret (None, Some (Stateless.errorsNew "can not read from a hash node"), h);
  Stateless.InternalNode_Commitment := fun i => Stateless.ret (None, i);
  Stateless.InternalNode_Commit := fun i => Stateless.ret (None, i);
  Stateless.InternalNode_Get := fun i _ _ => Stateless.ret (None, None, i);
  Stateless.InternalNode_InsertStem := fun i _ _ _ => Stateless.ret (None, i);
  Stateless.LeafNode_Commitment := fun l => Stateless.ret (None, l);
  Stateless.LeafNode_Commit := fun l => Stateless.ret (None, l);
  Stateless.LeafNode_Get := fun l _ _ => Stateless.ret (None, None, l);
  Stateless.LeafNode_updateMultipleLeaves := fun l _ => Stateless.ret l;
  Stateless.LeafNode_stem := fun _ => [];
  Stateless.LeafNode_depth := fun _ => 0;
  Stateless.LeafNode_setDepth := fun l _ => l;
  Stateless.NewLeafNode := fun _ _ => Stateless.ret tt;
  Stateless.ParseStatelessNode := fun _ _ _ =>
    Stateless.ret (None, Some (Stateless.errorsNew "not a node"));
  Stateless.equalPaths := bytes_Equal;
  Stateless.ProofElements_Merge := fun a b =>
    Stateless.mkProofElements _
      (Stateless.Cis a ++ Stateless.Cis b) (Stateless.Zis a ++ Stateless.Zis b)
      (Stateless.Yis a ++ Stateless.Yis b) (Stateless.ByPath b ∪ Stateless.ByPath a);
  Stateless.extStatusAbsentEmpty := 0;
  Stateless.extStatusAbsentOther := 1;
  Stateless.extStatusPresent := 2
|}.

#[local] Existing Instance bls.
#[local] Existing Instance config.
#[local] Existing Instance package.

(** A fresh tree of width 8 bits, and two keys that share their first three
    bytes. *)
Definition fresh_root : Tree.VerkleNode :=
  Tree.InternalNode (replicate 256 Tree.empty) 0 Tree.zeroHash None (Tree.GetTreeConfig 8).
Definition key_1234 : list Z := [1; 2; 3; 4] ++ replicate 28 0.
Definition key_1235 : list Z := [1; 2; 3; 5] ++ replicate 28 0.

(** A heap for the nodes of [Scenarios]: the three commitments of a proof
    and the commitment of the root. *)
Definition heap4 : Stateless.heap := [10; 20; 30; 0].

(** The leaf and the root of [Scenarios] on that heap. *)
Definition leaf10 : Stateless.StatelessNode := @Scenarios.leaf_5_200 curve nodes 10.
Definition root10 : Stateless.StatelessNode := @Scenarios.root_over_leaf curve nodes 10.

(** [root10] once child 0 has been touched: the snapshot of its commitment
    is at the new location 4. *)
Definition root_touched : Stateless.StatelessNode :=
  Stateless.with_cow root10 (Some {[0 := 4%nat]}).


(** The leaf of [Scenarios] with a nil children map, as a parsed or copied
    leaf has it, and the same leaf with all of its 256 values loaded (the
    value at suffix 5 is there, the others are nil). *)
Definition leaf_nil_children : Stateless.StatelessNode :=
  Stateless.with_children leaf10 None.
Definition leaf_loaded : Stateless.StatelessNode :=
  Stateless.with_values leaf_nil_children
    (Some (list_to_map ((fun i => (i, if i =? 5 then Scenarios.value_a else None))
                          <$> seqZ 0 256))).

(** A leaf whose stored suffixes are all below 128. *)
Definition leaf_low : Stateless.StatelessNode :=
  Stateless.with_values leaf10 (Some {[5 := Scenarios.value_a; 7 := Scenarios.value_b]}).

(** The root that [NewStateless] returns on the heap of the three
    commitments. *)
Definition root_new : Stateless.StatelessNode :=
  Stateless.mkStatelessNode (Some ∅) (Some ∅) None None 0 0 (Some 0) None (Some 3%nat)
    None None.

(** An account, and the root of a tree that holds it in slot 1. *)
Definition account_1234 : Tree.VerkleNode :=
  Tree.accountLeaf key_1234 None 1 (Some 1000) 7 0 (replicate 32 0) None None.
Definition root_with_account : Tree.VerkleNode :=
  Tree.InternalNode (<[1%nat := account_1234]> (replicate 256 Tree.empty)) 0 Tree.zeroHash
    None (Tree.GetTreeConfig 8).

End Model.

(** * Properties of tree.go *)

Module TreeFacts.
Import Tree.
Local Open Scope res_scope.

Section Facts.
Context `{config : Config}.

Lemma index_lookup (s : list Z) (i b : Z) :
  0 <= i -> s !! Z.to_nat i = Some b -> index s i = Ok b.
Proof.
  intros Hi Hl. unfold index.
  pose proof (lookup_lt_Some _ _ _ Hl) as Hlt.
  replace (i <? 0) with false by (symmetry; apply Z.ltb_ge; lia).
  replace (Z.of_nat (length s) <=? i) with false by (symmetry; apply Z.leb_gt; lia).
  simpl. rewrite Hl. reflexivity.
Qed.

Lemma offset2Key_byte (tc : TreeConfig) (k : list Z) (i : nat) (b : Z) :
  width tc = 8 -> k !! i = Some b ->
  offset2Key k (8 * Z.of_nat i) (width tc) = Ok b.
Proof.
  intros Hw Hl. unfold offset2Key. rewrite Hw. simpl.
  apply index_lookup.
  - apply Z.quot_pos; lia.
  - replace (Z.quot (8 * Z.of_nat i) 8) with (Z.of_nat i).
    + rewrite Nat2Z.id. exact Hl.
    + rewrite Z.mul_comm. symmetry. apply Z.quot_mul. lia.
Qed.

Lemma child_at_lookup (cs : list VerkleNode) (i : Z) (c : VerkleNode) :
  0 <= i -> cs !! Z.to_nat i = Some c -> child_at cs i = Ok c.
Proof.
  intros Hi Hl. unfold child_at.
  replace (i <? 0) with false by (symmetry; apply Z.ltb_ge; lia).
  rewrite Hl. reflexivity.
Qed.

Lemma child_at_inv (cs : list VerkleNode) (i : Z) (c : VerkleNode) :
  child_at cs i = Ok c -> 0 <= i /\ cs !! Z.to_nat i = Some c.
Proof.
  unfold child_at. destruct (i <? 0) eqn:Hi; [discriminate|].
  apply Z.ltb_ge in Hi. destruct (cs !! Z.to_nat i); [|discriminate].
  intros [= ->]. auto.
Qed.

Lemma set_child_in_range (cs : list VerkleNode) (i : Z) (c : VerkleNode) :
  0 <= i < Z.of_nat (length cs) ->
  set_child cs i c = Ok (<[Z.to_nat i := c]> cs).
Proof.
  intros Hi. unfold set_child.
  replace (i <? 0) with false by (symmetry; apply Z.ltb_ge; lia).
  replace (Z.of_nat (length cs) <=? i) with false by (symmetry; apply Z.leb_gt; lia).
  reflexivity.
Qed.

(** The child selection of [InternalNode.Get], read off the child slice. *)
Lemma Get_InternalNode cs d h c tc k nChild child :
  offset2Key k d (width tc) = Ok nChild ->
  child_at cs nChild = Ok child ->
  Get (InternalNode cs d h c tc) k =
    match child with
    | empty | hashedNode _ _ | nilNode =>
      Ok (None, Some (errorsNew "trying to read from an invalid child"))
    | _ => Get child k
    end.
Proof.
  intros Hk Hc. apply child_at_inv in Hc as [Hi Hl].
  cbn [Get]. rewrite Hk. cbn [rbind].
  replace (nChild <? 0) with false by (symmetry; apply Z.ltb_ge; lia).
  generalize dependent (Z.to_nat nChild). clear Hk Hi.
  induction cs as [|c0 cs IH]; intros i Hl; [discriminate|].
  destruct i as [|i]; cbn in Hl.
  - injection Hl as ->. reflexivity.
  - apply IH. exact Hl.
Qed.

(** One step of [InternalNode.Insert] when the selected slot is empty. *)
Lemma Insert_into_empty fuel cs d h c tc key v nChild :
  offset2Key key d (width tc) = Ok nChild ->
  child_at cs nChild = Ok empty ->
  Insert (S fuel) (InternalNode cs d h c tc) key v =
    let? cs' := set_child cs nChild (leafNode key v) in
    Ok (InternalNode cs' d h None tc, None).
Proof.
  intros Hk Hc. cbn [Insert]. rewrite Hk. cbn [rbind]. rewrite Hc. reflexivity.
Qed.

(** One step of [InternalNode.Insert] when the selected slot holds a leaf
    with another key: a branch node is inserted below. *)
Lemma Insert_splits_leaf fuel cs d h c tc key v nChild ckey cv we wi :
  offset2Key key d (width tc) = Ok nChild ->
  child_at cs nChild = Ok (leafNode ckey cv) ->
  ckey <> key ->
  0 <= nodeWidth tc ->
  offset2Key ckey (d + width tc) (width tc) = Ok we ->
  offset2Key key (d + width tc) (width tc) = Ok wi ->
  Insert (S fuel) (InternalNode cs d h c tc) key v =
    let? b0 := set_child (replicate (Z.to_nat (nodeWidth tc)) empty) we (leafNode ckey cv) in
    let? nb :=
      if negb (wi =? we) then
        let? b1 := set_child b0 wi (leafNode key v) in
        Ok (InternalNode b1 (d + width tc) zeroHash None tc)
      else
        let? r := Insert fuel (InternalNode b0 (d + width tc) zeroHash None tc) key v in
        Ok (fst r) in
    let? cs' := set_child cs nChild nb in
    Ok (InternalNode cs' d h None tc, None).
Proof.
  intros Hk Hc Hne Hnw Hwe Hwi. cbn [Insert]. rewrite Hk. cbn [rbind]. rewrite Hc.
  cbn [rbind]. unfold bytes_Equal. rewrite bool_decide_false by exact Hne.
  rewrite Hwe. cbn [rbind]. unfold newInternalNode.
  replace (nodeWidth tc <? 0) with false by (symmetry; apply Z.ltb_ge; lia).
  cbn [rbind].
  destruct (set_child (replicate (Z.to_nat (nodeWidth tc)) empty) we (leafNode ckey cv))
    as [b0| |]; cbn [rbind]; try reflexivity.
  rewrite Hwi. cbn [rbind]. reflexivity.
Qed.

Lemma offset2Key_at (tc : TreeConfig) (k : list Z) (d : Z) (i : nat) (b : Z) :
  width tc = 8 -> d = 8 * Z.of_nat i -> k !! i = Some b ->
  offset2Key k d (width tc) = Ok b.
Proof. intros Hw -> Hl. apply offset2Key_byte; assumption. Qed.

(** C1.  On a fresh tree of width 8 bits (256 children per node), inserting
    two 32-byte keys that agree on bytes 0, 1, 2 and differ in byte 3 succeeds,
    both keys read back their value, and the branch holding them is made of
    four internal nodes, one per consumed byte of the key: the root (byte 0),
    two nodes with a single child (the shared bytes 1 and 2) and the node, at
    bit depth 24, where byte 3 separates the two leaves. *)
Theorem insert_two_keys_diverging_at_byte_3
    (w : Z) (k1 k2 : list Z) (v1 v2 : slice) (fuel : nat) :
  let tc := GetTreeConfig w in
  width tc = 8 -> nodeWidth tc = 256 ->
  length k1 = 32%nat -> length k2 = 32%nat ->
  Forall is_byte k1 -> Forall is_byte k2 ->
  take 3 k1 = take 3 k2 -> k1 !! 3%nat <> k2 !! 3%nat ->
  (3 <= fuel)%nat ->
  exists root t1 t2 a b c d1 d2,
    New w = Ok root /\
    Insert fuel root k1 v1 = Ok (t1, None) /\
    Insert fuel t1 k2 v2 = Ok (t2, None) /\
    Get t2 k1 = Ok (v1, None) /\
    Get t2 k2 = Ok (v2, None) /\
    take 4 k1 = [a; b; c; d1] /\
    take 4 k2 = [a; b; c; d2] /\
    t2 = single tc 0 a (single tc 8 b (single tc 16 c
           (fork tc 24 d1 (leafNode k1 v1) d2 (leafNode k2 v2)))).
Proof.
  intros tc Hw Hnw Hl1 Hl2 Hb1 Hb2 Hpre Hdiff Hfuel.
  destruct k1 as [|a [|b [|c [|d1 r1]]]]; try discriminate Hl1.
  destruct k2 as [|a' [|b' [|c' [|d2 r2]]]]; try discriminate Hl2.
  cbn in Hpre. injection Hpre as <- <- <-.
  assert (Hd : d1 <> d2) by (intros ->; apply Hdiff; reflexivity).
  rewrite !Forall_cons in Hb1. destruct Hb1 as (Ha & Hb & Hc & Hd1 & _).
  rewrite !Forall_cons in Hb2. destruct Hb2 as (_ & _ & _ & Hd2 & _).
  unfold is_byte in *.
  set (k1 := a :: b :: c :: d1 :: r1) in *.
  set (k2 := a :: b :: c :: d2 :: r2) in *.
  assert (Hk : k1 <> k2) by (intros [= ? ?]; contradiction).
  set (E := replicate (Z.to_nat (nodeWidth tc)) empty).
  assert (HlenE : Z.of_nat (length E) = 256).
  { unfold E. rewrite length_replicate, Hnw. reflexivity. }
  assert (HE : forall i, 0 <= i < 256 -> E !! Z.to_nat i = Some empty).
  { intros i Hi. unfold E. apply lookup_replicate_2. rewrite Hnw. lia. }
  assert (Hins : forall i (x : VerkleNode), 0 <= i < 256 ->
            (<[Z.to_nat i := x]> E) !! Z.to_nat i = Some x).
  { intros i x Hi. apply list_lookup_insert_eq. lia. }
  destruct fuel as [|[|[|fuel]]]; try lia.
  set (L1 := leafNode k1 v1). set (L2 := leafNode k2 v2).
  exists (InternalNode E 0 zeroHash None tc), (single tc 0 a L1).
  eexists. exists a, b, c, d1, d2.
  (* the first insertion *)
  assert (H1 : forall f, Insert (S f) (InternalNode E 0 zeroHash None tc) k1 v1
                 = Ok (single tc 0 a L1, None)).
  { intros f.
    rewrite (Insert_into_empty _ _ _ _ _ _ _ _ a).
    - rewrite set_child_in_range by lia. reflexivity.
    - apply (offset2Key_at tc k1 0 0 a); [exact Hw| |]; reflexivity.
    - apply child_at_lookup; [lia|]. apply HE; lia. }
  (* the innermost step of the second insertion: the keys part at byte 3 *)
  assert (H24 : forall f, Insert (S f) (single tc 16 c L1) k2 v2
                  = Ok (single tc 16 c (fork tc 24 d1 L1 d2 L2), None)).
  { intros f. unfold single at 1.
    rewrite (Insert_splits_leaf _ _ _ _ _ _ _ _ c k1 v1 d1 d2); try assumption.
    - fold E. rewrite (set_child_in_range E) by lia. cbn [rbind].
      replace (d2 =? d1) with false by (symmetry; apply Z.eqb_neq; congruence).
      cbn [negb]. rewrite set_child_in_range by (rewrite length_insert; lia).
      cbn [rbind]. rewrite set_child_in_range by (rewrite length_insert; lia).
      cbn [rbind]. rewrite list_insert_insert_eq. rewrite Hw. reflexivity.
    - apply (offset2Key_at tc k2 16 2 c); [exact Hw| |]; reflexivity.
    - apply child_at_lookup; [lia|]. apply Hins; lia.
    - lia.
    - rewrite Hw at 1. apply (offset2Key_at tc k1 _ 3 d1); [exact Hw| |]; reflexivity.
    - rewrite Hw at 1. apply (offset2Key_at tc k2 _ 3 d2); [exact Hw| |]; reflexivity. }
  (* one level up: byte 2 is shared *)
  assert (H16 : forall f, Insert (S (S f)) (single tc 8 b L1) k2 v2
                  = Ok (single tc 8 b (single tc 16 c (fork tc 24 d1 L1 d2 L2)), None)).
  { intros f. unfold single at 1.
    rewrite (Insert_splits_leaf _ _ _ _ _ _ _ _ b k1 v1 c c); try assumption.
    - fold E. rewrite (set_child_in_range E) by lia. cbn [rbind].
      rewrite Z.eqb_refl. cbn [negb]. rewrite Hw.
      change (8 + 8) with 16. fold (single tc 16 c L1). rewrite H24. cbn [rbind fst].
      rewrite set_child_in_range by (rewrite length_insert; lia).
      cbn [rbind]. rewrite list_insert_insert_eq. reflexivity.
    - apply (offset2Key_at tc k2 8 1 b); [exact Hw| |]; reflexivity.
    - apply child_at_lookup; [lia|]. apply Hins; lia.
    - lia.
    - rewrite Hw at 1. apply (offset2Key_at tc k1 _ 2 c); [exact Hw| |]; reflexivity.
    - rewrite Hw at 1. apply (offset2Key_at tc k2 _ 2 c); [exact Hw| |]; reflexivity. }
  (* at the root: byte 1 is shared *)
  assert (H0 : forall f, Insert (S (S (S f))) (single tc 0 a L1) k2 v2
                 = Ok (single tc 0 a (single tc 8 b (single tc 16 c
                         (fork tc 24 d1 L1 d2 L2))), None)).
  { intros f. unfold single at 1.
    rewrite (Insert_splits_leaf _ _ _ _ _ _ _ _ a k1 v1 b b); try assumption.
    - fold E. rewrite (set_child_in_range E) by lia. cbn [rbind].
      rewrite Z.eqb_refl. cbn [negb]. rewrite Hw.
      change (0 + 8) with 8. fold (single tc 8 b L1). rewrite H16. cbn [rbind fst].
      rewrite set_child_in_range by (rewrite length_insert; lia).
      cbn [rbind]. rewrite list_insert_insert_eq. reflexivity.
    - apply (offset2Key_at tc k2 0 0 a); [exact Hw| |]; reflexivity.
    - apply child_at_lookup; [lia|]. apply Hins; lia.
    - lia.
    - rewrite Hw at 1. apply (offset2Key_at tc k1 _ 1 b); [exact Hw| |]; reflexivity.
    - rewrite Hw at 1. apply (offset2Key_at tc k2 _ 1 b); [exact Hw| |]; reflexivity. }
  (* reading back, one level at a time *)
  assert (Hget : forall k v d3 (L : VerkleNode),
            L = leafNode k v -> take 3 k = [a; b; c] -> k !! 3%nat = Some d3 ->
            (<[Z.to_nat d2 := L2]> (<[Z.to_nat d1 := L1]> E)) !! Z.to_nat d3 = Some L ->
            0 <= d3 ->
            Get (single tc 0 a (single tc 8 b (single tc 16 c
                   (fork tc 24 d1 L1 d2 L2)))) k = Ok (v, None)).
  { intros k v d3 L -> Hpre H3 Hslot Hd3.
    assert (k !! 0%nat = Some a /\ k !! 1%nat = Some b /\ k !! 2%nat = Some c)
      as (Hk0 & Hk1 & Hk2).
    { destruct k as [|x0 [|x1 [|x2 k]]]; try discriminate Hpre.
      cbn in Hpre. injection Hpre as -> -> ->. auto. }
    unfold single, fork.
    erewrite Get_InternalNode.
    2: apply (offset2Key_at tc k 0 0 a); [exact Hw|reflexivity|exact Hk0].
    2: apply child_at_lookup; [lia|apply Hins; lia].
    cbv beta iota. erewrite Get_InternalNode.
    2: apply (offset2Key_at tc k 8 1 b); [exact Hw|reflexivity|exact Hk1].
    2: apply child_at_lookup; [lia|apply Hins; lia].
    cbv beta iota. erewrite Get_InternalNode.
    2: apply (offset2Key_at tc k 16 2 c); [exact Hw|reflexivity|exact Hk2].
    2: apply child_at_lookup; [lia|apply Hins; lia].
    cbv beta iota. erewrite Get_InternalNode.
    2: apply (offset2Key_at tc k 24 3 d3); [exact Hw|reflexivity|exact H3].
    2: apply child_at_lookup; [exact Hd3|exact Hslot].
    cbv beta iota.
    cbn [Get]. unfold bytes_Equal. rewrite bool_decide_true by reflexivity.
    reflexivity. }
  repeat split.
  - unfold New, newInternalNode. fold tc.
    replace (nodeWidth tc <? 0) with false by (rewrite Hnw; reflexivity).
    reflexivity.
  - apply H1.
  - apply H0.
  - apply (Hget k1 v1 d1 L1); [reflexivity|reflexivity|reflexivity| |lia].
    rewrite list_lookup_insert_ne by (intros Heq; apply Hd; lia).
    apply Hins; lia.
  - apply (Hget k2 v2 d2 L2); [reflexivity|reflexivity|reflexivity| |lia].
    apply list_lookup_insert_eq. rewrite length_insert. lia.
Qed.

(** C5, as the code has it.  [InternalNode.Get] returns no value and the
    error "trying to read from an invalid child" when the slot selected by
    the key holds an Empty node, and likewise when it holds a Hashed node.
    [Get] changes no node: it is a function of the tree and the key. *)
Theorem Get_fails_on_empty_or_hashed_child cs d h c tc k nChild child :
  offset2Key k d (width tc) = Ok nChild ->
  child_at cs nChild = Ok child ->
  child = empty \/ (exists hh hc, child = hashedNode hh hc) ->
  Get (InternalNode cs d h c tc) k =
    Ok (None, Some (errorsNew "trying to read from an invalid child")).
Proof.
  intros Hk Hc Hkind. rewrite (Get_InternalNode _ _ _ _ _ _ _ _ Hk Hc).
  destruct Hkind as [->|(hh & hc & ->)]; reflexivity.
Qed.

(** The direct sum over a polynomial of zero coefficients adds nothing. *)
Lemma sum_poly_zeros (g : list G1) (n i : nat) (comm : G1) :
  EqualZero Fr_zero_value = true ->
  sum_poly g (replicate n Fr_zero_value) i comm = Ok comm.
Proof.
  intros Hz. revert i. induction n as [|n IH]; intros i; cbn [replicate sum_poly].
  - reflexivity.
  - rewrite Hz. cbn [negb]. apply IH.
Qed.

(** The commitment of an internal node without children is [ZERO_G1]; the
    call caches it. *)
Lemma ComputeCommitment_no_children tc d h :
  0 <= nodeWidth tc ->
  EqualZero Fr_zero_value = true ->
  ComputeCommitment (InternalNode (replicate (Z.to_nat (nodeWidth tc)) empty) d h None tc)
  = Ok (ZERO_G1,
        InternalNode (replicate (Z.to_nat (nodeWidth tc)) empty) d h (Some ZERO_G1) tc).
Proof.
  intros Hnw Hz. cbn [ComputeCommitment].
  replace (nodeWidth tc <? 0) with false by (symmetry; apply Z.ltb_ge; lia).
  match goal with
  | |- context [rbind (?loop _ O ?poly 0) _] =>
    assert (Hloop : forall m idx e,
              loop (replicate m empty) idx poly e
              = Ok (replicate m empty, poly, e + Z.of_nat m))
  end.
  { induction m as [|m IH]; intros idx e; cbn [replicate].
    - rewrite Z.add_0_r. reflexivity.
    - cbn [rbind]. rewrite IH. cbn [rbind]. do 2 f_equal. lia. }
  rewrite Hloop. cbn [rbind]. rewrite Z2Nat.id by lia.
  replace (multiExpThreshold <=? nodeWidth tc - (0 + nodeWidth tc)) with false
    by (symmetry; apply Z.leb_gt; unfold multiExpThreshold; lia).
  rewrite sum_poly_zeros by exact Hz. reflexivity.
Qed.

End Facts.
End TreeFacts.

(** * Properties of stateless.go *)

Module StatelessFacts.
Import Stateless Scenarios.
Local Open Scope heap_scope.

Section Facts.
Context `{package : Package}.

(** C10.  On a node in leaf mode (a non-empty values map) [Commit] returns
    the stored commitment pointer and leaves the node and every point as
    they are, whatever the values, the stem, C1 and C2 hold. *)
Theorem Commit_in_leaf_mode_returns_stored_commitment
    (range_order : list Z -> list Z) (fuel : nat) (n : StatelessNode) (h : heap) :
  map_len (values n) <> 0 ->
  Commit range_order fuel n h = Ok ((commitment n, n), h).
Proof.
  intros Hv. apply Z.eqb_neq in Hv.
  destruct fuel; cbn [Commit]; rewrite Hv; reflexivity.
Qed.

(** What the loop over [n.values] computes: C2 is opened exactly when some
    stored suffix is 128 or more, but C1 is opened exactly when the suffix
    visited first is below 128. *)
Lemma hasC_loop_C1_seen (ks : list Z) (hasC2 : bool) :
  fst (hasC_loop ks true hasC2) = true.
Proof.
  revert hasC2. induction ks as [|s ks IH]; intros hasC2; cbn; [reflexivity|].
  destruct (hasC2 || (128 <=? s)); [reflexivity|apply IH].
Qed.

Lemma hasC_loop_hasC1 (ks : list Z) :
  fst (hasC_loop ks false false) =
    match ks with
    | [] => false
    | s :: _ => s <? 128
    end.
Proof.
  destruct ks as [|s ks]; cbn; [reflexivity|].
  destruct (Z.ltb_spec s 128) as [Hlt|Hge].
  - replace (128 <=? s) with false by (symmetry; apply Z.leb_gt; lia).
    apply hasC_loop_C1_seen.
  - replace (128 <=? s) with true by (symmetry; apply Z.leb_le; lia).
    reflexivity.
Qed.

Lemma hasC_loop_hasC2 (ks : list Z) (hasC1 : bool) :
  snd (hasC_loop ks hasC1 false) = existsb (fun s => 128 <=? s) ks.
Proof.
  revert hasC1. induction ks as [|s ks IH]; intros hasC1; cbn; [reflexivity|].
  destruct (128 <=? s); [reflexivity|apply IH].
Qed.

(** C3, at a failing input.  The leaf stores the suffixes 5 and 200.  When
    the visit of [n.values] meets 200 first the loop stops at once with
    [hasC1] false: the opening [(C, 2, to_fr(C1))] is not emitted although a
    suffix below 128 is stored, and the openings of the suffix 5 under C1
    follow all the same. *)
Theorem GetProofItems_misses_C1_opening
    (fuel : nat) (p0 p1 p2 : Point) (path : list Z) :
  (5 ∈ map_keys (values (leaf_5_200 p0)) /\ 5 < 128) /\
  reverse (map_keys (values (leaf_5_200 p0))) = [200; 5] /\
  exists pe,
    GetProofItems reverse fuel (leaf_5_200 p0) [path] [p0; p1; p2]
    = Ok ((pe, (leaf_5_200 p0)), [p0; p1; p2]) /\
    Cis pe = [Some 0; Some 0; Some 0; Some 1; Some 1; Some 2; Some 2]%nat /\
    Zis pe = [0; 1; 3; 10; 11; 144; 145] /\
    Yis pe = [FrOne; StemFromBytes (Some zero_stem); MapToScalarField p2;
              fst (leafToComms value_a); snd (leafToComms value_a);
              fst (leafToComms value_b); snd (leafToComms value_b)].
Proof.
  split; [split; [vm_compute; set_solver | lia]|].
  split; [reflexivity|].
  eexists. split; [destruct fuel; vm_compute; reflexivity|].
  repeat split.
Qed.

(** C4, at a failing input.  Two runs on the same leaf and the same path that
    differ only in the order in which the map [n.values] is visited return
    different [Zis] (and [Cis], [Yis]) sequences. *)
Theorem GetProofItems_depends_on_map_order
    (fuel : nat) (p0 p1 p2 : Point) (path : list Z) :
  exists pe pe',
    GetProofItems id fuel (leaf_5_200 p0) [path] [p0; p1; p2]
    = Ok ((pe, (leaf_5_200 p0)), [p0; p1; p2]) /\
    GetProofItems reverse fuel (leaf_5_200 p0) [path] [p0; p1; p2]
    = Ok ((pe', (leaf_5_200 p0)), [p0; p1; p2]) /\
    Zis pe = [0; 1; 2; 3; 10; 11; 144; 145] /\
    Zis pe' = [0; 1; 3; 10; 11; 144; 145] /\
    length (Cis pe) <> length (Cis pe') /\
    length (Yis pe) <> length (Yis pe').
Proof.
  eexists. eexists.
  split; [destruct fuel; vm_compute; reflexivity|].
  split; [destruct fuel; vm_compute; reflexivity|].
  repeat split; cbn; lia.
Qed.

(** Inversion of a run that returns. *)
Lemma bind_Ok {A B} (m : M A) (k : A -> M B) (h : heap) (r : B * heap) :
  bind m k h = Ok r -> exists a h1, m h = Ok (a, h1) /\ k a h1 = Ok r.
Proof.
  unfold bind. destruct (m h) as [[a h1]| |]; try discriminate. eauto.
Qed.

Lemma ret_Ok {A} (a b : A) (h h' : heap) : ret a h = Ok (b, h') -> b = a /\ h' = h.
Proof. unfold ret. intros [= -> ->]. auto. Qed.

Lemma lift_Ok {A} (r : result A) (a : A) (h h' : heap) :
  lift r h = Ok (a, h') -> r = Ok a /\ h' = h.
Proof. unfold lift. destruct r; try discriminate. intros [= -> ->]. auto. Qed.

(** [n.children[i] = c] touches [children] only, and populates slot [i]. *)
Lemma child_set_Ok (n : StatelessNode) i c h n' h' :
  child_set n i c h = Ok (n', h') ->
  h' = h /\ unresolved n' = unresolved n /\ map_get (children n') i = Some c.
Proof.
  unfold child_set. intros Hrun. apply bind_Ok in Hrun as (cs & h1 & E & Hrun).
  apply lift_Ok in E as [E ->]. apply ret_Ok in Hrun as [-> ->].
  unfold map_set in E. destruct (children n) as [m|]; [|discriminate].
  injection E as <-. repeat split. cbn. apply lookup_insert_eq.
Qed.

Lemma child_set_keeps (n : StatelessNode) i c h n' h' j :
  child_set n i c h = Ok (n', h') ->
  is_Some (map_get (children n) j) -> is_Some (map_get (children n') j).
Proof.
  unfold child_set. intros Hrun. apply bind_Ok in Hrun as (cs & h1 & E & Hrun).
  apply lift_Ok in E as [E ->]. apply ret_Ok in Hrun as [-> ->].
  unfold map_set in E. destruct (children n) as [m|]; [|discriminate].
  injection E as <-. cbn. intros Hj.
  destruct (decide (i = j)) as [->|Hne].
  - rewrite lookup_insert_eq. eauto.
  - rewrite lookup_insert_ne by exact Hne. exact Hj.
Qed.

(** [cowChild] leaves [unresolved] alone and removes no child. *)
Lemma cowChild_frame (n : StatelessNode) i h n' h' :
  cowChild n i h = Ok (n', h') ->
  unresolved n' = unresolved n /\
  (forall j, is_Some (map_get (children n) j) -> is_Some (map_get (children n') j)).
Proof.
  unfold cowChild. destruct (children n) as [cs|] eqn:Hcs.
  2: { intros Hrun. apply ret_Ok in Hrun as [-> ->]. rewrite Hcs. auto. }
  set (cw := match cow n with Some cw => cw | None => ∅ end).
  destruct (cw !! i) as [q|].
  { intros Hrun. apply ret_Ok in Hrun as [-> ->]. cbn. rewrite Hcs. auto. }
  intros Hrun. apply bind_Ok in Hrun as (q & h1 & _ & Hrun).
  destruct (child_get _ i) as [c|]; [|discriminate Hrun].
  apply bind_Ok in Hrun as (r & h2 & _ & Hrun).
  apply bind_Ok in Hrun as (n2 & h3 & E & Hrun).
  apply bind_Ok in Hrun as (u & h4 & _ & Hrun).
  apply ret_Ok in Hrun as [-> ->].
  split.
  - apply child_set_Ok in E as (_ & E & _). exact E.
  - intros j Hj. eapply child_set_keeps; [exact E|]. cbn. rewrite Hcs. exact Hj.
Qed.

(** Whenever [InsertAtStem] goes through a slot that is only in [unresolved]
    and returns (with or without an error, whatever the resolver and the
    parser answer), the slot is populated in [children] and its entry in
    [unresolved] is still there. *)
Lemma InsertAtStem_through_unresolved_slot
    fuel (n : StatelessNode) stem vals resolver h nChild u e n' h' :
  values n = None ->
  offset2key stem (depth n) = Ok nChild ->
  child_get n nChild = None ->
  unresolved_get n nChild = Some u -> u <> [] ->
  InsertAtStem fuel n stem vals resolver h = Ok ((e, n'), h') ->
  is_Some (map_get (children n') nChild) /\ unresolved_get n' nChild = Some u.
Proof.
  intros Hv Hk Hc Hu Hne Hrun.
  assert (Hlen : (slice_len (Some u) =? 0) = false).
  { apply Z.eqb_neq. unfold slice_len. cbn. destruct u; [congruence|cbn; lia]. }
  destruct fuel as [|fuel]; cbn [InsertAtStem] in Hrun;
  apply bind_Ok in Hrun as (nc & h1 & E & Hrun); apply lift_Ok in E as [E ->];
  rewrite Hk in E; injection E as <-; rewrite Hv in Hrun;
  apply bind_Ok in Hrun as (early & h1 & E & Hrun);
  rewrite Hc, Hu, Hlen in E;
  apply bind_Ok in E as (n1 & h2 & E1 & E); apply ret_Ok in E as [-> ->];
  pose proof (child_set_Ok _ _ _ _ _ _ E1) as (-> & Hu1 & Hc1);
  apply bind_Ok in Hrun as (resolved & h2 & E & Hrun);
  (assert (Hch1 : child_get n1 nChild = Some (NHashed (mkHashedNode (Some u) None)))
     by (unfold child_get; rewrite Hc1; reflexivity));
  rewrite Hch1 in E; cbn [hn_commitment] in E;
  set (P := fun m : StatelessNode =>
              is_Some (map_get (children m) nChild) /\ unresolved m = unresolved n);
  (assert (HP1 : P n1) by (split; [rewrite Hc1; eauto|exact Hu1]));
  (assert (Hgoal : P n' ->
             is_Some (map_get (children n') nChild) /\ unresolved_get n' nChild = Some u)
     by (intros [? Hun]; split; [assumption|];
         unfold unresolved_get in *; rewrite Hun; exact Hu));
  apply Hgoal; clear Hgoal;
  (assert (Hres : match resolved with
                  | inl (_, m) => P m
                  | inr m => P m
                  end)
     by (destruct (resolver (Some u)) as [ser [err|]];
         [apply ret_Ok in E as [-> ->]; exact HP1|];
         apply bind_Ok in E as ([node [perr|]] & h3 & _ & E);
         [apply ret_Ok in E as [-> ->]; exact HP1|];
         apply bind_Ok in E as (n2 & h4 & E2 & E); apply ret_Ok in E as [-> ->];
         pose proof (child_set_Ok _ _ _ _ _ _ E2) as (-> & Hu2 & Hc2);
         split; [rewrite Hc2; eauto|rewrite Hu2; exact Hu1]));
  (destruct resolved as [[err m]|m];
   [apply ret_Ok in Hrun as [[= -> ->] ->]; exact Hres|]);
  apply bind_Ok in Hrun as (n3 & h3 & Ecow & Hrun);
  pose proof (cowChild_frame _ _ _ _ _ Ecow) as [Hu3 Hc3];
  (assert (HP3 : P n3) by (destruct Hres; split; [apply Hc3; assumption|congruence]));
  (assert (Hstep : forall x c hk x' hk',
             P x -> child_set x nChild c hk = Ok (x', hk') -> P x')
     by (intros x c hk x' hk' [_ Hum] Hset;
         apply child_set_Ok in Hset as (_ & Hum' & Hcm');
         split; [rewrite Hcm'; eauto|congruence]));
  destruct (child_get n3 nChild) as [[| |ci|cl|cs]|];
  try (apply ret_Ok in Hrun as [[= -> ->] ->]; exact HP3);
  try discriminate Hrun;
  try destruct (equalPaths (LeafNode_stem cl) stem);
  repeat match goal with
    | Hr : bind _ _ _ = Ok _ |- _ => apply bind_Ok in Hr as (? & ? & ? & Hr)
    end;
  try discriminate Hrun;
  apply ret_Ok in Hrun as [[= -> ->] ->];
  repeat match goal with
    | Hs : child_set ?x _ _ _ = Ok (?x', _), HP : _ ?x |- _ =>
      pose proof (Hstep _ _ _ _ _ HP Hs); clear Hs
    | Hs : child_set (with_count ?x ?c) _ _ _ = Ok (?x', _), HP : _ ?x |- _ =>
      pose proof (Hstep (with_count x c) _ _ _ _ HP Hs); clear Hs
    end;
  assumption.
Qed.

(** C6, at a failing input.  [InsertAtStem] reaches a slot that is only in
    [unresolved]: it installs the placeholder [HashedNode] in [children] and
    never removes the entry from [unresolved], so that both are populated
    when the call returns (here with the error of the resolver). *)
Theorem InsertAtStem_keeps_unresolved_entry (fuel : nat) (err : error) (h : heap) :
  exists n',
    InsertAtStem fuel root_unresolved zero_stem no_values (failing_resolver err) h
    = Ok ((Some (fmtErrorf "stem insertion failed (node resolution error) %x %w"
                   [zero_stem] err), n'), h) /\
    child_get n' 0 = Some (NHashed (mkHashedNode (Some unresolved_commitment) None)) /\
    unresolved_get n' 0 = Some unresolved_commitment.
Proof.
  eexists. split; [destruct fuel; vm_compute; reflexivity|].
  split; reflexivity.
Qed.

(** [Delete] is [Insert] of 32 zero bytes, on every tree. *)
Lemma Delete_is_Insert_zero (fuel : nat) (n : StatelessNode) (key : list Z)
    (resolver : NodeResolverFn) :
  Delete fuel n key resolver = Insert fuel n key zero32 resolver.
Proof. reflexivity. Qed.

(** C7, at a failing input.  The child 0 of the root is a leaf in stateless
    (leaf) mode for the stem 0...0, with a value at suffix 5.  The key
    [key_other_5] has another stem and was never written: it reads as absent.
    [Delete(key_other_5)] descends into that leaf without comparing the
    stems and writes the 32 zero bytes into its slot 5.  Afterwards the
    deleted key still reads as absent, exactly as a key never written, and
    the key [key_zero_5], never deleted, reads 32 zero bytes in place of its
    value. *)
Theorem Delete_under_another_stem_reads_absent
    (fuel : nat) (p0 p1 p2 p3 : Point) (resolver : NodeResolverFn) :
  let h := [p0; p1; p2; p3] in
  (exists n0, Get (S fuel) (root_over_leaf p0) key_other_5 resolver h
              = Ok (((None, None), n0), h)) /\
  (exists n0, Get (S fuel) (root_over_leaf p0) key_zero_5 resolver h
              = Ok (((value_a, None), n0), h)) /\
  exists n' h',
    Delete (S fuel) (root_over_leaf p0) key_other_5 resolver h = Ok ((None, n'), h') /\
    (exists n'', Get (S fuel) n' key_other_5 resolver h' = Ok (((None, None), n''), h')) /\
    (exists n'', Get (S fuel) n' key_zero_5 resolver h' = Ok (((zero32, None), n''), h')).
Proof.
  intros h. subst h.
  split; [eexists; destruct fuel; vm_compute; reflexivity|].
  split; [eexists; destruct fuel; vm_compute; reflexivity|].
  eexists. eexists.
  split; [destruct fuel; vm_compute; reflexivity|].
  split; eexists; destruct fuel; vm_compute; reflexivity.
Qed.

(** C8, as the code has it.  [insertValue] returns [errInsertIntoOtherStem],
    and changes nothing, when the node it is called on is itself a leaf (it
    has no children) whose stem differs from [key[:31]].  When the node has
    children and the child selected by the key is absent (nil), an empty
    value is skipped without error and a non-empty value makes the call
    panic. *)
Theorem insertValue_at_the_receiver
    (fuel : nat) (n : StatelessNode) (key : list Z) (value : slice) (h : heap) :
  (map_len (children n) = 0 ->
   (31 <= length key)%nat ->
   take 31 key <> slice_bytes (stem n) ->
   insertValue fuel n key value h = Ok ((Some errInsertIntoOtherStem, n), h))
  /\
  (forall nChild,
     map_len (children n) <> 0 ->
     offset2key key (depth n) = Ok nChild ->
     child_get n nChild = None ->
     (slice_len value = 0 -> insertValue fuel n key value h = Ok ((None, n), h)) /\
     (slice_len value <> 0 ->
      insertValue fuel n key value h = Panic "inserting non-nil value into nil node")).
Proof.
  split.
  - intros Hc Hlen Hstem.
    assert (Hs : Tree.slice_to key 31 = Ok (take 31 key)).
    { unfold Tree.slice_to.
      replace (Z.of_nat (length key) <? Z.of_nat 31) with false
        by (symmetry; apply Z.ltb_ge; lia).
      reflexivity. }
    destruct fuel; cbn [insertValue]; rewrite Hc; cbn;
      unfold bind, lift; rewrite Hs; unfold bytes_Equal;
      rewrite bool_decide_false by exact Hstem; reflexivity.
  - intros nChild Hc Hk Hnil. apply Z.eqb_neq in Hc.
    split; intros Hv.
    + destruct fuel; cbn [insertValue]; rewrite Hc; unfold bind, lift;
        rewrite Hk, Hnil, Hv; reflexivity.
    + apply Z.eqb_neq in Hv.
      destruct fuel; cbn [insertValue]; rewrite Hc; unfold bind, lift;
        rewrite Hk, Hnil, Hv; reflexivity.
Qed.

(** C9.  On an internal node, the first [cowChild(i)] of a batch (no entry
    [cow[i]] yet) allocates a new point [q], which no pointer of the heap
    before the call can be, records it as [cow[i]] and copies into it the
    value [v] that the commitment of child [i] has at that moment; a later
    write through any other pointer leaves the value at [q] as it is.  Once
    [cow[i]] is set, [cowChild(i)] changes neither the node nor the heap:
    the first snapshot stays. *)
Theorem cowChild_snapshot_first_touch_wins
    (n : StatelessNode) (i : Z) (cs : gmap Z (option VerkleNode)) :
  children n = Some cs ->
  (forall h c p c' h1 v,
      map_get (cow n) i = None ->
      child_get n i = Some c ->
      Commitment_of c (h ++ [Point_zero_value]) = Ok ((p, c'), h1) ->
      (length h < length h1)%nat ->
      load p h1 = Ok (v, h1) ->
      let q := length h in
      let h' := <[q := v]> h1 in
      cowChild n i h
      = Ok (with_children (with_cow n (Some (<[i := q]> (default ∅ (cow n)))))
              (Some (<[i := Some c']> cs)), h') /\
      h !! q = None /\
      h' !! q = Some v /\
      (forall p' w, p' <> q -> (<[p' := w]> h') !! q = Some v))
  /\
  (forall h q, map_get (cow n) i = Some q -> cowChild n i h = Ok (n, h)).
Proof.
  intros Hcs. split.
  - intros h c p c' h1 v Hcow Hchild Hcomm Hlen Hload q h'.
    assert (Hq : h' !! q = Some v).
    { subst h' q. apply list_lookup_insert_eq. exact Hlen. }
    split; [|split; [apply lookup_ge_None_2; subst q; lia|split; [exact Hq|]]].
    2: { intros p' w Hne. rewrite list_lookup_insert_ne by exact Hne. exact Hq. }
    destruct n as [ch un va st de co ha cw cm k1 k2].
    cbn in Hcs, Hcow, Hchild |- *. subst ch.
    unfold cowChild. cbn [children cow].
    assert (Hnone : default ∅ cw !! i = None).
    { destruct cw as [m|]; [exact Hcow|apply lookup_empty]. }
    replace (match cw with Some cw0 => cw0 | None => ∅ end) with (default ∅ cw)
      by (destruct cw; reflexivity).
    rewrite Hnone.
    unfold bind at 1. unfold new_Point at 1.
    unfold child_get, with_cow. cbn [children unresolved values stem depth count
                                      hash cow commitment c1 c2 map_get mbind option_bind].
    unfold child_get in Hchild. cbn in Hchild. rewrite Hchild.
    unfold bind at 1. rewrite Hcomm.
    unfold child_set, with_children, lift, bind, map_set, ret, CopyPoint, bind.
    cbn [children unresolved values stem depth count hash cow commitment c1 c2 fst snd].
    rewrite Hload. unfold store.
    rewrite bool_decide_true by exact Hlen. reflexivity.
  - intros h q Hcow.
    destruct n as [ch un va st de co ha cw cm k1 k2].
    cbn in Hcs, Hcow |- *. subst ch.
    destruct cw as [m|]; [|discriminate Hcow]. cbn in Hcow.
    unfold cowChild. cbn [children cow]. rewrite Hcow. reflexivity.
Qed.

End Facts.
End StatelessFacts.

(** * The root of a fresh tree *)

Module FreshRoot.

Section Facts.
Context `{config : Tree.Config}.
Context `{curve : Stateless.Curve} `{nodes : Stateless.StatefulNodes}.

(** C2.  The commitment computed for the root that [New] returns is
    [ZERO_G1], the neutral element; the root that [NewStateless] returns
    points to a commitment that is the identity. *)
Theorem fresh_root_commits_to_identity (w : Z) (h : Stateless.heap) :
  0 <= Tree.nodeWidth (Tree.GetTreeConfig w) ->
  Tree.EqualZero Tree.Fr_zero_value = true ->
  (exists root root',
     Tree.New w = Ok root /\
     Tree.ComputeCommitment root = Ok (Tree.ZERO_G1, root'))
  /\
  (exists n l h',
     Stateless.NewStateless h = Ok (n, h') /\
     Stateless.Commitment n = Some l /\
     h' !! l = Some Stateless.Identity).
Proof.
  intros Hnw Hz. split.
  - eexists. eexists. split.
    + unfold Tree.New, Tree.newInternalNode.
      replace (Tree.nodeWidth (Tree.GetTreeConfig w) <? 0) with false
        by (symmetry; apply Z.ltb_ge; lia).
      reflexivity.
    + apply TreeFacts.ComputeCommitment_no_children; assumption.
  - eexists. exists (length h). eexists. split; [reflexivity|].
    split; [reflexivity|].
    rewrite lookup_app_r by reflexivity.
    rewrite Nat.sub_diag. reflexivity.
Qed.

End Facts.
End FreshRoot.

(** * Runs on concrete inputs *)

Module Runs.
Import Scenarios Model.

#[local] Existing Instance Model.bls.
#[local] Existing Instance Model.config.
#[local] Existing Instance Model.curve.
#[local] Existing Instance Model.nodes.
#[local] Existing Instance Model.package.

Lemma insert_two_keys_run :
  exists root t1 t2 a b c d1 d2,
    Tree.New 8 = Ok root /\
    Tree.Insert 3 root key_1234 (Some [7]) = Ok (t1, None) /\
    Tree.Insert 3 t1 key_1235 (Some [9]) = Ok (t2, None) /\
    Tree.Get t2 key_1234 = Ok (Some [7], None) /\
    Tree.Get t2 key_1235 = Ok (Some [9], None) /\
    take 4 key_1234 = [a; b; c; d1] /\
    take 4 key_1235 = [a; b; c; d2] /\
    t2 = Tree.single (Tree.GetTreeConfig 8) 0 a
           (Tree.single (Tree.GetTreeConfig 8) 8 b
              (Tree.single (Tree.GetTreeConfig 8) 16 c
                 (Tree.fork (Tree.GetTreeConfig 8) 24
                    d1 (Tree.leafNode key_1234 (Some [7]))
                    d2 (Tree.leafNode key_1235 (Some [9]))))).
Proof.
  apply (TreeFacts.insert_two_keys_diverging_at_byte_3 8 key_1234 key_1235
           (Some [7]) (Some [9]) 3).
  - reflexivity.
  - reflexivity.
  - reflexivity.
  - reflexivity.
  - unfold key_1234, Tree.is_byte. repeat constructor; lia.
  - unfold key_1235, Tree.is_byte. repeat constructor; lia.
  - reflexivity.
  - discriminate.
  - lia.
Defined.

(** The fresh root has an Empty child in slot 0, and reading a key that
    selects it returns an error, not the absent value without error. *)
Lemma Get_of_empty_child_is_an_error :
  Tree.child_at (replicate 256 Tree.empty) 0 = Ok Tree.empty /\
  Tree.Get fresh_root (replicate 32 0)
  = Ok (None, Some (Tree.errorsNew "trying to read from an invalid child")) /\
  Tree.Get fresh_root (replicate 32 0) <> Ok (None, None).
Proof.
  split; [reflexivity|]. split; [reflexivity|]. discriminate.
Qed.

Lemma Get_fails_on_empty_child_run :
  Tree.Get fresh_root (replicate 32 0)
  = Ok (None, Some (Tree.errorsNew "trying to read from an invalid child")).
Proof.
  apply (TreeFacts.Get_fails_on_empty_or_hashed_child
           (replicate 256 Tree.empty) 0 Tree.zeroHash None (Tree.GetTreeConfig 8)
           (replicate 32 0) 0 Tree.empty).
  - reflexivity.
  - reflexivity.
  - left. reflexivity.
Defined.

Lemma fresh_root_run :
  (exists root root',
     Tree.New 8 = Ok root /\
     Tree.ComputeCommitment root = Ok (Tree.ZERO_G1, root'))
  /\
  (exists n l h',
     Stateless.NewStateless heap4 = Ok (n, h') /\
     Stateless.Commitment n = Some l /\
     h' !! l = Some Stateless.Identity).
Proof.
  apply (FreshRoot.fresh_root_commits_to_identity 8 heap4).
  - cbn. lia.
  - reflexivity.
Defined.

(** The leaf below the root has the stem 0...0 and the key another stem:
    called on the leaf, [insertValue] returns [errInsertIntoOtherStem];
    called on the root, it returns no error.  A non-empty value for a key
    whose child is absent makes the call panic: no error is returned. *)
Lemma insertValue_error_does_not_reach_the_caller :
  Stateless.insertValue 1 leaf10 key_other_5 value_a heap4
  = Ok ((Some Stateless.errInsertIntoOtherStem, leaf10), heap4) /\
  Stateless.insertValue 1 root10 key_other_5 value_a heap4
  = Ok ((None, root10), heap4) /\
  Stateless.child_get root10 1 = None /\
  Stateless.insertValue 1 root10 key_absent value_a heap4
  = Panic "inserting non-nil value into nil node".
Proof.
  split; [vm_compute; reflexivity|].
  split; [vm_compute; reflexivity|].
  split; [reflexivity|].
  vm_compute; reflexivity.
Qed.

Lemma insertValue_at_the_receiver_run :
  Stateless.insertValue 1 leaf10 key_other_5 value_a heap4
  = Ok ((Some Stateless.errInsertIntoOtherStem, leaf10), heap4) /\
  Stateless.insertValue 1 root10 key_absent None heap4
  = Ok ((None, root10), heap4) /\
  Stateless.insertValue 1 root10 key_absent value_a heap4
  = Panic "inserting non-nil value into nil node".
Proof.
  split.
  - apply (StatelessFacts.insertValue_at_the_receiver 1 leaf10 key_other_5
             value_a heap4).
    + reflexivity.
    + cbn. lia.
    + discriminate.
  - destruct (StatelessFacts.insertValue_at_the_receiver 1 root10 key_absent
                None heap4) as [_ Hnone].
    destruct (StatelessFacts.insertValue_at_the_receiver 1 root10 key_absent
                value_a heap4) as [_ Hsome].
    split.
    + apply (Hnone 1); [discriminate|reflexivity|reflexivity|reflexivity].
    + apply (Hsome 1); [discriminate|reflexivity|reflexivity|discriminate].
Defined.

(** The first touch of child 0 copies its commitment (the point 10 at
    location 0) to the new location 4; a second touch changes nothing. *)
Lemma cowChild_run :
  Stateless.cowChild root10 0 heap4
  = Ok (root_touched, [10; 20; 30; 0; 10]) /\
  Stateless.cowChild root_touched 0 [10; 20; 30; 0; 10]
  = Ok (root_touched, [10; 20; 30; 0; 10]).
Proof.
  split.
  - destruct (StatelessFacts.cowChild_snapshot_first_touch_wins root10 0
                {[0 := Some (Stateless.NStateless leaf10)]} eq_refl) as [Hfirst _].
    destruct (Hfirst heap4 (Stateless.NStateless leaf10) (Some 0%nat)
                (Stateless.NStateless leaf10) [10; 20; 30; 0; 0] 10
                eq_refl eq_refl eq_refl) as [Hrun _].
    + cbn. lia.
    + reflexivity.
    + rewrite Hrun. vm_compute. reflexivity.
  - destruct (StatelessFacts.cowChild_snapshot_first_touch_wins root_touched 0
                {[0 := Some (Stateless.NStateless leaf10)]} eq_refl) as [_ Hlater].
    apply (Hlater _ 4%nat). reflexivity.
Defined.

Lemma Commit_in_leaf_mode_run :
  Stateless.Commit id 1 leaf10 heap4
  = Ok ((Stateless.commitment leaf10, leaf10), heap4).
Proof.
  apply (StatelessFacts.Commit_in_leaf_mode_returns_stored_commitment id 1
           leaf10 heap4).
  discriminate.
Defined.

(** Proof reconstruction builds [root10]: [NewStateless] on the heap that
    holds the three commitments of the proof, then [insertStem] of the stem
    0...0 at the path [0]. *)
Lemma root10_is_built_by_insertStem :
  exists root0,
    Stateless.NewStateless [10; 20; 30] = Ok (root0, heap4) /\
    Stateless.insertStem 0 root0 [0] stem_zero_info [Some 0; Some 1; Some 2]%nat heap4
    = Ok (([], None, root10), heap4).
Proof.
  eexists. split; [reflexivity|]. vm_compute. reflexivity.
Qed.

End Runs.

(** * More properties of tree.go *)

Module TreeMore.
Import Tree TreeFacts.
Local Open Scope res_scope.

Section Facts.
Context `{bls : BLS}.

Lemma rbind_Ok {A B} (r : result A) (k : A -> result B) (b : B) :
  rbind r k = Ok b -> exists a, r = Ok a /\ k a = Ok b.
Proof. destruct r as [a| |]; try discriminate. eauto. Qed.

Lemma hashToFr_zero_modulus (h : list Z) : hashToFr h 0 = Panic "division by zero".
Proof. reflexivity. Qed.

Theorem ComputeCommitment_idempotent (n n' : VerkleNode) (c : G1) :
  ComputeCommitment n = Ok (c, n') -> ComputeCommitment n' = Ok (c, n').
Proof.
  destruct n as [cs d h [c0|] tc|h [c0|]|k v ver bal nonce csize chash cm tc|k v| |];
    cbn [ComputeCommitment]; intros Hrun; try discriminate Hrun.
  - injection Hrun as <- <-. reflexivity.
  - revert Hrun. destruct (nodeWidth tc <? 0); intros Hrun; [discriminate Hrun|].
    apply rbind_Ok in Hrun as ([[cs' poly] e] & _ & Hrun).
    cbv beta iota in Hrun.
    apply rbind_Ok in Hrun as (commP & _ & Hrun).
    injection Hrun as <- <-. reflexivity.
  - injection Hrun as <- <-. reflexivity.
  - apply rbind_Ok in Hrun as (c1 & Hc & Hrun). injection Hrun as <- <-.
    cbn [ComputeCommitment]. rewrite Hc. reflexivity.
  - injection Hrun as <- <-. reflexivity.
Qed.

(** little-endian round trip *)
Lemma le_to_Z_Z_to_le (n : nat) (x : Z) :
  le_to_Z (Z_to_le n x) = x mod 256 ^ Z.of_nat n.
Proof.
  revert x. induction n as [|n IH]; intros x.
  - cbn. rewrite Z.mod_1_r. reflexivity.
  - cbn [Z_to_le le_to_Z]. rewrite IH.
    rewrite Nat2Z.inj_succ, Z.pow_succ_r by lia.
    rewrite (Z.rem_mul_r x 256 (256 ^ Z.of_nat n)) by lia. reflexivity.
Qed.

Lemma length_Z_to_le (n : nat) (x : Z) : length (Z_to_le n x) = n.
Proof. revert x. induction n as [|n IH]; intros x; cbn; [reflexivity|]. rewrite IH. reflexivity. Qed.

Lemma Z_to_le_bytes (n : nat) (x : Z) : Forall is_byte (Z_to_le n x).
Proof.
  revert x. induction n as [|n IH]; intros x; cbn; constructor.
  - unfold is_byte. apply Z.mod_pos_bound. lia.
  - apply IH.
Qed.

Lemma Z_to_le_le_to_Z (bs : list Z) :
  Forall is_byte bs -> Z_to_le (length bs) (le_to_Z bs) = bs.
Proof.
  induction 1 as [|b bs Hb _ IH]; [reflexivity|].
  cbn [length Z_to_le le_to_Z]. unfold is_byte in Hb. f_equal.
  - replace (b + 256 * le_to_Z bs) with (b + le_to_Z bs * 256) by lia.
    rewrite Z.mod_add by lia. apply Z.mod_small. lia.
  - replace (b + 256 * le_to_Z bs) with (b + le_to_Z bs * 256) by lia.
    rewrite Z.div_add by lia. rewrite Z.div_small by lia. exact IH.
Qed.

(** hashToFr *)
Theorem hashToFr_reduces (h : list Z) (m : Z) :
  m <> 0 -> Z.abs m <= 2 ^ 256 ->
  exists bs,
    length bs = 32%nat /\ Forall is_byte bs /\
    le_to_Z bs = le_to_Z h mod Z.abs m /\
    0 <= le_to_Z bs < Z.abs m /\
    hashToFr h m = match FrFrom32 bs with
                   | Some out => Ok out
                   | None => Panic "invalid Fr number"
                   end.
Proof.
  intros Hm Hb. exists (Z_to_le 32 (le_to_Z h mod Z.abs m)).
  assert (Hr : 0 <= le_to_Z h mod Z.abs m < Z.abs m) by (apply Z.mod_pos_bound; lia).
  assert (Hle : le_to_Z (Z_to_le 32 (le_to_Z h mod Z.abs m)) = le_to_Z h mod Z.abs m).
  { rewrite le_to_Z_Z_to_le. apply Z.mod_small.
    change (256 ^ Z.of_nat 32) with (2 ^ 256). lia. }
  split; [apply length_Z_to_le|]. split; [apply Z_to_le_bytes|].
  split; [exact Hle|]. split; [rewrite Hle; exact Hr|].
  unfold hashToFr. replace (m =? 0) with false by (symmetry; apply Z.eqb_neq; exact Hm).
  unfold be_to_Z. rewrite reverse_involutive. reflexivity.
Qed.

Lemma be_to_Z_bound (b : list Z) :
  Forall is_byte b -> 0 <= le_to_Z b < 256 ^ Z.of_nat (length b).
Proof.
  induction 1 as [|x b Hx _ IH]; [cbn; lia|].
  cbn [le_to_Z length]. rewrite Nat2Z.inj_succ, Z.pow_succ_r by lia.
  unfold is_byte in Hx. nia.
Qed.

(** [PutUint64] after [Uint64]: the eight bytes come back. *)
Lemma PutUint64_Uint64 (b : list Z) :
  length b = 8%nat -> Forall is_byte b -> PutUint64 (be_to_Z b) = b.
Proof.
  intros Hl Hb. unfold PutUint64, be_to_Z, uint64.
  assert (Hrb : Forall is_byte (reverse b)) by (apply Forall_reverse; exact Hb).
  pose proof (be_to_Z_bound _ Hrb) as Hbound. rewrite length_reverse, Hl in Hbound.
  rewrite Z.mod_small by (change (256 ^ Z.of_nat 8) with (2 ^ 64) in Hbound; lia).
  replace 8%nat with (length (reverse b)) by (rewrite length_reverse; exact Hl).
  rewrite Z_to_le_le_to_Z by exact Hrb. apply reverse_involutive.
Qed.

(** [big.Int.Bytes] yields the big-endian bytes of the absolute value. *)
Lemma be_to_Z_bigInt_Bytes (x : Z) : be_to_Z (bigInt_Bytes x) = Z.abs x.
Proof.
  unfold bigInt_Bytes, be_to_Z. destruct (Z.eqb_spec (Z.abs x) 0) as [H0|Hne].
  - rewrite H0. reflexivity.
  - rewrite reverse_involutive, le_to_Z_Z_to_le.
    assert (Hpos : 0 < Z.abs x) by lia.
    apply Z.mod_small. split; [lia|].
    pose proof (Z.log2_spec _ Hpos) as [_ Hlt].
    pose proof (Z.log2_nonneg (Z.abs x)) as Hlog.
    pose proof (Z.div_mod (Z.log2 (Z.abs x)) 8 ltac:(lia)) as Hdm.
    pose proof (Z.mod_pos_bound (Z.log2 (Z.abs x)) 8 ltac:(lia)) as Hmb.
    assert (Hn : 0 <= Z.log2 (Z.abs x) / 8 + 1) by lia.
    rewrite Z2Nat.id by exact Hn.
    change 256 with (2 ^ 8). rewrite <- Z.pow_mul_r by lia.
    eapply Z.lt_le_trans; [exact Hlt|]. apply Z.pow_le_mono_r; lia.
Qed.

(** An account created in an empty slot can be read back: [Get] of the key of
    the account returns the field that the last byte of the key selects. *)
Theorem CreateAccount_then_Get fuel cs d h c tc (key : list Z) (i sel : Z)
    (version nonce codeSize : Z) (balance : option Z) (codeHash : list Z) :
  offset2Key key d (width tc) = Ok i ->
  child_at cs i = Ok empty ->
  index key 31 = Ok sel ->
  exists cs',
    CreateAccount (S fuel) (InternalNode cs d h c tc) key version nonce codeSize
      balance codeHash = Ok (InternalNode cs' d h c tc, None) /\
    let got := Get (InternalNode cs' d h c tc) key in
    (sel = accountLeafVersion -> got = Ok (Some (PutUint64 version), None)) /\
    (sel = accountLeafBalance ->
     forall b, balance = Some b -> got = Ok (Some (bigInt_Bytes b), None)) /\
    (sel = accountLeafNonce -> got = Ok (Some (PutUint64 nonce), None)) /\
    (sel = accountLeafCodeHash -> got = Ok (Some codeHash, None)) /\
    (sel = accountLeafCodeSize -> got = Ok (Some (PutUint64 codeSize), None)) /\
    (~ 0 <= sel <= 4 -> got = Ok (None, Some errValueNotPresent)).
Proof.
  intros Hk Hc Hsel.
  apply child_at_inv in Hc as Hc'. destruct Hc' as [Hi Hl].
  pose proof (lookup_lt_Some _ _ _ Hl) as Hlt.
  exists (<[Z.to_nat i := accountLeaf key None version balance nonce codeSize codeHash
                              None None]> cs).
  split.
  - cbn [CreateAccount]. rewrite Hk. cbn [rbind]. rewrite Hc. cbn [rbind].
    rewrite set_child_in_range by lia. reflexivity.
  - cbv zeta.
    erewrite Get_InternalNode;
      [|exact Hk|apply child_at_lookup; [lia|apply list_lookup_insert_eq; lia]].
    cbn [Get]. unfold bytes_Equal. rewrite bool_decide_true by reflexivity.
    cbn [negb rbind]. rewrite Hsel. cbn [rbind].
    unfold accountLeafVersion, accountLeafBalance, accountLeafNonce,
      accountLeafCodeHash, accountLeafCodeSize.
    repeat split.
    + intros ->. reflexivity.
    + intros -> b ->. reflexivity.
    + intros ->. reflexivity.
    + intros ->. reflexivity.
    + intros ->. reflexivity.
    + intros Hout.
      destruct (Z.eqb_spec sel 0); [lia|]. destruct (Z.eqb_spec sel 1); [lia|].
      destruct (Z.eqb_spec sel 2); [lia|]. destruct (Z.eqb_spec sel 3); [lia|].
      destruct (Z.eqb_spec sel 4); [lia|]. reflexivity.
Qed.

(** Writing the nonce of an account and reading it back returns the eight
    bytes written; writing the balance and reading it back returns bytes
    that denote the same number. *)
Theorem accountLeaf_Insert_then_Get fuel (key : list Z) oldv ver b0 nonce csz chash cm tc
    (value : list Z) :
  length key = 32%nat ->
  Forall is_byte value ->
  (key !! 31%nat = Some accountLeafNonce -> length value = 8%nat ->
   exists a',
     Insert (S fuel) (accountLeaf key oldv ver (Some b0) nonce csz chash cm tc) key
       (Some value) = Ok (a', None) /\
     Get a' key = Ok (Some value, None))
  /\
  (key !! 31%nat = Some accountLeafBalance ->
   exists a' bs,
     Insert (S fuel) (accountLeaf key oldv ver (Some b0) nonce csz chash cm tc) key
       (Some value) = Ok (a', None) /\
     Get a' key = Ok (Some bs, None) /\
     be_to_Z bs = be_to_Z value).
Proof.
  intros Hlk Hbv.
  assert (Hs : slice_to key 31 = Ok (take 31 key)).
  { unfold slice_to. rewrite Hlk. reflexivity. }
  split.
  - intros Hsel Hlv. eexists. split.
    + cbn [Insert]. rewrite Hs. cbn [rbind]. unfold bytes_Equal.
      rewrite bool_decide_true by reflexivity. cbn [negb].
      rewrite (index_lookup key 31 _ ltac:(lia) Hsel). cbn [rbind].
      unfold accountLeafNonce, accountLeafBalance. cbn [Z.eqb].
      unfold BigEndian_Uint64, slice_bytes. cbn [default from_option id Pos.eqb]. rewrite Hlv. cbn [rbind Z.of_nat Pos.of_succ_nat Pos.succ Z.ltb Z.compare Pos.compare Pos.compare_cont].
      reflexivity.
    + cbn [Get]. unfold bytes_Equal. rewrite bool_decide_true by reflexivity.
      cbn [negb]. rewrite (index_lookup key 31 _ ltac:(lia) Hsel). cbn [rbind].
      unfold accountLeafNonce, accountLeafVersion, accountLeafBalance. cbn [Z.eqb].
      rewrite take_ge by lia. rewrite PutUint64_Uint64 by assumption. reflexivity.
  - intros Hsel. eexists. exists (bigInt_Bytes (be_to_Z value)). split; [|split].
    + cbn [Insert]. rewrite Hs. cbn [rbind]. unfold bytes_Equal.
      rewrite bool_decide_true by reflexivity. cbn [negb].
      rewrite (index_lookup key 31 _ ltac:(lia) Hsel). cbn [rbind].
      unfold accountLeafBalance. cbn [Z.eqb]. reflexivity.
    + cbn [Get]. unfold bytes_Equal. rewrite bool_decide_true by reflexivity.
      cbn [negb]. rewrite (index_lookup key 31 _ ltac:(lia) Hsel). cbn [rbind].
      unfold accountLeafVersion, accountLeafBalance. cbn [Z.eqb]. reflexivity.
    + rewrite be_to_Z_bigInt_Bytes. apply Z.abs_eq.
      unfold be_to_Z. apply be_to_Z_bound. apply Forall_reverse. exact Hbv.
Qed.

(** Creating an account in a slot that already holds one (placed, as
    [CreateAccount] places it, in the slot of its key byte) fails, and leaves
    an account without key in the slot: the account that was there cannot be
    read any more. *)
Theorem CreateAccount_over_an_account fuel cs d h c tc (key ckey : list Z) (i : Z)
    cval cver cbal cnonce ccsz cchash ccm ctc
    (version nonce codeSize : Z) (balance : option Z) (codeHash : list Z) :
  width tc = 8 -> 0 <= d -> Z.rem d 8 = 0 ->
  i < nodeWidth tc ->
  offset2Key key d (width tc) = Ok i ->
  offset2Key ckey d (width tc) = Ok i ->
  ckey <> [] ->
  child_at cs i = Ok (accountLeaf ckey cval cver cbal cnonce ccsz cchash ccm ctc) ->
  let n' := InternalNode (<[Z.to_nat i := accountLeaf_zero_value]> cs) d h c tc in
  CreateAccount (S (S fuel)) (InternalNode cs d h c tc) key version nonce codeSize
    balance codeHash
  = Ok (n', Some (errorsNew "creating over an already exisiting account")) /\
  Get n' ckey = Ok (None, Some errValueNotPresent).
Proof.
  intros Hw Hd Hrem Hi Hk Hck Hne Hc n'.
  apply child_at_inv in Hc as Hc'. destruct Hc' as [Hi0 Hl].
  pose proof (lookup_lt_Some _ _ _ Hl) as Hlt.
  assert (Hq : Z.quot (d + 1) 8 = Z.quot d 8).
  { rewrite !Z.quot_div_nonneg by lia.
    pose proof (Z.rem_mod_nonneg d 8 ltac:(lia) ltac:(lia)) as Hrm. rewrite Hrem in Hrm.
    pose proof (Z.div_mod d 8 ltac:(lia)) as Hdm.
    symmetry. apply (Z.div_unique (d + 1) 8 (d / 8) 1); lia. }
  assert (Hoff : forall k, offset2Key k (d + 1) (width tc) = offset2Key k d (width tc)).
  { intros k. unfold offset2Key. rewrite Hw. cbn. rewrite Hq. reflexivity. }
  split.
  - subst n'. cbn [CreateAccount]. rewrite Hk. cbn [rbind]. rewrite Hc. cbn [rbind].
    unfold newInternalNode.
    replace (nodeWidth tc <? 0) with false by (symmetry; apply Z.ltb_ge; lia).
    cbn [rbind]. rewrite !Hoff, Hck, Hk. cbn [rbind].
    rewrite set_child_in_range by (rewrite length_replicate; lia). cbn [rbind].
    rewrite Z.eqb_refl. cbn [negb].
    rewrite set_child_in_range by lia. cbn [rbind].
    unfold accountLeaf_zero_value. cbn [CreateAccount fst snd rbind].
    rewrite set_child_in_range by (rewrite length_insert; lia). cbn [rbind].
    rewrite list_insert_insert_eq. reflexivity.
  - subst n'. unfold accountLeaf_zero_value. erewrite Get_InternalNode;
      [|exact Hck|apply child_at_lookup; [lia|apply list_lookup_insert_eq; lia]].
    cbn. unfold bytes_Equal. rewrite bool_decide_false by exact Hne. reflexivity.
Qed.

Lemma index_Ok_inv (s : list Z) (i b : Z) :
  index s i = Ok b -> 0 <= i /\ s !! Z.to_nat i = Some b.
Proof.
  unfold index. destruct (Z.ltb_spec i 0); [discriminate|].
  destruct (Z.of_nat (length s) <=? i); [discriminate|]. cbn [orb].
  destruct (s !! Z.to_nat i) eqn:E; [|discriminate]. intros Heq. injection Heq as ->. auto.
Qed.

(** [setBit] sets bit [idx] and no other. *)
Lemma setBit_sets_one_bit (bitlist : list Z) (idx : Z) :
  Forall is_byte bitlist ->
  0 <= idx < 8 * Z.of_nat (length bitlist) ->
  exists bitlist',
    setBit bitlist idx = Ok bitlist' /\
    length bitlist' = length bitlist /\
    Forall is_byte bitlist' /\
    forall j, 0 <= j -> bit_at bitlist' j = (j =? idx) || bit_at bitlist j.
Proof.
  intros Hb Hidx.
  assert (Hq : Z.quot idx 8 = idx / 8) by (apply Z.quot_div_nonneg; lia).
  assert (Hr : Z.rem idx 8 = idx mod 8) by (apply Z.rem_mod_nonneg; lia).
  pose proof (Z.mod_pos_bound idx 8 ltac:(lia)) as Hm.
  pose proof (Z.div_mod idx 8 ltac:(lia)) as Hdm.
  assert (Hlt : (Z.to_nat (idx / 8) < length bitlist)%nat) by lia.
  destruct (lookup_lt_is_Some_2 _ _ Hlt) as [old Hold].
  assert (Hob : is_byte old) by (eapply Forall_lookup_1; eauto).
  assert (Hone : uint8 (Z.shiftl 1 (idx mod 8)) = 2 ^ (idx mod 8)).
  { unfold uint8. rewrite Z.shiftl_1_l. apply Z.mod_small. split; [lia|].
    apply Z.pow_lt_mono_r; lia. }
  assert (Hnb : is_byte (Z.lor old (2 ^ (idx mod 8)))).
  { unfold is_byte in *. split; [apply Z.lor_nonneg; lia|].
    change 256 with (2 ^ 8).
    destruct (Z.eq_dec (Z.lor old (2 ^ (idx mod 8))) 0) as [->|Hne]; [lia|].
    apply Z.log2_lt_pow2; [pose proof (Z.lor_nonneg old (2 ^ (idx mod 8))); lia|].
    rewrite Z.log2_lor by lia.
    apply Z.max_lub_lt.
    - destruct (Z.eq_dec old 0) as [->|]; [cbn; lia|]. apply Z.log2_lt_pow2; lia.
    - rewrite Z.log2_pow2; lia. }
  exists (<[Z.to_nat (idx / 8) := Z.lor old (2 ^ (idx mod 8))]> bitlist).
  split; [|split; [|split]].
  - unfold setBit. rewrite Hq, Hr.
    rewrite (index_lookup bitlist (idx / 8) old) by (try lia; exact Hold).
    cbn [rbind]. unfold shl8.
    replace (idx mod 8 <? 0) with false by (symmetry; apply Z.ltb_ge; lia).
    cbn [rbind]. rewrite Hone. reflexivity.
  - apply length_insert.
  - apply Forall_insert; assumption.
  - intros j Hj. unfold bit_at.
    pose proof (Z.mod_pos_bound j 8 ltac:(lia)) as Hjm.
    pose proof (Z.div_mod j 8 ltac:(lia)) as Hjdm.
    destruct (Z.eq_dec (j / 8) (idx / 8)) as [Heq|Hne].
    + rewrite Heq, list_lookup_insert_eq by lia. rewrite Hold. cbn [default from_option id].
      rewrite Z.lor_spec, Z.pow2_bits_eqb by lia.
      rewrite orb_comm. f_equal.
      destruct (Z.eqb_spec (idx mod 8) (j mod 8)), (Z.eqb_spec j idx); try reflexivity; lia.
    + rewrite list_lookup_insert_ne by lia.
      destruct (Z.eqb_spec j idx) as [->|]; [contradiction|]. reflexivity.
Qed.

(** [offset2KeyTenBits] *)
Lemma forallb_seqZ (P : Z -> bool) (m n x : Z) :
  forallb P (seqZ m n) = true -> m <= x < m + n -> P x = true.
Proof.
  intros Hall Hx. rewrite forallb_forall in Hall. apply Hall.
  apply list_elem_of_In. apply elem_of_seqZ. lia.
Qed.

(** The part of the result that the first byte gives, and the part that the
    second byte gives, for every offset within a byte and every byte. *)
Lemma tenBits_parts :
  forallb (fun r => forallb (fun b =>
    (uint64 (Z.shiftl (Z.lxor b (uint8 (Z.shiftl (Z.shiftr b (8 - r)) (8 - r))))
               (uint64 (Z.rem (r + 10) 8 - 1) mod 8 + 1))
     =? (b mod 2 ^ (8 - r)) * 2 ^ (r + 2))
    && (Z.shiftr b (Z.rem (8 - Z.rem (r + 10) 8) 8) =? b / 2 ^ (6 - r)))
    (seqZ 0 256)) (seqZ 0 7) = true.
Proof. vm_compute. reflexivity. Qed.

Lemma lor_disjoint (a lo s : Z) :
  0 <= s -> 0 <= lo < 2 ^ s -> Z.lor (a * 2 ^ s) lo = a * 2 ^ s + lo.
Proof.
  intros Hs Hlo. rewrite <- Z.add_lor_land.
  replace (Z.land (a * 2 ^ s) lo) with 0; [lia|].
  symmetry. apply Z.bits_inj'. intros n Hn. rewrite Z.land_spec, Z.bits_0.
  destruct (Z.lt_ge_cases n s) as [Hlt|Hge].
  - rewrite Z.mul_pow2_bits_low by lia. reflexivity.
  - replace (Z.testbit lo n) with false; [apply andb_false_r|].
    symmetry. destruct (Z.eq_dec lo 0) as [->|Hne]; [apply Z.bits_0|].
    apply Z.bits_above_log2; [lia|].
    assert (Z.log2 lo < s) by (apply Z.log2_lt_pow2; lia). lia.
Qed.

Lemma tenBits_two (r b0 b1 : Z) :
  0 <= r <= 6 -> is_byte b0 -> is_byte b1 ->
  offset2KeyTenBits [b0; b1] r
  = Ok ((b0 mod 2 ^ (8 - r)) * 2 ^ (r + 2) + b1 / 2 ^ (6 - r)).
Proof.
  intros Hr Hb0 Hb1. unfold is_byte in *.
  pose proof tenBits_parts as Hall.
  apply (forallb_seqZ _ _ _ r) in Hall as Hall0; [|lia].
  apply (forallb_seqZ _ _ _ b0) in Hall0; [|lia].
  apply (forallb_seqZ _ _ _ r) in Hall as Hall1; [|lia].
  apply (forallb_seqZ _ _ _ b1) in Hall1; [|lia].
  cbv beta in Hall0, Hall1.
  apply andb_prop in Hall0 as [Hhi _]. apply andb_prop in Hall1 as [_ Hlo].
  apply Z.eqb_eq in Hhi, Hlo.
  unfold offset2KeyTenBits.
  rewrite (Z.quot_small r 8), (Z.rem_small r 8) by lia.
  change (index [b0; b1] 0) with (Ok b0).
  change (index [b0; b1] (0 + 1)) with (Ok b1).
  change (0 + 1 <? Z.of_nat (length [b0; b1])) with true.
  cbn [rbind]. unfold shr8, shl8.
  replace (8 - r <? 0) with false by (symmetry; apply Z.ltb_ge; lia).
  cbn [rbind].
  replace (Z.rem (8 - Z.rem (r + 10) 8) 8 <? 0) with false.
  2:{ symmetry. apply Z.ltb_ge. apply Z.rem_nonneg; [lia|].
      assert (0 <= Z.rem (r + 10) 8 < 8) by (apply Z.rem_bound_pos; lia). lia. }
  cbn [rbind]. rewrite Hhi, Hlo. f_equal.
  apply lor_disjoint; [lia|].
  split; [apply Z.div_pos; [lia|apply Z.pow_pos_nonneg; lia]|].
  apply Z.div_lt_upper_bound; [apply Z.pow_pos_nonneg; lia|].
  rewrite <- Z.pow_add_r by lia. replace (6 - r + (r + 2)) with 8 by lia. lia.
Qed.

Lemma tenBits_one (r b0 : Z) :
  0 <= r <= 6 -> is_byte b0 ->
  offset2KeyTenBits [b0] r = Ok ((b0 mod 2 ^ (8 - r)) * 2 ^ (r + 2)).
Proof.
  intros Hr Hb0. unfold is_byte in *.
  pose proof tenBits_parts as Hall.
  apply (forallb_seqZ _ _ _ r) in Hall; [|lia].
  apply (forallb_seqZ _ _ _ b0) in Hall; [|lia].
  cbv beta in Hall. apply andb_prop in Hall as [Hhi _]. apply Z.eqb_eq in Hhi.
  unfold offset2KeyTenBits.
  rewrite (Z.quot_small r 8), (Z.rem_small r 8) by lia.
  change (index [b0] 0) with (Ok b0).
  change (0 + 1 <? Z.of_nat (length [b0])) with false.
  cbn [rbind]. unfold shr8, shl8.
  replace (8 - r <? 0) with false by (symmetry; apply Z.ltb_ge; lia).
  cbn [rbind]. rewrite Hhi. reflexivity.
Qed.

Lemma offset2KeyTenBits_local (key : list Z) (offset : Z) :
  0 <= offset ->
  offset2KeyTenBits key offset
  = offset2KeyTenBits (take 2 (drop (Z.to_nat (offset / 8)) key)) (offset mod 8).
Proof.
  intros Ho.
  pose proof (Z.mod_pos_bound offset 8 ltac:(lia)) as Hm.
  pose proof (Z.div_mod offset 8 ltac:(lia)) as Hdm.
  set (f := offset / 8) in *. set (r := offset mod 8) in *.
  assert (Hq : Z.quot offset 8 = f) by (apply Z.quot_div_nonneg; lia).
  assert (Hr : Z.rem offset 8 = r) by (apply Z.rem_mod_nonneg; lia).
  assert (Hq' : Z.quot r 8 = 0) by (apply Z.quot_small; lia).
  assert (Hr' : Z.rem r 8 = r) by (apply Z.rem_small; lia).
  assert (Hr10 : Z.rem (offset + 10) 8 = Z.rem (r + 10) 8).
  { rewrite !Z.rem_mod_nonneg by lia. rewrite Hdm.
    replace (8 * f + r + 10) with (r + 10 + f * 8) by lia. apply Z.mod_add. lia. }
  assert (Hf : 0 <= f) by (apply Z.div_pos; lia).
  unfold offset2KeyTenBits. rewrite Hq, Hr, Hq', Hr', Hr10.
  assert (Hi0 : index key f = index (take 2 (drop (Z.to_nat f) key)) 0).
  { unfold index. rewrite length_take, length_drop.
    rewrite lookup_take_lt by lia. rewrite lookup_drop.
    replace (Z.to_nat f + Z.to_nat 0)%nat with (Z.to_nat f) by lia.
    destruct (Z.ltb_spec f 0); [lia|]. cbn [orb Z.ltb Z.compare].
    destruct (Z.leb_spec (Z.of_nat (length key)) f),
      (Z.leb_spec (Z.of_nat (2 `min` (length key - Z.to_nat f))) 0);
      try reflexivity; try lia;
      try (rewrite lookup_ge_None_2 by lia; reflexivity). }
  assert (Hi1 : index key (f + 1) = index (take 2 (drop (Z.to_nat f) key)) 1).
  { unfold index. rewrite length_take, length_drop.
    rewrite lookup_take_lt by lia. rewrite lookup_drop.
    replace (Z.to_nat f + Z.to_nat 1)%nat with (Z.to_nat (f + 1)) by lia.
    destruct (Z.ltb_spec (f + 1) 0); [lia|]. cbn [orb Z.ltb Z.compare].
    destruct (Z.leb_spec (Z.of_nat (length key)) (f + 1)),
      (Z.leb_spec (Z.of_nat (2 `min` (length key - Z.to_nat f))) 1);
      try reflexivity; try lia;
      try (rewrite lookup_ge_None_2 by lia; reflexivity). }
  change (0 + 1) with 1. rewrite Hi0, Hi1.
  replace (f + 1 <? Z.of_nat (length key))
    with (1 <? Z.of_nat (length (take 2 (drop (Z.to_nat f) key)))).
  2:{ rewrite length_take, length_drop.
      destruct (Z.ltb_spec 1 (Z.of_nat (2 `min` (length key - Z.to_nat f)))),
        (Z.ltb_spec (f + 1) (Z.of_nat (length key))); try reflexivity; lia. }
  reflexivity.
Qed.

(** For an offset that does not start at the last bit of a byte,
    [offset2KeyTenBits] reads the ten bits of the key that start at bit
    [offset], the most significant bit of a byte first, with zero bits past
    the end of the key. *)
Theorem offset2KeyTenBits_reads_ten_bits (key : list Z) (offset b0 : Z) :
  Forall is_byte key ->
  0 <= offset -> offset mod 8 <= 6 ->
  key !! Z.to_nat (offset / 8) = Some b0 ->
  let b1 := default 0 (key !! Z.to_nat (offset / 8 + 1)) in
  let r := offset mod 8 in
  let x := (b0 mod 2 ^ (8 - r)) * 2 ^ (r + 2) + b1 / 2 ^ (6 - r) in
  offset2KeyTenBits key offset = Ok x /\ 0 <= x < 1024.
Proof.
  intros Hk Ho Hr6 Hb0 b1 r x.
  pose proof (Z.mod_pos_bound offset 8 ltac:(lia)) as Hm.
  assert (Hf : 0 <= offset / 8) by (apply Z.div_pos; lia).
  assert (Hb0b : is_byte b0) by (eapply Forall_lookup_1; eauto).
  assert (Hb1b : is_byte b1).
  { subst b1. destruct (key !! Z.to_nat (offset / 8 + 1)) as [y|] eqn:E; cbn.
    - eapply Forall_lookup_1; eauto.
    - unfold is_byte. lia. }
  split.
  - rewrite offset2KeyTenBits_local by exact Ho. fold r.
    destruct (drop (Z.to_nat (offset / 8)) key) as [|y0 [|y1 rest]] eqn:Ed.
    + pose proof (lookup_drop key (Z.to_nat (offset / 8)) 0) as Hl.
      rewrite Ed in Hl. rewrite Nat.add_0_r, Hb0 in Hl. discriminate Hl.
    + pose proof (lookup_drop key (Z.to_nat (offset / 8)) 0) as Hl0.
      rewrite Ed, Nat.add_0_r, Hb0 in Hl0. injection Hl0 as ->.
      pose proof (lookup_drop key (Z.to_nat (offset / 8)) 1) as Hl1.
      rewrite Ed in Hl1. cbn in Hl1.
      replace (Z.to_nat (offset / 8) + 1)%nat with (Z.to_nat (offset / 8 + 1)) in Hl1 by lia.
      assert (Hz : b1 = 0) by (subst b1; rewrite <- Hl1; reflexivity).
      subst x. rewrite Hz. rewrite Z.div_0_l by (apply Z.pow_nonzero; lia).
      rewrite Z.add_0_r. cbn [take].
      apply tenBits_one; [lia|exact Hb0b].
    + pose proof (lookup_drop key (Z.to_nat (offset / 8)) 0) as Hl0.
      rewrite Ed, Nat.add_0_r, Hb0 in Hl0. injection Hl0 as ->.
      pose proof (lookup_drop key (Z.to_nat (offset / 8)) 1) as Hl1.
      rewrite Ed in Hl1. cbn in Hl1.
      replace (Z.to_nat (offset / 8) + 1)%nat with (Z.to_nat (offset / 8 + 1)) in Hl1 by lia.
      assert (Hz : b1 = y1) by (subst b1; rewrite <- Hl1; reflexivity).
      subst x. rewrite Hz in *. cbn [take].
      rewrite take_0. apply tenBits_two; [lia|exact Hb0b|exact Hb1b].
  - subst x. fold r in Hr6, Hm. unfold is_byte in *.
    assert (H1 : 0 <= b0 mod 2 ^ (8 - r) < 2 ^ (8 - r))
      by (apply Z.mod_pos_bound; apply Z.pow_pos_nonneg; lia).
    assert (H2 : 0 <= b1 / 2 ^ (6 - r) < 2 ^ (r + 2)).
    { split; [apply Z.div_pos; [lia|apply Z.pow_pos_nonneg; lia]|].
      apply Z.div_lt_upper_bound; [apply Z.pow_pos_nonneg; lia|].
      rewrite <- Z.pow_add_r by lia. replace (6 - r + (r + 2)) with 8 by lia. lia. }
    assert (H3 : 2 ^ (8 - r) * 2 ^ (r + 2) = 1024).
    { rewrite <- Z.pow_add_r by lia. replace (8 - r + (r + 2)) with 10 by lia. reflexivity. }
    assert (0 < 2 ^ (r + 2)) by (apply Z.pow_pos_nonneg; lia).
    nia.
Qed.

Lemma ComputeCommitment_InternalNode cs d h tc :
  ComputeCommitment (InternalNode cs d h None tc)
  = if nodeWidth tc <? 0 then Panic "makeslice: len out of range"
    else
      let poly := replicate (Z.to_nat (nodeWidth tc)) Fr_zero_value in
      let? r := commit_children (modulus tc) cs O poly 0 in
      let '(children, poly, emptyChildren) := r in
      let? commP :=
        if multiExpThreshold <=? nodeWidth tc - emptyChildren then
          Ok (LinCombG1 (lg1 tc) poly)
        else sum_poly (lg1 tc) poly 0 ZERO_G1 in
      Ok (commP, InternalNode children d h (Some commP) tc).
Proof. reflexivity. Qed.

Lemma commit_children_nil_treeConfig (m : Z) (cs : list VerkleNode) (i : nat)
    k v ver bal nonce csz ch cm (idx : nat) (poly : list Fr) (e : Z) r :
  cs !! i = Some (accountLeaf k v ver bal nonce csz ch cm None) ->
  commit_children m cs idx poly e <> Ok r.
Proof.
  revert i idx poly e r. induction cs as [|c cs IH]; intros i idx poly e r Hl.
  - discriminate Hl.
  - destruct i as [|i].
    + injection Hl as ->. cbn. discriminate.
    + cbn in Hl. cbn [commit_children]. fold (commit_children m).
      intros Hrun. apply rbind_Ok in Hrun as ([[c' poly'] e'] & _ & Hrun).
      cbv beta iota in Hrun.
      apply rbind_Ok in Hrun as ([[rest' poly''] e''] & Hloop & _).
      exact (IH _ _ _ _ _ Hl Hloop).
Qed.

(** [CreateAccount] does not invalidate the cached commitment of the node it
    writes to: [ComputeCommitment] goes on returning the commitment computed
    before the account was added.  The new account has no tree
    configuration, so a computation from the children would not return. *)
Theorem CreateAccount_keeps_the_cached_commitment fuel cs d h c tc (key : list Z) (i : Z)
    (version nonce codeSize : Z) (balance : option Z) (codeHash : list Z) :
  offset2Key key d (width tc) = Ok i ->
  child_at cs i = Ok empty ->
  exists cs',
    CreateAccount (S fuel) (InternalNode cs d h (Some c) tc) key version nonce codeSize
      balance codeHash = Ok (InternalNode cs' d h (Some c) tc, None) /\
    ComputeCommitment (InternalNode cs' d h (Some c) tc)
      = Ok (c, InternalNode cs' d h (Some c) tc) /\
    forall r, ComputeCommitment (InternalNode cs' d h None tc) <> Ok r.
Proof.
  intros Hk Hc.
  apply child_at_inv in Hc as Hc'. destruct Hc' as [Hi Hl].
  pose proof (lookup_lt_Some _ _ _ Hl) as Hlt.
  exists (<[Z.to_nat i := accountLeaf key None version balance nonce codeSize codeHash
                              None None]> cs).
  split; [|split].
  - cbn [CreateAccount]. rewrite Hk. cbn [rbind]. rewrite Hc. cbn [rbind].
    rewrite set_child_in_range by lia. reflexivity.
  - reflexivity.
  - intros r. rewrite ComputeCommitment_InternalNode.
    destruct (nodeWidth tc <? 0); [discriminate|]. cbv zeta.
    intros Hrun. apply rbind_Ok in Hrun as (r' & Hloop & _).
    eapply commit_children_nil_treeConfig; [|exact Hloop].
    apply list_lookup_insert_eq. lia.
Qed.

End Facts.

(** ** Insertion and lookup on the trees that insertions build *)

Section WellFormed.
Context `{bls : BLS}.
Variable tc : TreeConfig.
Hypothesis Hw : width tc = 8.
Hypothesis Hnw : nodeWidth tc = 256.

Lemma Get_read_child cs d h c k :
  Get (InternalNode cs d h c tc) k =
    let? i := offset2Key k d (width tc) in
    let? ch := child_at cs i in
    read_child ch k.
Proof.
  destruct (offset2Key k d (width tc)) as [i| |] eqn:Hk.
  2,3: cbn [Get]; rewrite Hk; reflexivity.
  cbn [rbind].
  destruct (child_at cs i) as [ch| |] eqn:Hc; cbn [rbind].
  - exact (Get_InternalNode _ _ _ _ _ _ _ _ Hk Hc).
  - cbn [Get rbind]. rewrite Hk. cbn [rbind].
    unfold child_at in Hc. destruct (i <? 0) eqn:Hi; [congruence|].
    destruct (cs !! Z.to_nat i) as [x|] eqn:Hl; [discriminate|].
    injection Hc as <-.
    generalize dependent (Z.to_nat i). clear.
    induction cs as [|c0 cs IH]; intros n Hl; [reflexivity|].
    destruct n as [|n]; [discriminate|]. cbn in Hl. apply IH. exact Hl.
  - unfold child_at in Hc. destruct (i <? 0); [discriminate|].
    destruct (cs !! Z.to_nat i); discriminate.
Qed.

Lemma key_byte (k : list Z) (j : nat) :
  length k = 32%nat -> Forall is_byte k -> (j < 32)%nat ->
  exists a, k !! j = Some a /\ 0 <= a < 256.
Proof.
  intros Hl Hb Hj. destruct (lookup_lt_is_Some_2 k j) as [a Ha]; [lia|].
  exists a. split; [exact Ha|]. exact (Forall_lookup_1 _ _ _ _ Hb Ha).
Qed.

Lemma prefix_snoc (p k : list Z) (a : Z) :
  p `prefix_of` k -> k !! length p = Some a -> (p ++ [a]) `prefix_of` k.
Proof.
  intros [r ->] Ha. rewrite lookup_app_r in Ha by lia.
  rewrite Nat.sub_diag in Ha. destruct r as [|a' r]; [discriminate|].
  injection Ha as ->. exists r. rewrite <- app_assoc. reflexivity.
Qed.

Lemma prefix_lookup_last (p k : list Z) (a : Z) :
  (p ++ [a]) `prefix_of` k -> k !! length p = Some a.
Proof.
  intros [r ->]. rewrite <- app_assoc. rewrite lookup_app_r by lia.
  rewrite Nat.sub_diag. reflexivity.
Qed.

Lemma child_at_insert (cs : list VerkleNode) (a i : Z) (X : VerkleNode) :
  0 <= a < Z.of_nat (length cs) ->
  child_at (<[Z.to_nat a := X]> cs) i = if i =? a then Ok X else child_at cs i.
Proof.
  intros Ha. unfold child_at. destruct (Z.eqb_spec i a) as [->|Hne].
  - replace (a <? 0) with false by (symmetry; apply Z.ltb_ge; lia).
    rewrite list_lookup_insert_eq by lia. reflexivity.
  - destruct (i <? 0) eqn:Hi; [reflexivity|]. apply Z.ltb_ge in Hi.
    rewrite list_lookup_insert_ne by lia. reflexivity.
Qed.

Lemma read_leaf (ck : list Z) (cv : slice) (k' : list Z) (x : slice) :
  read_child (leafNode ck cv) k' = Ok (x, None) <-> k' = ck /\ x = cv.
Proof.
  cbn. unfold bytes_Equal. destruct (decide (k' = ck)) as [->|Hne].
  - rewrite bool_decide_true by reflexivity. cbn. split.
    + intros [= <-]. auto.
    + intros [_ ->]. reflexivity.
  - rewrite bool_decide_false by exact Hne. cbn. split; [discriminate|].
    intros [Heq _]. contradiction.
Qed.

(** Reading through a node one of whose slots has been replaced. *)
Lemma Get_replaced_slot cs (a : Z) X old d h c c' k' x :
  0 <= a < Z.of_nat (length cs) ->
  cs !! Z.to_nat a = Some old ->
  (read_child X k' = Ok (x, None) <-> read_child old k' = Ok (x, None)) ->
  Get (InternalNode (<[Z.to_nat a := X]> cs) d h c' tc) k' = Ok (x, None) <->
  Get (InternalNode cs d h c tc) k' = Ok (x, None).
Proof.
  intros Ha Hold Hrd. rewrite !Get_read_child.
  destruct (offset2Key k' d (width tc)) as [i| |]; cbn [rbind]; [|reflexivity|reflexivity].
  rewrite child_at_insert by exact Ha.
  destruct (Z.eqb_spec i a) as [->|Hne]; [|reflexivity].
  cbn [rbind]. rewrite (child_at_lookup _ _ _ (proj1 Ha) Hold). cbn [rbind]. exact Hrd.
Qed.

Lemma Get_selected_slot cs (a : Z) X d h c k :
  0 <= a < Z.of_nat (length cs) ->
  offset2Key k d (width tc) = Ok a ->
  Get (InternalNode (<[Z.to_nat a := X]> cs) d h c tc) k = read_child X k.
Proof.
  intros Ha Hk. rewrite Get_read_child, Hk. cbn [rbind].
  rewrite child_at_insert by exact Ha. rewrite Z.eqb_refl. reflexivity.
Qed.

#[local] Abbreviation E := (replicate (Z.to_nat (nodeWidth tc)) empty).

Lemma length_E : length E = 256%nat.
Proof. rewrite length_replicate, Hnw. reflexivity. Qed.

Lemma lookup_E (i : nat) (ch : VerkleNode) : E !! i = Some ch -> ch = empty.
Proof. intros Hl. apply lookup_replicate in Hl as [-> _]. reflexivity. Qed.

Lemma child_at_E (i : Z) (x : slice) (k' : list Z) :
  (let? ch := child_at E i in read_child ch k') <> Ok (x, None).
Proof.
  unfold child_at. destruct (i <? 0); [discriminate|].
  destruct (E !! Z.to_nat i) as [ch|] eqn:Hl; [|discriminate].
  apply lookup_E in Hl as ->. discriminate.
Qed.

Lemma Get_single_leaf (we : Z) ck cv d h c k' x :
  0 <= we < 256 ->
  offset2Key ck d (width tc) = Ok we ->
  Get (InternalNode (<[Z.to_nat we := leafNode ck cv]> E) d h c tc) k' = Ok (x, None)
  <-> k' = ck /\ x = cv.
Proof.
  intros Hwe Hck. rewrite Get_read_child.
  destruct (offset2Key k' d (width tc)) as [i| |] eqn:Hk'; cbn [rbind].
  - rewrite child_at_insert by (rewrite length_E; lia).
    destruct (Z.eqb_spec i we) as [->|Hne].
    + cbn [rbind]. apply read_leaf.
    + split.
      * intros Hrd. exfalso. exact (child_at_E _ _ _ Hrd).
      * intros [-> _]. congruence.
  - split; [discriminate|]. intros [-> _]. congruence.
  - split; [discriminate|]. intros [-> _]. congruence.
Qed.

Lemma Get_fork (we wi : Z) ck cv k v d h c :
  0 <= we < 256 -> 0 <= wi < 256 -> wi <> we ->
  offset2Key ck d (width tc) = Ok we ->
  offset2Key k d (width tc) = Ok wi ->
  let X := InternalNode (<[Z.to_nat wi := leafNode k v]>
                           (<[Z.to_nat we := leafNode ck cv]> E)) d h c tc in
  Get X k = Ok (v, None) /\
  forall k' x, k' <> k -> (Get X k' = Ok (x, None) <-> k' = ck /\ x = cv).
Proof.
  intros Hwe Hwi Hne Hck Hk X. subst X. split.
  - rewrite Get_selected_slot; [|rewrite length_insert, length_E; lia|exact Hk].
    apply read_leaf. auto.
  - intros k' x Hk'. rewrite Get_read_child.
    destruct (offset2Key k' d (width tc)) as [i| |] eqn:Hi; cbn [rbind].
    + rewrite child_at_insert by (rewrite length_insert, length_E; lia).
      destruct (Z.eqb_spec i wi) as [->|Hne1].
      * cbn [rbind]. rewrite read_leaf. split.
        -- intros [-> _]. contradiction.
        -- intros [-> _]. congruence.
      * rewrite child_at_insert by (rewrite length_E; lia).
        destruct (Z.eqb_spec i we) as [->|Hne2].
        -- cbn [rbind]. apply read_leaf.
        -- split.
           ++ intros Hrd. exfalso. exact (child_at_E _ _ _ Hrd).
           ++ intros [-> _]. congruence.
    + split; [discriminate|]. intros [-> _]. congruence.
    + split; [discriminate|]. intros [-> _]. congruence.
Qed.

Lemma Insert_into_internal fuel cs d h c key v nChild ccs cd chh cc ctc :
  offset2Key key d (width tc) = Ok nChild ->
  child_at cs nChild = Ok (InternalNode ccs cd chh cc ctc) ->
  Insert (S fuel) (InternalNode cs d h c tc) key v =
    let? r := Insert fuel (InternalNode ccs cd chh cc ctc) key v in
    let? cs' := set_child cs nChild (fst r) in
    Ok (InternalNode cs' d h None tc, snd r).
Proof.
  intros Hk Hc. cbn [Insert]. rewrite Hk. cbn [rbind]. rewrite Hc. reflexivity.
Qed.

Lemma Insert_same_leaf fuel cs d h c key v nChild cv :
  offset2Key key d (width tc) = Ok nChild ->
  child_at cs nChild = Ok (leafNode key cv) ->
  Insert (S fuel) (InternalNode cs d h c tc) key v =
    let? cs' := set_child cs nChild (leafNode key v) in
    Ok (InternalNode cs' d h None tc, None).
Proof.
  intros Hk Hc. cbn [Insert]. rewrite Hk. cbn [rbind]. rewrite Hc. cbn [rbind].
  unfold bytes_Equal. rewrite bool_decide_true by reflexivity. reflexivity.
Qed.

Lemma Insert_wf_aux (k : list Z) (v : slice) :
  length k = 32%nat -> Forall is_byte k ->
  forall fuel p cs h c,
    (length p <= 31)%nat -> length cs = 256%nat ->
    (forall i ch, cs !! i = Some ch -> wf tc (p ++ [Z.of_nat i]) ch) ->
    p `prefix_of` k ->
    (32 - length p <= fuel)%nat ->
    exists cs',
      Insert fuel (InternalNode cs (8 * Z.of_nat (length p)) h c tc) k v
      = Ok (InternalNode cs' (8 * Z.of_nat (length p)) h None tc, None) /\
      length cs' = 256%nat /\
      (forall i ch, cs' !! i = Some ch -> wf tc (p ++ [Z.of_nat i]) ch) /\
      Get (InternalNode cs' (8 * Z.of_nat (length p)) h None tc) k = Ok (v, None) /\
      forall k' x, k' <> k ->
        (Get (InternalNode cs' (8 * Z.of_nat (length p)) h None tc) k' = Ok (x, None) <->
         Get (InternalNode cs (8 * Z.of_nat (length p)) h c tc) k' = Ok (x, None)).
Proof.
  intros Hlk Hbk. induction fuel as [|fuel IH]; intros p cs h c Hp Hcs Hch Hpre Hfuel;
    [lia|].
  destruct (key_byte k (length p) Hlk Hbk) as (a & Ha & Hab); [lia|].
  assert (Hoff : offset2Key k (8 * Z.of_nat (length p)) (width tc) = Ok a)
    by (apply offset2Key_byte; assumption).
  assert (Hpa : (p ++ [a]) `prefix_of` k) by (apply prefix_snoc; assumption).
  destruct (lookup_lt_is_Some_2 cs (Z.to_nat a)) as [old Hold]; [lia|].
  assert (Hcat : child_at cs a = Ok old) by (apply child_at_lookup; [lia|exact Hold]).
  assert (Hset : forall X, set_child cs a X = Ok (<[Z.to_nat a := X]> cs))
    by (intros X; apply set_child_in_range; lia).
  assert (Hwold : wf tc (p ++ [a]) old).
  { specialize (Hch _ _ Hold). rewrite Z2Nat.id in Hch by lia. exact Hch. }
  (* what remains to show once the new child [X] of slot [a] is known *)
  assert (Hfin : forall X,
    Insert (S fuel) (InternalNode cs (8 * Z.of_nat (length p)) h c tc) k v
    = Ok (InternalNode (<[Z.to_nat a := X]> cs) (8 * Z.of_nat (length p)) h None tc, None) ->
    wf tc (p ++ [a]) X ->
    read_child X k = Ok (v, None) ->
    (forall k' x, k' <> k ->
       (read_child X k' = Ok (x, None) <-> read_child old k' = Ok (x, None))) ->
    exists cs',
      Insert (S fuel) (InternalNode cs (8 * Z.of_nat (length p)) h c tc) k v
      = Ok (InternalNode cs' (8 * Z.of_nat (length p)) h None tc, None) /\
      length cs' = 256%nat /\
      (forall i ch, cs' !! i = Some ch -> wf tc (p ++ [Z.of_nat i]) ch) /\
      Get (InternalNode cs' (8 * Z.of_nat (length p)) h None tc) k = Ok (v, None) /\
      forall k' x, k' <> k ->
        (Get (InternalNode cs' (8 * Z.of_nat (length p)) h None tc) k' = Ok (x, None) <->
         Get (InternalNode cs (8 * Z.of_nat (length p)) h c tc) k' = Ok (x, None))).
  { intros X Hins HwX HrX Hothers. exists (<[Z.to_nat a := X]> cs).
    split; [exact Hins|]. split; [rewrite length_insert; exact Hcs|].
    split; [|split].
    - intros i ch Hl. destruct (decide (i = Z.to_nat a)) as [->|Hne].
      + rewrite list_lookup_insert_eq in Hl by lia. injection Hl as <-.
        rewrite Z2Nat.id by lia. exact HwX.
      + rewrite list_lookup_insert_ne in Hl by congruence. exact (Hch _ _ Hl).
    - rewrite Get_selected_slot; [exact HrX|lia|exact Hoff].
    - intros k' x Hk'. apply (Get_replaced_slot cs a X old); [lia|exact Hold|].
      apply Hothers. exact Hk'. }
  inversion Hwold as [p0|p0 ck cv Hlck Hbck Hpck|p0 ccs ch0 cc0 Hp0 Hccs Hcch]; subst.
  - (* the slot is empty *)
    apply (Hfin (leafNode k v)).
    + rewrite (Insert_into_empty _ _ _ _ _ _ _ _ a Hoff Hcat), Hset. reflexivity.
    + constructor; assumption.
    + apply read_leaf. auto.
    + intros k' x Hk'. rewrite read_leaf. split; [intros [-> _]; contradiction|discriminate].
  - (* the slot holds a leaf *)
    destruct (decide (ck = k)) as [->|Hne].
    + apply (Hfin (leafNode k v)).
      * rewrite (Insert_same_leaf _ _ _ _ _ _ _ a cv Hoff Hcat), Hset. reflexivity.
      * constructor; assumption.
      * apply read_leaf. auto.
      * intros k' x Hk'. rewrite !read_leaf.
        split; intros [-> _]; contradiction.
    + assert (Hj : (length p < 31)%nat).
      { destruct (decide (length p = 31%nat)) as [Heq|]; [|lia]. exfalso. apply Hne.
        assert (Hl1 : length (p ++ [a]) = 32%nat) by (rewrite length_app; cbn; lia).
        rewrite <- (prefix_length_eq _ _ Hpck) by lia.
        rewrite <- (prefix_length_eq _ _ Hpa) by lia. reflexivity. }
      destruct (key_byte ck (S (length p)) Hlck Hbck) as (we & Hwe & Hweb); [lia|].
      destruct (key_byte k (S (length p)) Hlk Hbk) as (wi & Hwi & Hwib); [lia|].
      assert (Hd' : 8 * Z.of_nat (length p) + width tc = 8 * Z.of_nat (length (p ++ [a])))
        by (rewrite Hw, length_app; cbn; lia).
      assert (Hlen' : length (p ++ [a]) = S (length p)) by (rewrite length_app; cbn; lia).
      assert (Hoffe : offset2Key ck (8 * Z.of_nat (length (p ++ [a]))) (width tc) = Ok we)
        by (rewrite Hlen'; apply offset2Key_byte; assumption).
      assert (Hoffi : offset2Key k (8 * Z.of_nat (length (p ++ [a]))) (width tc) = Ok wi)
        by (rewrite Hlen'; apply offset2Key_byte; assumption).
      assert (Hstep := Insert_splits_leaf fuel cs (8 * Z.of_nat (length p)) h c tc k v
                         a ck cv we wi Hoff Hcat Hne).
      rewrite Hd' in Hstep. specialize (Hstep ltac:(lia) Hoffe Hoffi).
      rewrite (set_child_in_range E) in Hstep by (rewrite length_E; lia).
      cbn [rbind] in Hstep.
      assert (HwB0 : forall i ch,
                (<[Z.to_nat we := leafNode ck cv]> E) !! i = Some ch ->
                wf tc ((p ++ [a]) ++ [Z.of_nat i]) ch).
      { intros i ch Hl. destruct (decide (i = Z.to_nat we)) as [->|Hni].
        - rewrite list_lookup_insert_eq in Hl by (rewrite length_E; lia).
          injection Hl as <-. rewrite Z2Nat.id by lia.
          constructor; [assumption|assumption|].
          apply prefix_snoc; [exact Hpck|]. rewrite Hlen'. exact Hwe.
        - rewrite list_lookup_insert_ne in Hl by congruence.
          apply lookup_E in Hl as ->. constructor. }
      destruct (Z.eqb_spec wi we) as [->|Hwne]; cbn [negb] in Hstep.
      * (* the next byte is shared as well: recursion into the new branch *)
        destruct (IH (p ++ [a]) (<[Z.to_nat we := leafNode ck cv]> E) zeroHash None)
          as (cs2 & Hins2 & Hlen2 & Hwf2 & Hget2 & Hoth2);
          [lia|rewrite length_insert; apply length_E|exact HwB0|exact Hpa|lia|].
        rewrite Hins2 in Hstep. cbn [rbind fst] in Hstep. rewrite Hset in Hstep.
        cbn [rbind] in Hstep.
        apply (Hfin _ Hstep).
        -- constructor; [lia|exact Hlen2|exact Hwf2].
        -- exact Hget2.
        -- intros k' x Hk'. cbn [read_child]. rewrite (Hoth2 k' x Hk').
           rewrite Get_single_leaf by (assumption || lia). symmetry. apply read_leaf.
      * (* the keys part here *)
        rewrite set_child_in_range in Hstep by (rewrite length_insert, length_E; lia).
        cbn [rbind] in Hstep. rewrite Hset in Hstep. cbn [rbind] in Hstep.
        destruct (Get_fork we wi ck cv k v (8 * Z.of_nat (length (p ++ [a]))) zeroHash None)
          as [Hgk Hgo]; try assumption.
        apply (Hfin _ Hstep).
        -- constructor; [lia|rewrite !length_insert; apply length_E|].
           intros i ch Hl. destruct (decide (i = Z.to_nat wi)) as [->|Hni].
           ++ rewrite list_lookup_insert_eq in Hl by (rewrite length_insert, length_E; lia).
              injection Hl as <-. rewrite Z2Nat.id by lia.
              constructor; [assumption|assumption|].
              apply prefix_snoc; [exact Hpa|]. rewrite Hlen'. exact Hwi.
           ++ rewrite list_lookup_insert_ne in Hl by congruence. exact (HwB0 _ _ Hl).
        -- exact Hgk.
        -- intros k' x Hk'. cbn [read_child]. rewrite (Hgo k' x Hk').
           symmetry. apply read_leaf.
  - (* the slot holds an internal node *)
    destruct (IH (p ++ [a]) ccs ch0 cc0) as (cs2 & Hins2 & Hlen2 & Hwf2 & Hget2 & Hoth2);
      [assumption|assumption|assumption|exact Hpa|rewrite length_app; cbn; lia|].
    apply (Hfin (InternalNode cs2 (8 * Z.of_nat (length (p ++ [a]))) ch0 None tc)).
    + rewrite (Insert_into_internal _ _ _ _ _ _ _ a _ _ _ _ _ Hoff Hcat), Hins2.
      cbn [rbind fst snd]. rewrite Hset. reflexivity.
    + constructor; assumption.
    + exact Hget2.
    + intros k' x Hk'. cbn [read_child]. apply Hoth2. exact Hk'.
Qed.

(** A root that [New] returns is well formed. *)
Lemma wf_fresh h c : wf tc [] (InternalNode E 0 h c tc).
Proof.
  apply (wf_internal tc [] E h c); [cbn; lia|apply length_E|].
  intros i ch Hl. apply lookup_E in Hl as ->. constructor.
Qed.

Lemma Get_fresh h c k x : Get (InternalNode E 0 h c tc) k <> Ok (x, None).
Proof.
  rewrite Get_read_child.
  destruct (offset2Key k 0 (width tc)) as [i| |]; cbn [rbind]; try discriminate.
  apply child_at_E.
Qed.

(** The root case of [Insert_wf_aux]. *)
Lemma Insert_at_the_root cs h c (k : list Z) (v : slice) (fuel : nat) :
  wf tc [] (InternalNode cs 0 h c tc) ->
  length k = 32%nat -> Forall is_byte k -> (32 <= fuel)%nat ->
  exists cs',
    Insert fuel (InternalNode cs 0 h c tc) k v = Ok (InternalNode cs' 0 h None tc, None) /\
    wf tc [] (InternalNode cs' 0 h None tc) /\
    Get (InternalNode cs' 0 h None tc) k = Ok (v, None) /\
    forall k' x, k' <> k ->
      (Get (InternalNode cs' 0 h None tc) k' = Ok (x, None) <->
       Get (InternalNode cs 0 h c tc) k' = Ok (x, None)).
Proof.
  intros Hwf Hlk Hbk Hfuel.
  inversion Hwf as [| |p0 cs0 h0 c0 Hp Hcs Hch]; subst.
  destruct (Insert_wf_aux k v Hlk Hbk fuel [] cs h c)
    as (cs' & Hins & Hlen & Hwf' & Hget & Hoth);
    [cbn; lia|assumption|assumption|apply prefix_nil|cbn; lia|].
  exists cs'. split; [exact Hins|]. split; [|split; [exact Hget|exact Hoth]].
  apply (wf_internal tc [] cs' h None); [cbn; lia|assumption|assumption].
Qed.

(** [Insert] of a 32-byte key into a tree that insertions have built
    returns no error, clears the cached commitment of the root and yields a
    tree of the same kind. *)
Theorem Insert_keeps_well_formed cs h c (k : list Z) (v : slice) (fuel : nat) :
  wf tc [] (InternalNode cs 0 h c tc) ->
  length k = 32%nat -> Forall is_byte k -> (32 <= fuel)%nat ->
  exists cs',
    Insert fuel (InternalNode cs 0 h c tc) k v = Ok (InternalNode cs' 0 h None tc, None) /\
    wf tc [] (InternalNode cs' 0 h None tc).
Proof.
  intros Hwf Hlk Hbk Hfuel.
  destruct (Insert_at_the_root cs h c k v fuel Hwf Hlk Hbk Hfuel) as (cs' & Hins & Hwf' & _).
  exists cs'. split; assumption.
Qed.

(** After [Insert] of a key, [Get] of that key returns the value written. *)
Theorem Get_after_Insert cs h c (k : list Z) (v : slice) (fuel : nat) n' e :
  wf tc [] (InternalNode cs 0 h c tc) ->
  length k = 32%nat -> Forall is_byte k -> (32 <= fuel)%nat ->
  Insert fuel (InternalNode cs 0 h c tc) k v = Ok (n', e) ->
  Get n' k = Ok (v, None).
Proof.
  intros Hwf Hlk Hbk Hfuel Hins.
  destruct (Insert_at_the_root cs h c k v fuel Hwf Hlk Hbk Hfuel)
    as (cs' & Hins' & _ & Hget & _).
  assert (Heq : Ok (InternalNode cs' 0 h None tc, @None error) = Ok (n', e))
    by (rewrite <- Hins; symmetry; exact Hins').
  injection Heq as <- <-. exact Hget.
Qed.

(** [Insert] of a key changes what [Get] returns for no other key. *)
Theorem Insert_leaves_other_keys cs h c (k : list Z) (v : slice) (fuel : nat) n' e :
  wf tc [] (InternalNode cs 0 h c tc) ->
  length k = 32%nat -> Forall is_byte k -> (32 <= fuel)%nat ->
  Insert fuel (InternalNode cs 0 h c tc) k v = Ok (n', e) ->
  forall k' x, k' <> k ->
    (Get n' k' = Ok (x, None) <-> Get (InternalNode cs 0 h c tc) k' = Ok (x, None)).
Proof.
  intros Hwf Hlk Hbk Hfuel Hins.
  destruct (Insert_at_the_root cs h c k v fuel Hwf Hlk Hbk Hfuel)
    as (cs' & Hins' & _ & _ & Hoth).
  assert (Heq : Ok (InternalNode cs' 0 h None tc, @None error) = Ok (n', e))
    by (rewrite <- Hins; symmetry; exact Hins').
  injection Heq as <- <-. exact Hoth.
Qed.

Lemma InsertAll_refines (fuel : nat) (kvs : list (list Z * slice)) :
  (32 <= fuel)%nat ->
  Forall (fun kv => length kv.1 = 32%nat /\ Forall is_byte kv.1) kvs ->
  forall cs h c (m : gmap (list Z) slice),
    wf tc [] (InternalNode cs 0 h c tc) ->
    (forall k x, Get (InternalNode cs 0 h c tc) k = Ok (x, None) <-> m !! k = Some x) ->
    exists cs' c',
      InsertAll fuel (InternalNode cs 0 h c tc) kvs = Ok (InternalNode cs' 0 h c' tc, None) /\
      wf tc [] (InternalNode cs' 0 h c' tc) /\
      forall k x, Get (InternalNode cs' 0 h c' tc) k = Ok (x, None)
                  <-> foldl (fun m kv => <[kv.1 := kv.2]> m) m kvs !! k = Some x.
Proof.
  intros Hfuel Hkeys. induction Hkeys as [|[k v] kvs [Hlk Hbk] _ IH];
    intros cs h c m Hwf Hm.
  - exists cs, c. cbn. auto.
  - cbn in Hlk, Hbk.
    destruct (Insert_at_the_root cs h c k v fuel Hwf Hlk Hbk Hfuel)
      as (cs1 & Hins & Hwf1 & Hget1 & Hoth1).
    destruct (IH cs1 h None (<[k := v]> m) Hwf1) as (cs' & c' & Hall & Hwf' & Hget').
    + intros k' x. destruct (decide (k' = k)) as [->|Hne].
      * rewrite lookup_insert_eq. rewrite Hget1.
        split; intros [= ->]; reflexivity.
      * rewrite lookup_insert_ne by congruence.
        rewrite (Hoth1 k' x Hne). apply Hm.
    + exists cs', c'. cbn [InsertAll]. rewrite Hins. cbn [rbind snd fst].
      split; [exact Hall|]. split; [exact Hwf'|]. exact Hget'.
Qed.

(** A sequence of [Insert] calls on a fresh tree builds a finite map: every
    call returns without error, and [Get] returns a value for a key exactly
    when the key was written, the value being the last one written to it. *)
Theorem fresh_tree_is_a_finite_map (fuel : nat) (kvs : list (list Z * slice)) h c :
  (32 <= fuel)%nat ->
  Forall (fun kv => length kv.1 = 32%nat /\ Forall is_byte kv.1) kvs ->
  exists t,
    InsertAll fuel (InternalNode E 0 h c tc) kvs = Ok (t, None) /\
    forall k x, Get t k = Ok (x, None) <-> written kvs !! k = Some x.
Proof.
  intros Hfuel Hkeys.
  destruct (InsertAll_refines fuel kvs Hfuel Hkeys E h c ∅ (wf_fresh h c))
    as (cs' & c' & Hall & _ & Hget).
  - intros k x. rewrite lookup_empty. split; [|discriminate].
    intros Hg. exfalso. exact (Get_fresh _ _ _ _ Hg).
  - eexists. split; [exact Hall|]. exact Hget.
Qed.

End WellFormed.

End TreeMore.

(** * More properties of stateless.go *)

Module StatelessMore.
Import Stateless StatelessFacts.
Local Open Scope res_scope.
Local Open Scope heap_scope.

Section Facts.
Context `{package : Package}.
Variable leafRLPType internalRLPType : Z.

Lemma byte_small (i : Z) : 0 <= i < 256 -> byte i = i.
Proof. intros Hi. unfold byte. apply Z.mod_small. exact Hi. Qed.

Lemma seqZ_S (k : Z) (m : nat) : seqZ k (Z.of_nat (S m)) = k :: seqZ (k + 1) (Z.of_nat m).
Proof. rewrite seqZ_cons by lia. f_equal. f_equal; lia. Qed.

Lemma Serialize_values_not_loaded (n : StatelessNode) (i : Z) (m : nat) :
  forall (k : Z) (bitlist buf : list Z),
  0 <= k -> k + Z.of_nat m <= 256 -> k <= i < k + Z.of_nat m ->
  map_get (values n) i = None ->
  Forall Tree.is_byte bitlist -> length bitlist = 32%nat ->
  Serialize_values n (seqZ k (Z.of_nat m)) bitlist buf = Ok None.
Proof.
  induction m as [|m IH]; intros k bitlist buf Hk Hm Hi Hnone Hb Hl; [lia|].
  rewrite seqZ_S. cbn [Serialize_values]. rewrite byte_small by lia.
  destruct (Z.eq_dec k i) as [->|Hne]; [rewrite Hnone; reflexivity|].
  destruct (map_get (values n) k) as [[v|]|]; [| |reflexivity].
  - destruct (TreeMore.setBit_sets_one_bit bitlist k Hb ltac:(lia)) as (bl' & -> & Hl' & Hb' & _).
    cbn [rbind]. apply IH; try assumption; try lia.
  - apply IH; try assumption; lia.
Qed.

(** A leaf one of whose 256 values is not loaded is not serialized:
    [Serialize] returns [errNotSupportedInStateless]. *)
Theorem Serialize_refuses_a_partial_leaf (n : StatelessNode) (i : Z) (h : heap) :
  children n = None ->
  0 <= i < 256 ->
  map_get (values n) i = None ->
  Serialize leafRLPType internalRLPType n h
  = Ok ((None, Some errNotSupportedInStateless, n), h).
Proof.
  intros Hc Hi Hnone. unfold Serialize. rewrite Hc.
  change NodeWidth with (Z.of_nat 256).
  unfold bind, lift.
  rewrite (Serialize_values_not_loaded n i 256 0) ; try assumption; try lia.
  - reflexivity.
  - apply Forall_replicate. unfold Tree.is_byte. lia.
  - apply length_replicate.
Qed.

Lemma Serialize_values_loaded (n : StatelessNode) (m : nat) :
  forall (k : Z) (bitlist buf : list Z),
  0 <= k -> k + Z.of_nat m <= 256 ->
  (forall i, k <= i < k + Z.of_nat m -> is_Some (map_get (values n) i)) ->
  Forall Tree.is_byte bitlist -> length bitlist = 32%nat ->
  exists bitlist',
    Serialize_values n (seqZ k (Z.of_nat m)) bitlist buf
    = Ok (Some (bitlist', buf ++ concat (value_bytes n <$> seqZ k (Z.of_nat m)))) /\
    Forall Tree.is_byte bitlist' /\ length bitlist' = 32%nat /\
    forall j, 0 <= j ->
      Tree.bit_at bitlist' j
      = Tree.bit_at bitlist j
        || (bool_decide (k <= j < k + Z.of_nat m) && bool_decide (is_Some (value_get n j))).
Proof.
  induction m as [|m IH]; intros k bitlist buf Hk Hm Hall Hb Hl.
  - exists bitlist. cbn. rewrite app_nil_r. repeat split; try assumption.
    intros j Hj. rewrite bool_decide_false by lia. cbn. rewrite orb_false_r. reflexivity.
  - rewrite seqZ_S. cbn [Serialize_values fmap list_fmap concat]. rewrite byte_small by lia.
    destruct (Hall k ltac:(lia)) as [ov Hov]. rewrite Hov.
    assert (Hvg : value_get n k = ov) by (unfold value_get; rewrite Hov; reflexivity).
    destruct ov as [v|].
    + destruct (TreeMore.setBit_sets_one_bit bitlist k Hb ltac:(lia)) as (bl1 & -> & Hl1 & Hb1 & Hbits1).
      cbn [rbind].
      destruct (IH (k + 1) bl1 (buf ++ v ++ padding v)) as (bl' & Hrun & Hb' & Hl' & Hbits');
        try assumption; try lia.
      { intros i Hi. apply Hall. lia. }
      exists bl'. split; [|split; [exact Hb'|split; [exact Hl'|]]].
      * rewrite Hrun. unfold value_bytes at 2. rewrite Hvg.
        rewrite <- !app_assoc. reflexivity.
      * intros j Hj. rewrite Hbits', Hbits1 by exact Hj.
        destruct (Z.eqb_spec j k) as [->|Hne].
        -- rewrite Hvg. rewrite (bool_decide_true (k <= k < k + Z.of_nat (S m))) by lia.
           rewrite (bool_decide_true (is_Some (Some v))) by eauto.
           cbn. rewrite orb_true_r. reflexivity.
        -- cbn [orb]. f_equal. f_equal. apply bool_decide_ext. lia.
    + destruct (IH (k + 1) bitlist buf) as (bl' & Hrun & Hb' & Hl' & Hbits');
        try assumption; try lia.
      { intros i Hi. apply Hall. lia. }
      exists bl'. split; [|split; [exact Hb'|split; [exact Hl'|]]].
      * rewrite Hrun. unfold value_bytes at 2. rewrite Hvg. reflexivity.
      * intros j Hj. rewrite Hbits' by exact Hj. f_equal.
        destruct (Z.eq_dec j k) as [->|Hne].
        -- rewrite Hvg. rewrite (bool_decide_false (is_Some None)) by (intros [? ?]; discriminate).
           rewrite !andb_false_r. reflexivity.
        -- f_equal. apply bool_decide_ext. lia.
Qed.

(** The serialization of a leaf all of whose 256 values are loaded: the type
    tag, the stem, a list of 256 bits and then, in the order of the suffixes,
    the values that are not nil, each filled up to 32 bytes with zeros.  Bit
    [i] of the bit list tells whether the value at suffix [i] is there. *)
Theorem Serialize_layout_of_a_leaf (n : StatelessNode) (h : heap) :
  children n = None ->
  (forall i, 0 <= i < 256 -> is_Some (map_get (values n) i)) ->
  exists bitlist,
    Serialize leafRLPType internalRLPType n h
    = Ok ((Some ([leafRLPType] ++ slice_bytes (stem n) ++ bitlist
                 ++ concat (value_bytes n <$> seqZ 0 256)), None, n), h) /\
    length bitlist = 32%nat /\
    forall i, 0 <= i < 256 -> Tree.bit_at bitlist i = true <-> is_Some (value_get n i).
Proof.
  intros Hc Hall.
  destruct (Serialize_values_loaded n 256 0 (replicate 32 0) []) as (bl & Hrun & Hb & Hl & Hbits);
    try lia.
  { intros i Hi. apply Hall. lia. }
  { apply Forall_replicate. unfold Tree.is_byte. lia. }
  { apply length_replicate. }
  exists bl. split; [|split; [exact Hl|]].
  - unfold Serialize. rewrite Hc. change NodeWidth with (Z.of_nat 256).
    unfold bind, lift. rewrite Hrun. reflexivity.
  - intros i Hi. rewrite Hbits by lia.
    assert (Hz : Tree.bit_at (replicate 32 0) i = false).
    { unfold Tree.bit_at. destruct (replicate 32 0 !! Z.to_nat (i / 8)) as [z|] eqn:E.
      - apply lookup_replicate in E as [-> _]. apply Z.testbit_0_l.
      - apply Z.testbit_0_l. }
    rewrite Hz. cbn [orb]. rewrite (bool_decide_true (0 <= i < 0 + Z.of_nat 256)) by lia.
    cbn [andb]. apply bool_decide_eq_true.
Qed.

Lemma Serialize_children_keeps_nil (m : nat) (i : Z) :
  forall (n : StatelessNode) (k : Z) (bitlist buf : list Z) (h : heap),
  0 <= k -> k + Z.of_nat m <= 256 -> 0 <= i < 256 ->
  map_get (children n) i = Some None ->
  forall r, Serialize_children n (seqZ k (Z.of_nat m)) bitlist buf h = Ok r ->
  ~ k <= i < k + Z.of_nat m.
Proof.
  induction m as [|m IH]; intros n k bitlist buf h Hk Hm Hi Hnil r Hrun; [lia|].
  rewrite seqZ_S in Hrun. cbn [Serialize_children] in Hrun.
  rewrite byte_small in Hrun by lia.
  destruct (Z.eq_dec k i) as [->|Hne].
  - rewrite Hnil in Hrun. apply bind_Ok in Hrun as (bl & h1 & _ & Hrun). discriminate Hrun.
  - assert (Hrest : forall n' bl' buf' h',
              map_get (children n') i = Some None ->
              Serialize_children n' (seqZ (k + 1) (Z.of_nat m)) bl' buf' h' = Ok r ->
              ~ k <= i < k + Z.of_nat (S m)).
    { intros n' bl' buf' h' Hnil' Hrun'.
      pose proof (IH n' (k + 1) bl' buf' h' ltac:(lia) ltac:(lia) Hi Hnil' r Hrun'). lia. }
    destruct (map_get (children n) k) as [[c|]|] eqn:Hck.
    + apply bind_Ok in Hrun as (bl & h1 & _ & Hrun).
      apply bind_Ok in Hrun as (cc & h2 & _ & Hrun).
      apply bind_Ok in Hrun as (n1 & h3 & Hset & Hrun).
      apply bind_Ok in Hrun as (p & h4 & _ & Hrun).
      eapply Hrest; [|exact Hrun].
      unfold child_set in Hset. apply bind_Ok in Hset as (cs & h5 & E & Hset).
      apply lift_Ok in E as [E ->]. apply ret_Ok in Hset as [-> ->].
      unfold map_set in E. destruct (children n) as [cs0|]; [|discriminate E].
      injection E as <-. cbn in Hnil |- *. rewrite lookup_insert_ne by exact Hne. exact Hnil.
    + apply bind_Ok in Hrun as (bl & h1 & _ & Hrun). discriminate Hrun.
    + destruct (map_get (unresolved n) k) as [bytes|].
      * apply bind_Ok in Hrun as (bl & h1 & _ & Hrun). eapply Hrest; [exact Hnil|exact Hrun].
      * eapply Hrest; [exact Hnil|exact Hrun].
Qed.

Lemma Serialize_internal (n : StatelessNode) (cs : gmap Z (option VerkleNode)) (h : heap) :
  children n = Some cs ->
  Serialize leafRLPType internalRLPType n h
  = bind (Serialize_children n (seqZ 0 (Z.of_nat 256)) (replicate 32 0) [])
      (fun r => let '(n, bitlist, buf) := r in
                ret (Some ([internalRLPType] ++ bitlist ++ buf), None, n)) h.
Proof. intros Hcs. unfold Serialize. rewrite Hcs. reflexivity. Qed.

(** A proof of absence marks the child as absent by storing nil in the slot
    ([insertStem] with the status "absent, empty").  A key under that slot
    then reads as absent, and the node cannot be serialized any more:
    [Serialize] takes the slot for a child and asks nil for its
    commitment. *)
Theorem Serialize_after_a_proof_of_absence
    (fuel : nat) (n : StatelessNode) (p0 : Z) (info : stemInfo)
    (comms : list (option loc)) (h : heap) (cs : gmap Z (option VerkleNode)) :
  children n = Some cs ->
  values n = None ->
  0 <= p0 < 256 ->
  Z.land (stemType info) 3 = extStatusAbsentEmpty ->
  exists n',
    insertStem fuel n [p0] info comms h = Ok ((comms, None, n'), h) /\
    (forall fuel' k getter,
       offset2key k (depth n) = Ok p0 -> unresolved_get n p0 = None ->
       Get fuel' n' k getter h = Ok ((None, None, n'), h)) /\
    forall r, Serialize leafRLPType internalRLPType n' h <> Ok r.
Proof.
  intros Hcs Hv Hp Hst.
  exists (with_children n (Some (<[p0 := None]> cs))).
  split; [|split].
  - destruct fuel; cbn [insertStem]; rewrite Hst, Z.eqb_refl;
      unfold child_set, bind, lift, map_set, ret; rewrite Hcs; reflexivity.
  - intros fuel' k getter Hk Hu.
    set (n' := with_children n (Some (<[p0 := None]> cs))).
    assert (Hv' : values n' = None) by exact Hv.
    assert (Hk' : offset2key k (depth n') = Ok p0) by exact Hk.
    assert (Hc' : child_get n' p0 = None).
    { unfold child_get. cbn. rewrite lookup_insert_eq. reflexivity. }
    assert (Hu' : unresolved_get n' p0 = None) by exact Hu.
    destruct fuel'; cbn [Get]; rewrite Hv'; unfold bind, lift; rewrite Hk', Hc', Hu';
      reflexivity.
  - intros r Hrun.
    rewrite Serialize_internal with (cs := <[p0 := None]> cs) in Hrun by reflexivity.
    apply bind_Ok in Hrun as ([[n1 bl] buf] & h1 & Hloop & _).
    eapply (Serialize_children_keeps_nil 256 p0); [| | |  |exact Hloop|]; try lia.
    unfold map_get, with_children. cbn [children mbind option_bind].
    apply lookup_insert_eq.
Qed.

(** [SetChild] stores a stateless node in the slot [byte(i)] of an internal
    node, and [Children] then lists it there, the other slots being as
    before.  The test of the index leaves the negative ones through: they
    wrap around to a slot. *)
Theorem SetChild_then_Children
    (n : StatelessNode) (i : Z) (c : StatelessNode) (h : heap)
    (cs : gmap Z (option VerkleNode)) :
  children n = Some cs ->
  i < 256 ->
  exists n',
    SetChild n i (Some (NStateless c)) h = Ok ((None, n'), h) /\
    length (Children n') = 256%nat /\
    Children n' = <[Z.to_nat (i mod 256) := NStateless c]> (Children n).
Proof.
  intros Hcs Hi. exists (with_children n (Some (<[byte i := Some (NStateless c)]> cs))).
  pose proof (Z.mod_pos_bound i 256 ltac:(lia)) as Hb.
  split; [|split].
  - unfold SetChild. replace (NodeWidth <=? i) with false
      by (symmetry; apply Z.leb_gt; unfold NodeWidth; lia).
    unfold child_set, bind, lift, map_set, ret. rewrite Hcs. reflexivity.
  - unfold Children. rewrite length_fmap, length_seqZ. reflexivity.
  - apply list_eq. intros j. unfold Children.
    destruct (decide (j = Z.to_nat (i mod 256))) as [->|Hne].
    + rewrite list_lookup_insert_eq by (rewrite length_fmap, length_seqZ; lia).
      rewrite list_lookup_fmap, lookup_seqZ_lt by lia. cbn.
      rewrite Z2Nat.id by lia. unfold child_get, byte.
      cbn [with_children children map_get mbind option_bind].
      rewrite Z.add_0_l, Z.mod_mod by lia. rewrite lookup_insert_eq. reflexivity.
    + rewrite list_lookup_insert_ne by congruence.
      rewrite !list_lookup_fmap.
      destruct (seqZ 0 256 !! j) as [z|] eqn:E; [|reflexivity].
      apply lookup_seqZ in E as [-> Hj]. cbn [fmap option_fmap option_map]. f_equal.
      unfold child_get. cbn [with_children children map_get mbind option_bind].
      rewrite Hcs. cbn [mbind option_bind].
      rewrite lookup_insert_ne; [reflexivity|].
      unfold byte. rewrite Z.add_0_l, (Z.mod_small (Z.of_nat j)) by lia. lia.
Qed.

Lemma slice_to_31 (key : list Z) :
  (31 <= length key)%nat -> Tree.slice_to key 31 = Ok (take 31 key).
Proof.
  intros Hl. unfold Tree.slice_to.
  replace (Z.of_nat (length key) <? Z.of_nat 31) with false
    by (symmetry; apply Z.ltb_ge; lia).
  reflexivity.
Qed.



Lemma child_set_run (n : StatelessNode) (cs : gmap Z (option VerkleNode)) i c (h : heap) :
  children n = Some cs ->
  child_set n i c h = Ok (with_children n (Some (<[i := c]> cs)), h).
Proof.
  intros Hcs. unfold child_set, bind, lift, map_set, ret. rewrite Hcs. reflexivity.
Qed.

Lemma map_len_insert (cs : gmap Z (option VerkleNode)) i c :
  map_len (Some (<[i := c]> cs)) <> 0.
Proof.
  cbn. intros Hz. assert (Hs : size (<[i := c]> cs) = 0%nat) by lia.
  apply map_size_empty_inv in Hs. apply (insert_non_empty _ _ _ Hs).
Qed.

(** On a tree of stateless nodes in which the key leads to the leaf of its
    stem, [insertValue] stores the value and [Get] then returns it, at
    whatever depth the leaf is. *)
Theorem insertValue_then_Get
    (d : nat) (n : StatelessNode) (key : list Z) (value : slice)
    (getter : NodeResolverFn) (h : heap) (fuel : nat) :
  reaches d n key ->
  length key = 32%nat ->
  (d <= fuel)%nat ->
  exists n',
    insertValue fuel n key value h = Ok ((None, n'), h) /\
    reaches d n' key /\
    Get fuel n' key getter h = Ok ((value, None, n'), h).
Proof.
  intros Hr Hl. revert fuel.
  induction Hr as [n key vs Hc Hv Hs|d n key i c Hc Hv Hk Hch Hr IH]; intros fuel Hf.
  - destruct (lookup_lt_is_Some_2 key 31) as [sfx Hsfx]; [lia|].
    assert (Hidx : index key 31 = Ok sfx) by (apply TreeFacts.index_lookup; [lia|exact Hsfx]).
    exists (with_values n (Some (<[sfx := value]> vs))).
    split; [|split].
    + destruct fuel; cbn [insertValue]; rewrite Hc; cbn [Z.eqb];
        unfold bind at 1; unfold lift at 1; rewrite slice_to_31 by lia;
        rewrite Hs; unfold bytes_Equal; cbn [slice_bytes default from_option id];
        rewrite bool_decide_true by reflexivity; cbn [negb];
        unfold bind at 1; unfold lift at 1; rewrite Hidx;
        unfold bind, lift, map_set; rewrite Hv; reflexivity.
    + eapply reaches_leaf; [exact Hc|reflexivity|exact Hs].
    + destruct fuel; cbn [Get]; cbn [with_values values stem];
        unfold bind at 1; unfold lift at 1; rewrite slice_to_31 by lia;
        rewrite Hs; unfold bytes_Equal; cbn [slice_bytes default from_option id];
        rewrite bool_decide_true by reflexivity;
        unfold bind at 1; unfold lift at 1; rewrite Hidx;
        unfold ret, value_get, map_get; cbn [with_values values mbind option_bind];
        rewrite lookup_insert_eq; reflexivity.
  - destruct fuel as [|fuel]; [lia|].
    destruct (IH Hl fuel ltac:(lia)) as (c' & Hins & Hr' & Hget).
    destruct (children n) as [cs|] eqn:Hcs; [|contradiction Hc; reflexivity].
    set (n' := with_children n (Some (<[i := Some (NStateless c')]> cs))).
    assert (Hc' : map_len (children n') <> 0) by apply map_len_insert.
    assert (Hch' : child_get n' i = Some (NStateless c')).
    { unfold child_get, n', map_get, with_children. cbn [children mbind option_bind].
      rewrite lookup_insert_eq. reflexivity. }
    exists n'. split; [|split].
    + cbn [insertValue]. rewrite Hcs.
      replace (map_len (Some cs) =? 0) with false
        by (symmetry; apply Z.eqb_neq; exact Hc).
      unfold bind at 1. unfold lift at 1. rewrite Hk. rewrite Hch.
      unfold bind at 1. rewrite Hins. cbn [snd].
      unfold bind at 1. rewrite (child_set_run n cs) by exact Hcs. reflexivity.
    + eapply reaches_child; [exact Hc'|exact Hv|exact Hk|exact Hch'|exact Hr'].
    + cbn [Get]. replace (values n') with (@None (gmap Z slice)) by (symmetry; exact Hv).
      unfold bind at 1. unfold lift at 1.
      replace (depth n') with (depth n) by reflexivity. rewrite Hk.
      rewrite Hch'. unfold bind at 1. unfold ret at 1.
      unfold bind at 1. rewrite Hget. cbn [snd fst].
      unfold bind at 1.
      rewrite (child_set_run n' (<[i := Some (NStateless c')]> cs)) by reflexivity.
      unfold ret. subst n'. unfold with_children. cbn [children unresolved values stem depth
        count hash cow commitment c1 c2]. rewrite insert_insert_eq. reflexivity.
Qed.


(** What [insertStem] builds at a path of one byte for a stem that is
    present. *)
Lemma insertStem_present_run
    (fuel : nat) (n : StatelessNode) (p0 : Z) (info : stemInfo)
    (l0 : loc) (v0 : Point) (cA cB : option loc) (rest : list (option loc)) (h : heap)
    (cs : gmap Z (option VerkleNode)) (vs : gmap Z slice) (st : list Z) :
  children n = Some cs ->
  Z.land (stemType info) 3 = extStatusPresent ->
  extStatusPresent <> extStatusAbsentEmpty ->
  extStatusPresent <> extStatusAbsentOther ->
  h !! l0 = Some v0 ->
  si_values info = Some vs ->
  si_stem info = Some st ->
  insertStem fuel n [p0] info (Some l0 :: cA :: cB :: rest) h
  = Ok ((drop ((if has_c1 info then 1 else 0) + (if has_c2 info then 1 else 0))
           (cA :: cB :: rest), None,
         with_children n
           (Some (<[p0 := Some (NStateless
                     (mkStatelessNode (Some ∅) None (Some vs) (Some st) (byte (depth n + 1)) 0
                        (Some (MapToScalarField v0)) None (Some l0)
                        (if has_c1 info then cA else None)
                        (if has_c2 info then (if has_c1 info then cB else cA) else None)))]>
                  cs))), h).
Proof.
  intros Hcs Hst Hne1 Hne2 Hl0 Hvs Hstem.
  assert (Hnew : NewStatelessWithCommitment (Some l0) h
                 = Ok (mkStatelessNode (Some ∅) None None None 0 0
                         (Some (MapToScalarField v0)) None (Some l0) None None, h)).
  { unfold NewStatelessWithCommitment, toFr, bind, load, ret. rewrite Hl0. reflexivity. }
  destruct fuel; cbn [insertStem]; rewrite Hst;
    (replace (extStatusPresent =? extStatusAbsentEmpty) with false
       by (symmetry; apply Z.eqb_neq; exact Hne1));
    (replace (extStatusPresent =? extStatusAbsentOther) with false
       by (symmetry; apply Z.eqb_neq; exact Hne2));
    rewrite Z.eqb_refl;
    unfold bind at 1; unfold lift at 1; cbn [comms_head];
    unfold bind at 1; rewrite Hnew; cbn [tail];
    unfold with_proof_leaf; rewrite Hvs, Hstem;
    destruct (has_c1 info), (has_c2 info);
    cbn [comms_head tail lift bind ret fst snd c1 c2 children unresolved count hash cow
         commitment drop Nat.add];
    unfold bind, lift, ret; cbn [comms_head tail fst snd];
    rewrite (child_set_run n cs) by exact Hcs; reflexivity.
Qed.

(** Proof reconstruction, then a read.  [insertStem] at a path of one byte,
    for a stem that the proof says is present, takes the commitment of the
    leaf and, as the proof has them, those of C1 and C2 from the list, and
    hangs a leaf with the stem and the values of the proof below the node.
    [Get] of a key with that stem returns the value the proof gave for its
    suffix; a key that goes through the same slot with another stem reads as
    absent. *)
Theorem insertStem_then_Get
    (fuel : nat) (n : StatelessNode) (p0 : Z) (info : stemInfo)
    (l0 : loc) (v0 : Point) (cA cB : option loc) (rest : list (option loc)) (h : heap)
    (cs : gmap Z (option VerkleNode)) (vs : gmap Z slice) (st : list Z) :
  children n = Some cs ->
  values n = None ->
  Z.land (stemType info) 3 = extStatusPresent ->
  extStatusPresent <> extStatusAbsentEmpty ->
  extStatusPresent <> extStatusAbsentOther ->
  h !! l0 = Some v0 ->
  si_values info = Some vs ->
  si_stem info = Some st ->
  exists n',
    insertStem fuel n [p0] info (Some l0 :: cA :: cB :: rest) h
    = Ok ((drop ((if has_c1 info then 1 else 0) + (if has_c2 info then 1 else 0))
             (cA :: cB :: rest), None, n'), h) /\
    forall fuel' key getter sfx,
      length key = 32%nat ->
      offset2key key (depth n) = Ok p0 ->
      key !! 31%nat = Some sfx ->
      Get (S fuel') n' key getter h
      = Ok ((if bool_decide (take 31 key = st) then mjoin (vs !! sfx) else None, None, n'), h).
Proof.
  intros Hcs Hv Hst Hne1 Hne2 Hl0 Hvs Hstem.
  eexists. split.
  { apply (insertStem_present_run fuel n p0 info l0 v0 cA cB rest h cs vs st); assumption. }
  set (leaf := mkStatelessNode (Some ∅) None (Some vs) (Some st) (byte (depth n + 1)) 0
                 (Some (MapToScalarField v0)) None (Some l0)
                 (if has_c1 info then cA else None)
                 (if has_c2 info then (if has_c1 info then cB else cA) else None)
               : StatelessNode).
  set (n' := with_children n (Some (<[p0 := Some (NStateless leaf)]> cs))).
  intros fuel' key getter sfx Hl Hk Hsfx.
  assert (Hidx : index key 31 = Ok sfx) by (apply TreeFacts.index_lookup; [lia|exact Hsfx]).
  assert (Hv' : values n' = None) by exact Hv.
  assert (Hk' : offset2key key (depth n') = Ok p0) by exact Hk.
  assert (Hc' : child_get n' p0 = Some (NStateless leaf)).
  { unfold child_get, n', map_get, with_children. cbn [children mbind option_bind].
    rewrite lookup_insert_eq. reflexivity. }
  assert (Hleaf : Get fuel' leaf key getter h
                  = Ok ((if bool_decide (take 31 key = st) then mjoin (vs !! sfx) else None,
                         None, leaf), h)).
  { destruct fuel'; cbn [Get]; cbn [leaf values stem];
      unfold bind at 1; unfold lift at 1; rewrite slice_to_31 by lia;
      unfold bytes_Equal; cbn [slice_bytes default from_option id];
      (destruct (decide (take 31 key = st)) as [He|He];
       [rewrite (bool_decide_true (st = take 31 key)) by congruence;
        rewrite (bool_decide_true (take 31 key = st)) by exact He;
        unfold bind, lift; rewrite Hidx; reflexivity
       |rewrite (bool_decide_false (st = take 31 key)) by congruence;
        rewrite (bool_decide_false (take 31 key = st)) by exact He;
        reflexivity]). }
  cbn [Get]. rewrite Hv'. unfold bind at 1. unfold lift at 1. rewrite Hk', Hc'.
  unfold bind at 1. unfold ret at 1. unfold bind at 1. rewrite Hleaf. cbn [fst snd].
  unfold bind at 1.
  rewrite (child_set_run n' (<[p0 := Some (NStateless leaf)]> cs)) by reflexivity.
  unfold ret. subst n'. unfold with_children.
  cbn [children unresolved values stem depth count hash cow commitment c1 c2].
  rewrite insert_insert_eq. reflexivity.
Qed.

Lemma Serialize_children_of_no_child (n : StatelessNode) (m : nat) :
  forall (k : Z) (bitlist buf : list Z) (h : heap),
  0 <= k -> k + Z.of_nat m <= 256 ->
  (forall i, map_get (children n) i = None /\ map_get (unresolved n) i = None) ->
  Serialize_children n (seqZ k (Z.of_nat m)) bitlist buf h = Ok ((n, bitlist, buf), h).
Proof.
  induction m as [|m IH]; intros k bitlist buf h Hk Hm Hno; [reflexivity|].
  rewrite seqZ_S. cbn [Serialize_children].
  destruct (Hno (byte k)) as [-> ->]. apply IH; [lia|lia|exact Hno].
Qed.

(** [Serialize] tells a leaf from an internal node by its children map
    being nil, whereas [Get] goes by the values.  The leaf that [insertStem]
    builds from a proof has a children map, which is empty: it is
    serialized as an internal node without children, and neither its stem
    nor its values are in the output. *)
Theorem Serialize_of_a_leaf_built_from_a_proof
    (fuel : nat) (n : StatelessNode) (p0 : Z) (info : stemInfo)
    (l0 : loc) (v0 : Point) (cA cB : option loc) (rest : list (option loc)) (h : heap)
    (cs : gmap Z (option VerkleNode)) (vs : gmap Z slice) (st : list Z) :
  children n = Some cs ->
  Z.land (stemType info) 3 = extStatusPresent ->
  extStatusPresent <> extStatusAbsentEmpty ->
  extStatusPresent <> extStatusAbsentOther ->
  h !! l0 = Some v0 ->
  si_values info = Some vs ->
  si_stem info = Some st ->
  exists n' cs' leaf,
    insertStem fuel n [p0] info (Some l0 :: cA :: cB :: rest) h
    = Ok ((cs', None, n'), h) /\
    child_get n' p0 = Some (NStateless leaf) /\
    values leaf = Some vs /\ stem leaf = Some st /\
    Serialize leafRLPType internalRLPType leaf h
    = Ok ((Some ([internalRLPType] ++ replicate 32 0), None, leaf), h).
Proof.
  intros Hcs Hst Hne1 Hne2 Hl0 Hvs Hstem.
  eexists. eexists. eexists. split.
  { apply (insertStem_present_run fuel n p0 info l0 v0 cA cB rest h cs vs st); assumption. }
  split.
  { unfold child_get, map_get, with_children. cbn [children mbind option_bind].
    rewrite lookup_insert_eq. reflexivity. }
  split; [reflexivity|]. split; [reflexivity|].
  rewrite Serialize_internal with (cs := ∅) by reflexivity.
  unfold bind. rewrite (Serialize_children_of_no_child _ 256 0); [|lia|lia|].
  - rewrite app_nil_r. reflexivity.
  - intros i. split; reflexivity.
Qed.

Lemma child_set_fields (n : StatelessNode) i c (h : heap) n' h' :
  child_set n i c h = Ok (n', h') ->
  h' = h /\ values n' = values n /\ commitment n' = commitment n /\ cow n' = cow n.
Proof.
  unfold child_set. intros Hrun. apply bind_Ok in Hrun as (cs & h1 & E & Hrun).
  apply lift_Ok in E as [E ->]. apply ret_Ok in Hrun as [-> ->]. repeat split.
Qed.

(** [Commit] is idempotent: once it has returned, a second call returns the
    same pointer and changes neither the node nor any point. *)
Theorem Commit_twice
    (range_order : list Z -> list Z) (fuel fuel' : nat) (n n' : StatelessNode)
    (p : option loc) (h h' : heap) :
  Commit range_order fuel n h = Ok ((p, n'), h') ->
  Commit range_order fuel' n' h' = Ok ((p, n'), h').
Proof.
  intros Hrun.
  assert (Hleafmode : forall m : StatelessNode, forall hm,
            (map_len (values m) =? 0) = false ->
            Commit range_order fuel' m hm = Ok ((commitment m, m), hm)).
  { intros m hm E. destruct fuel'; cbn [Commit]; rewrite E; reflexivity. }
  assert (Hnocow : forall m : StatelessNode, forall hm,
            (map_len (values m) =? 0) = true -> (map_len (cow m) =? 0) = true ->
            Commit range_order fuel' m hm = Ok ((commitment m, m), hm)).
  { intros m hm E1 E2. destruct fuel'; cbn [Commit]; rewrite E1, E2; reflexivity. }
  destruct (map_len (values n) =? 0) eqn:Ev.
  2: { assert (Hr : Commit range_order fuel n h = Ok ((commitment n, n), h))
         by (destruct fuel; cbn [Commit]; rewrite Ev; reflexivity).
       rewrite Hr in Hrun. injection Hrun as <- <- <-. apply Hleafmode. exact Ev. }
  destruct (map_len (cow n) =? 0) eqn:Ec.
  { assert (Hr : Commit range_order fuel n h = Ok ((commitment n, n), h))
      by (destruct fuel; cbn [Commit]; rewrite Ev, Ec; reflexivity).
    rewrite Hr in Hrun. injection Hrun as <- <- <-. apply Hnocow; assumption. }
  assert (Hshape : exists n1, n' = with_cow n1 None /\ values n1 = values n
                              /\ p = commitment n1).
  { destruct fuel as [|fuel]; cbn [Commit] in Hrun; rewrite Ev, Ec in Hrun;
      cbn [negb] in Hrun;
      apply bind_Ok in Hrun as ([[n1 poly] e] & h1 & Hloop & Hrun);
      apply bind_Ok in Hrun as ([] & h2 & _ & Hrun);
      apply ret_Ok in Hrun as [Hrun _]; injection Hrun as -> ->;
      exists n1; (split; [reflexivity|]); (split; [|reflexivity]);
      revert Hloop;
      generalize (range_keys range_order (cow n)) as idxs;
      generalize (replicate (Z.to_nat NodeWidth) Fr_zero_value) as poly0;
      generalize 256 as e0; generalize h as h0;
      generalize n as m; intros m h0 e0 poly0 idxs; revert m h0 e0 poly0;
      (induction idxs as [|idx idxs IH]; intros m h0 e0 poly0 Hloop;
       [apply ret_Ok in Hloop as [Hloop _]; injection Hloop as <- _ _; reflexivity|]);
      apply bind_Ok in Hloop as (pre & h3 & _ & Hloop);
      (destruct (child_get m idx) as [c|]; [|discriminate Hloop]);
      apply bind_Ok in Hloop as (r & h4 & _ & Hloop);
      apply bind_Ok in Hloop as (m1 & h5 & Hset & Hloop);
      apply bind_Ok in Hloop as (v & h6 & _ & Hloop);
      apply IH in Hloop; apply child_set_fields in Hset as (_ & Hvals & _);
      congruence. }
  destruct Hshape as (n1 & -> & Hv1 & ->).
  apply (Hnocow (with_cow n1 None) h'); [|reflexivity].
  cbn [with_cow values]. rewrite Hv1. exact Ev.
Qed.

(** [Copy] of a leaf copies the values and the commitment, into a point of
    its own, but neither the stem nor C1 and C2: the copy holds the values
    under no stem, and every key reads as absent in it. *)
Theorem Copy_of_a_leaf_reads_as_empty
    (range_order : list Z -> list Z) (Copy_of : VerkleNode -> M VerkleNode)
    (fuel : nat) (n : StatelessNode) (l : loc) (v : Point) (h : heap) :
  children n = None ->
  cow n = None ->
  commitment n = Some l ->
  h !! l = Some v ->
  exists n',
    Copy range_order Copy_of fuel n h = Ok (n', h ++ [v]) /\
    commitment n' = Some (length h) /\
    values n' = Some (copy_bytes <$> default ∅ (values n)) /\
    stem n' = None /\ c1 n' = None /\ c2 n' = None /\
    forall fuel' k getter,
      (31 <= length k)%nat ->
      Get fuel' n' k getter (h ++ [v]) = Ok ((None, None, n'), h ++ [v]).
Proof.
  intros Hc Hcow Hcm Hl.
  pose proof (lookup_lt_Some _ _ _ Hl) as Hlt.
  destruct n as [ch un va st de co ha cw cm k1 k2].
  cbn [children cow commitment] in Hc, Hcow, Hcm. subst ch cw cm.
  assert (Hheap : <[length h := v]> (h ++ [Point_zero_value]) = h ++ [v]).
  { rewrite insert_app_r_alt by lia. rewrite Nat.sub_diag. reflexivity. }
  assert (Hload : (h ++ [Point_zero_value]) !! l = Some v)
    by (rewrite lookup_app_l by exact Hlt; exact Hl).
  assert (Hlen : (length h < length (h ++ [Point_zero_value]))%nat)
    by (rewrite length_app; cbn; lia).
  exists (mkStatelessNode None (match un with Some u => Some (copy_bytes <$> u) | None => None end)
            (Some (copy_bytes <$> default ∅ va)) None de co ha None (Some (length h))
            None None).
  split; [|split; [|split; [|split; [|split; [|split]]]]]; try reflexivity.
  - destruct un, fuel;
      cbn [Copy children unresolved values stem depth count hash cow commitment c1 c2
           with_values with_unresolved];
      unfold CopyPoint; unfold bind, new_Point, ret, load, store; cbv beta iota;
      cbn [children unresolved values stem depth count hash cow commitment c1 c2
           with_values with_unresolved];
      rewrite Hload; cbv beta iota; rewrite bool_decide_true by exact Hlen;
      cbv beta iota; (f_equal; f_equal; exact Hheap).
  - intros fuel' k getter Hk.
    assert (Hne : (slice_bytes None : list Z) <> take 31 k).
    { intros He. apply (f_equal length) in He. rewrite length_take_le in He by exact Hk.
      discriminate He. }
    destruct fuel'; cbn [Get values stem];
      unfold bind at 1; unfold lift at 1; rewrite slice_to_31 by exact Hk;
      unfold bytes_Equal; rewrite bool_decide_false by exact Hne; reflexivity.
Qed.

Lemma sort_Slice_Permutation (l1 l2 : list Z) :
  l1 ≡ₚ l2 -> sort_Slice l1 = sort_Slice l2.
Proof.
  intros Hp. unfold sort_Slice.
  apply (Sorted_unique Z.le).
  - apply Sorted_merge_sort. intros x y. lia.
  - apply Sorted_merge_sort. intros x y. lia.
  - rewrite !merge_sort_Permutation. exact Hp.
Qed.

Lemma hasC_loop_one_half (l : list Z) :
  l <> [] ->
  (Forall (fun k => k < 128) l -> hasC_loop l false false = (true, false)) /\
  (Forall (fun k => 128 <= k) l -> hasC_loop l false false = (false, true)).
Proof.
  intros Hne. split; intros Hall.
  - rewrite (surjective_pairing (hasC_loop l false false)).
    rewrite hasC_loop_hasC1, hasC_loop_hasC2.
    destruct l as [|k l]; [contradiction|].
    f_equal.
    + apply Z.ltb_lt. apply Forall_inv in Hall. exact Hall.
    + apply not_true_is_false. intros He. apply existsb_exists in He as (x & Hin & Hx).
      rewrite Forall_forall in Hall. apply list_elem_of_In in Hin.
      specialize (Hall x Hin). cbv beta in Hall. lia.
  - rewrite (surjective_pairing (hasC_loop l false false)).
    rewrite hasC_loop_hasC1, hasC_loop_hasC2.
    destruct l as [|k l]; [contradiction|].
    apply Forall_inv in Hall. f_equal.
    + apply Z.ltb_ge. exact Hall.
    + cbn. replace (128 <=? k) with true by (symmetry; apply Z.leb_le; exact Hall).
      reflexivity.
Qed.

(** The proof elements of a leaf do not depend on the order in which the map
    of its values is visited when the stored suffixes all lie on one side of
    128. *)
Theorem GetProofItems_of_a_one_sided_leaf
    (ro1 ro2 : list Z -> list Z) (fuel : nat) (n : StatelessNode)
    (path : list (list Z)) (h : heap) :
  map_len (values n) <> 0 ->
  ro1 (map_keys (values n)) ≡ₚ map_keys (values n) ->
  ro2 (map_keys (values n)) ≡ₚ map_keys (values n) ->
  Forall (fun k => k < 128) (map_keys (values n)) \/
  Forall (fun k => 128 <= k) (map_keys (values n)) ->
  GetProofItems ro1 fuel n path h = GetProofItems ro2 fuel n path h.
Proof.
  intros Hv Hp1 Hp2 Hside. apply Z.eqb_neq in Hv as Hv'.
  assert (Hne : map_keys (values n) <> []).
  { unfold map_keys, map_len in *. destruct (values n) as [m|]; [|contradiction Hv; reflexivity].
    intros He. apply (f_equal length) in He.
    rewrite (Permutation_length (merge_sort_Permutation _ _)) in He.
    rewrite length_fmap, length_map_to_list in He. cbn in He. lia. }
  assert (Hne' : forall ro, ro (map_keys (values n)) ≡ₚ map_keys (values n) ->
                            ro (map_keys (values n)) <> []).
  { intros ro Hp He. rewrite He in Hp. symmetry in Hp. apply Permutation_nil_r in Hp.
    contradiction. }
  assert (Hsort : sort_Slice (range_keys ro1 (values n)) = sort_Slice (range_keys ro2 (values n))).
  { apply sort_Slice_Permutation. unfold range_keys. rewrite Hp1, Hp2. reflexivity. }
  assert (Hhas : hasC_loop (range_keys ro1 (values n)) false false
                 = hasC_loop (range_keys ro2 (values n)) false false).
  { unfold range_keys.
    destruct (hasC_loop_one_half _ (Hne' ro1 Hp1)) as [Hlo1 Hhi1].
    destruct (hasC_loop_one_half _ (Hne' ro2 Hp2)) as [Hlo2 Hhi2].
    destruct Hside as [Hs|Hs].
    - rewrite Hlo1, Hlo2; [reflexivity|rewrite Hp2; exact Hs|rewrite Hp1; exact Hs].
    - rewrite Hhi1, Hhi2; [reflexivity|rewrite Hp2; exact Hs|rewrite Hp1; exact Hs]. }
  destruct fuel; cbn [GetProofItems]; rewrite Hv', Hsort, Hhas; reflexivity.
Qed.

End Facts.

End StatelessMore.

(** * More runs on concrete inputs *)

Module MoreRuns.
Import Scenarios Model.

#[local] Existing Instance Model.bls.
#[local] Existing Instance Model.config.
#[local] Existing Instance Model.curve.
#[local] Existing Instance Model.nodes.
#[local] Existing Instance Model.package.

(** The bytes of the keys of [Model]. *)
Lemma key_1234_bytes : Forall Tree.is_byte key_1234.
Proof. unfold key_1234, Tree.is_byte. repeat constructor; lia. Qed.

Lemma key_1235_bytes : Forall Tree.is_byte key_1235.
Proof. unfold key_1235, Tree.is_byte. repeat constructor; lia. Qed.

Lemma fresh_root_wf :
  Tree.wf (Tree.GetTreeConfig 8) []
    (Tree.InternalNode (replicate 256 Tree.empty) 0 Tree.zeroHash None (Tree.GetTreeConfig 8)).
Proof.
  apply (Tree.wf_internal (Tree.GetTreeConfig 8) [] (replicate 256 Tree.empty));
    [cbn; lia|reflexivity|].
  intros i ch Hl. apply lookup_replicate in Hl as [-> _]. constructor.
Qed.

Lemma Insert_keeps_well_formed_run :
  exists cs',
    Tree.Insert 32 fresh_root key_1234 (Some [7])
    = Ok (Tree.InternalNode cs' 0 Tree.zeroHash None (Tree.GetTreeConfig 8), None) /\
    Tree.wf (Tree.GetTreeConfig 8) []
      (Tree.InternalNode cs' 0 Tree.zeroHash None (Tree.GetTreeConfig 8)).
Proof.
  apply (TreeMore.Insert_keeps_well_formed (Tree.GetTreeConfig 8)).
  - reflexivity.
  - reflexivity.
  - exact fresh_root_wf.
  - reflexivity.
  - exact key_1234_bytes.
  - lia.
Defined.

Lemma Get_after_Insert_run :
  Tree.Get (Tree.single (Tree.GetTreeConfig 8) 0 1 (Tree.leafNode key_1234 (Some [7])))
    key_1234 = Ok (Some [7], None).
Proof.
  eapply (TreeMore.Get_after_Insert (Tree.GetTreeConfig 8)) with
    (fuel := 32%nat) (cs := replicate 256 Tree.empty) (h := Tree.zeroHash) (c := None)
    (e := None).
  all: first [exact fresh_root_wf|exact key_1234_bytes|reflexivity|lia].
Defined.

(** The tree that holds [key_1234]. *)
Lemma single_leaf_wf :
  Tree.wf (Tree.GetTreeConfig 8) []
    (Tree.single (Tree.GetTreeConfig 8) 0 1 (Tree.leafNode key_1234 (Some [7]))).
Proof.
  edestruct (TreeMore.Insert_at_the_root (Tree.GetTreeConfig 8)) with
    (cs := replicate 256 Tree.empty) (h := Tree.zeroHash) (c := @None Tree.G1)
    (k := key_1234) (v := Some [7]) (fuel := 32%nat) as (cs' & Hins & Hwf & _);
    [reflexivity|reflexivity|exact fresh_root_wf|reflexivity|exact key_1234_bytes|lia|].
  assert (Hrun : Tree.Insert 32
                   (Tree.InternalNode (replicate 256 Tree.empty) 0 Tree.zeroHash None
                      (Tree.GetTreeConfig 8)) key_1234 (Some [7])
                 = Ok (Tree.single (Tree.GetTreeConfig 8) 0 1
                         (Tree.leafNode key_1234 (Some [7])), None)) by reflexivity.
  rewrite Hins in Hrun.
  assert (Heq : Tree.InternalNode cs' 0 Tree.zeroHash None (Tree.GetTreeConfig 8)
                = Tree.single (Tree.GetTreeConfig 8) 0 1 (Tree.leafNode key_1234 (Some [7])))
    by congruence.
  rewrite <- Heq. exact Hwf.
Qed.

Lemma Insert_leaves_other_keys_run :
  Tree.Get
    (Tree.single (Tree.GetTreeConfig 8) 0 1
       (Tree.single (Tree.GetTreeConfig 8) 8 2
          (Tree.single (Tree.GetTreeConfig 8) 16 3
             (Tree.fork (Tree.GetTreeConfig 8) 24
                4 (Tree.leafNode key_1234 (Some [7]))
                5 (Tree.leafNode key_1235 (Some [9]))))))
    key_1234 = Ok (Some [7], None)
  <->
  Tree.Get (Tree.single (Tree.GetTreeConfig 8) 0 1 (Tree.leafNode key_1234 (Some [7])))
    key_1234 = Ok (Some [7], None).
Proof.
  eapply (TreeMore.Insert_leaves_other_keys (Tree.GetTreeConfig 8)) with
    (fuel := 32%nat) (k := key_1235) (v := Some [9]) (e := None).
  all: first [exact single_leaf_wf|exact key_1235_bytes|reflexivity|lia|discriminate].
Defined.

Lemma fresh_tree_is_a_finite_map_run :
  exists t,
    Tree.InsertAll 32 fresh_root [(key_1234, Some [7]); (key_1235, Some [9]); (key_1234, Some [8])]
    = Ok (t, None) /\
    forall k x, Tree.Get t k = Ok (x, None)
      <-> Tree.written [(key_1234, Some [7]); (key_1235, Some [9]); (key_1234, Some [8])] !! k
          = Some x.
Proof.
  change fresh_root with
    (Tree.InternalNode (replicate (Z.to_nat (Tree.nodeWidth (Tree.GetTreeConfig 8))) Tree.empty)
       0 Tree.zeroHash None (Tree.GetTreeConfig 8)).
  apply (TreeMore.fresh_tree_is_a_finite_map (Tree.GetTreeConfig 8)).
  - reflexivity.
  - reflexivity.
  - lia.
  - repeat (apply List.Forall_cons;
              [split; [reflexivity|first [exact key_1234_bytes|exact key_1235_bytes]]|]).
    apply List.Forall_nil.
Defined.

Lemma ComputeCommitment_idempotent_run :
  Tree.ComputeCommitment
    (Tree.InternalNode (replicate 256 Tree.empty) 0 Tree.zeroHash (Some Tree.ZERO_G1)
       (Tree.GetTreeConfig 8))
  = Ok (Tree.ZERO_G1,
        Tree.InternalNode (replicate 256 Tree.empty) 0 Tree.zeroHash (Some Tree.ZERO_G1)
          (Tree.GetTreeConfig 8)).
Proof.
  apply (TreeMore.ComputeCommitment_idempotent fresh_root).
  reflexivity.
Defined.

Lemma hashToFr_reduces_run :
  exists bs,
    length bs = 32%nat /\ Forall Tree.is_byte bs /\
    le_to_Z bs = le_to_Z (replicate 32 1) mod Z.abs 13 /\
    0 <= le_to_Z bs < Z.abs 13 /\
    Tree.hashToFr (replicate 32 1) 13
    = match Tree.FrFrom32 bs with
      | Some out => Ok out
      | None => Panic "invalid Fr number"
      end.
Proof.
  apply (TreeMore.hashToFr_reduces (replicate 32 1) 13).
  - lia.
  - cbn. lia.
Defined.

Lemma CreateAccount_then_Get_run :
  exists cs',
    Tree.CreateAccount 1 fresh_root key_1234 1 7 0 (Some 1000) (replicate 32 0)
    = Ok (Tree.InternalNode cs' 0 Tree.zeroHash None (Tree.GetTreeConfig 8), None) /\
    Tree.Get (Tree.InternalNode cs' 0 Tree.zeroHash None (Tree.GetTreeConfig 8)) key_1234
    = Ok (Some (Tree.PutUint64 1), None).
Proof.
  destruct (TreeMore.CreateAccount_then_Get 0 (replicate 256 Tree.empty) 0 Tree.zeroHash None
              (Tree.GetTreeConfig 8) key_1234 1 0 1 7 0 (Some 1000) (replicate 32 0))
    as (cs' & Hrun & Hver & _); [reflexivity|reflexivity|reflexivity|].
  exists cs'. split; [exact Hrun|]. apply Hver. reflexivity.
Defined.

Lemma accountLeaf_Insert_then_Get_run :
  exists a',
    Tree.Insert 1
      (Tree.accountLeaf (replicate 31 0 ++ [2]) None 1 (Some 1000) 7 0 (replicate 32 0)
         None None)
      (replicate 31 0 ++ [2]) (Some [0; 0; 0; 0; 0; 0; 1; 2]) = Ok (a', None) /\
    Tree.Get a' (replicate 31 0 ++ [2]) = Ok (Some [0; 0; 0; 0; 0; 0; 1; 2], None).
Proof.
  destruct (TreeMore.accountLeaf_Insert_then_Get 0 (replicate 31 0 ++ [2]) None 1 1000 7 0
              (replicate 32 0) None None [0; 0; 0; 0; 0; 0; 1; 2]) as [Hnonce _].
  - reflexivity.
  - unfold Tree.is_byte. repeat constructor; lia.
  - apply Hnonce; reflexivity.
Defined.

Lemma CreateAccount_over_an_account_run :
  Tree.CreateAccount 2 root_with_account key_1235 1 7 0 (Some 5) (replicate 32 0)
  = Ok (Tree.InternalNode
          (<[1%nat := Tree.accountLeaf_zero_value]>
             (<[1%nat := account_1234]> (replicate 256 Tree.empty)))
          0 Tree.zeroHash None (Tree.GetTreeConfig 8),
        Some (Tree.errorsNew "creating over an already exisiting account")) /\
  Tree.Get (Tree.InternalNode
              (<[1%nat := Tree.accountLeaf_zero_value]>
                 (<[1%nat := account_1234]> (replicate 256 Tree.empty)))
              0 Tree.zeroHash None (Tree.GetTreeConfig 8)) key_1234
  = Ok (None, Some Tree.errValueNotPresent).
Proof.
  apply (TreeMore.CreateAccount_over_an_account 0
           (<[1%nat := account_1234]> (replicate 256 Tree.empty)) 0 Tree.zeroHash None
           (Tree.GetTreeConfig 8) key_1235 key_1234 1
           None 1 (Some 1000) 7 0 (replicate 32 0) None None
           1 7 0 (Some 5) (replicate 32 0)).
  - reflexivity.
  - lia.
  - reflexivity.
  - cbn. lia.
  - reflexivity.
  - reflexivity.
  - discriminate.
  - reflexivity.
Defined.

Lemma CreateAccount_keeps_the_cached_commitment_run :
  exists cs',
    Tree.CreateAccount 1
      (Tree.InternalNode (replicate 256 Tree.empty) 0 Tree.zeroHash (Some Tree.GenG1)
         (Tree.GetTreeConfig 8))
      key_1234 1 7 0 (Some 1000) (replicate 32 0)
    = Ok (Tree.InternalNode cs' 0 Tree.zeroHash (Some Tree.GenG1) (Tree.GetTreeConfig 8), None) /\
    Tree.ComputeCommitment
      (Tree.InternalNode cs' 0 Tree.zeroHash (Some Tree.GenG1) (Tree.GetTreeConfig 8))
    = Ok (Tree.GenG1, Tree.InternalNode cs' 0 Tree.zeroHash (Some Tree.GenG1) (Tree.GetTreeConfig 8)) /\
    forall r, Tree.ComputeCommitment
                (Tree.InternalNode cs' 0 Tree.zeroHash None (Tree.GetTreeConfig 8)) <> Ok r.
Proof.
  apply (TreeMore.CreateAccount_keeps_the_cached_commitment 0 (replicate 256 Tree.empty) 0
           Tree.zeroHash Tree.GenG1 (Tree.GetTreeConfig 8) key_1234 1 1 7 0 (Some 1000)
           (replicate 32 0)).
  - reflexivity.
  - reflexivity.
Defined.

Lemma offset2KeyTenBits_reads_ten_bits_run :
  Tree.offset2KeyTenBits key_1234 10 = Ok 32 /\ 0 <= 32 < 1024.
Proof.
  exact (TreeMore.offset2KeyTenBits_reads_ten_bits key_1234 10 2 key_1234_bytes
           ltac:(lia) ltac:(change (10 mod 8) with 2; lia) ltac:(reflexivity)).
Defined.

Lemma Serialize_refuses_a_partial_leaf_run :
  Stateless.Serialize 1 2 leaf_nil_children heap4
  = Ok ((None, Some Stateless.errNotSupportedInStateless, leaf_nil_children), heap4).
Proof.
  apply (StatelessMore.Serialize_refuses_a_partial_leaf 1 2 leaf_nil_children 6 heap4).
  - reflexivity.
  - lia.
  - reflexivity.
Defined.

Lemma leaf_loaded_values (i : Z) :
  0 <= i < 256 -> is_Some (Stateless.map_get (Stateless.values leaf_loaded) i).
Proof.
  intros Hi.
  assert (Hall : forallb (fun i => bool_decide
                                     (is_Some (Stateless.map_get (Stateless.values leaf_loaded) i)))
                   (seqZ 0 256) = true) by reflexivity.
  apply (TreeMore.forallb_seqZ _ _ _ i) in Hall; [|lia].
  apply bool_decide_eq_true in Hall. exact Hall.
Qed.

Lemma Serialize_layout_of_a_leaf_run :
  exists bitlist,
    Stateless.Serialize 1 2 leaf_loaded heap4
    = Ok ((Some ([1] ++ slice_bytes (Stateless.stem leaf_loaded) ++ bitlist
                 ++ concat (Stateless.value_bytes leaf_loaded <$> seqZ 0 256)),
           None, leaf_loaded), heap4) /\
    length bitlist = 32%nat /\
    forall i, 0 <= i < 256 ->
      Tree.bit_at bitlist i = true <-> is_Some (Stateless.value_get leaf_loaded i).
Proof.
  apply (StatelessMore.Serialize_layout_of_a_leaf 1 2 leaf_loaded heap4).
  - reflexivity.
  - exact leaf_loaded_values.
Defined.

Lemma Serialize_after_a_proof_of_absence_run :
  exists n',
    Stateless.insertStem 0 root10 [7] (Stateless.mkStemInfo 0 false false None None) [] heap4
    = Ok (([], None, n'), heap4) /\
    (forall fuel' k getter,
       Stateless.offset2key k (Stateless.depth root10) = Ok 7 ->
       Stateless.unresolved_get root10 7 = None ->
       Stateless.Get fuel' n' k getter heap4 = Ok ((None, None, n'), heap4)) /\
    forall r, Stateless.Serialize 1 2 n' heap4 <> Ok r.
Proof.
  apply (StatelessMore.Serialize_after_a_proof_of_absence 1 2 0 root10 7
           (Stateless.mkStemInfo 0 false false None None) [] heap4
           {[0 := Some (Stateless.NStateless leaf10)]}).
  - reflexivity.
  - reflexivity.
  - lia.
  - reflexivity.
Defined.

Lemma SetChild_then_Children_run :
  exists n',
    Stateless.SetChild root10 (-1) (Some (Stateless.NStateless leaf10)) heap4
    = Ok ((None, n'), heap4) /\
    length (Stateless.Children n') = 256%nat /\
    Stateless.Children n'
    = <[Z.to_nat ((-1) mod 256) := Stateless.NStateless leaf10]> (Stateless.Children root10).
Proof.
  apply (StatelessMore.SetChild_then_Children root10 (-1) leaf10 heap4
           {[0 := Some (Stateless.NStateless leaf10)]}).
  - reflexivity.
  - lia.
Defined.


Lemma root10_reaches_leaf10 : Stateless.reaches 1 root10 key_zero_5.
Proof.
  apply (Stateless.reaches_child 0 root10 key_zero_5 0 leaf10).
  - discriminate.
  - reflexivity.
  - reflexivity.
  - reflexivity.
  - apply (Stateless.reaches_leaf leaf10 key_zero_5 {[5 := value_a; 200 := value_b]});
      reflexivity.
Qed.

Lemma insertValue_then_Get_run :
  exists n',
    Stateless.insertValue 1 root10 key_zero_5 value_b heap4 = Ok ((None, n'), heap4) /\
    Stateless.reaches 1 n' key_zero_5 /\
    Stateless.Get 1 n' key_zero_5 (failing_resolver Stateless.errNotSupportedInStateless)
      heap4
    = Ok ((value_b, None, n'), heap4).
Proof.
  apply (StatelessMore.insertValue_then_Get 1 root10 key_zero_5 value_b
           (failing_resolver Stateless.errNotSupportedInStateless) heap4 1).
  - exact root10_reaches_leaf10.
  - reflexivity.
  - lia.
Defined.


Lemma insertStem_then_Get_run :
  exists n',
    Stateless.insertStem 0 root_new [0] stem_zero_info [Some 0; Some 1; Some 2]%nat heap4
    = Ok (([], None, n'), heap4) /\
    forall fuel' key getter sfx,
      length key = 32%nat ->
      Stateless.offset2key key 0 = Ok 0 ->
      key !! 31%nat = Some sfx ->
      Stateless.Get (S fuel') n' key getter heap4
      = Ok ((if bool_decide (take 31 key = zero_stem)
             then mjoin (({[5 := value_a; 200 := value_b]} : gmap Z slice) !! sfx)
             else None, None, n'), heap4).
Proof.
  apply (StatelessMore.insertStem_then_Get 0 root_new 0 stem_zero_info 0%nat 10
           (Some 1%nat) (Some 2%nat) [] heap4 ∅ {[5 := value_a; 200 := value_b]} zero_stem).
  - reflexivity.
  - reflexivity.
  - reflexivity.
  - discriminate.
  - discriminate.
  - reflexivity.
  - reflexivity.
  - reflexivity.
Defined.

Lemma Serialize_of_a_leaf_built_from_a_proof_run :
  exists n' cs' leaf,
    Stateless.insertStem 0 root_new [0] stem_zero_info [Some 0; Some 1; Some 2]%nat heap4
    = Ok ((cs', None, n'), heap4) /\
    Stateless.child_get n' 0 = Some (Stateless.NStateless leaf) /\
    Stateless.values leaf = Some {[5 := value_a; 200 := value_b]} /\
    Stateless.stem leaf = Some zero_stem /\
    Stateless.Serialize 1 2 leaf heap4 = Ok ((Some ([2] ++ replicate 32 0), None, leaf), heap4).
Proof.
  apply (StatelessMore.Serialize_of_a_leaf_built_from_a_proof 1 2 0 root_new 0 stem_zero_info
           0%nat 10 (Some 1%nat) (Some 2%nat) [] heap4 ∅
           {[5 := value_a; 200 := value_b]} zero_stem).
  - reflexivity.
  - reflexivity.
  - discriminate.
  - discriminate.
  - reflexivity.
  - reflexivity.
  - reflexivity.
Defined.

Lemma Commit_twice_run :
  Stateless.Commit id 1 root10 [11; 20; 30; 1; 10]
  = Ok ((Some 3%nat, root10), [11; 20; 30; 1; 10]).
Proof.
  apply (StatelessMore.Commit_twice id 1 1 root_touched root10 (Some 3%nat)
           [11; 20; 30; 0; 10] [11; 20; 30; 1; 10]).
  vm_compute. reflexivity.
Defined.

Lemma Copy_of_a_leaf_reads_as_empty_run :
  exists n',
    Stateless.Copy id (fun c => Stateless.ret c) 0 leaf_nil_children heap4
    = Ok (n', heap4 ++ [10]) /\
    Stateless.commitment n' = Some (length heap4) /\
    Stateless.values n'
    = Some (Stateless.copy_bytes <$> default ∅ (Stateless.values leaf_nil_children)) /\
    Stateless.stem n' = None /\ Stateless.c1 n' = None /\ Stateless.c2 n' = None /\
    forall fuel' k getter,
      (31 <= length k)%nat ->
      Stateless.Get fuel' n' k getter (heap4 ++ [10]) = Ok ((None, None, n'), heap4 ++ [10]).
Proof.
  apply (StatelessMore.Copy_of_a_leaf_reads_as_empty id (fun c => Stateless.ret c) 0
           leaf_nil_children 0%nat 10 heap4).
  - reflexivity.
  - reflexivity.
  - reflexivity.
  - reflexivity.
Defined.

Lemma leaf_low_keys : Stateless.map_keys (Stateless.values leaf_low) = [5; 7].
Proof. reflexivity. Qed.

Lemma GetProofItems_of_a_one_sided_leaf_run :
  Stateless.GetProofItems id 0 leaf_low [[0]] heap4
  = Stateless.GetProofItems reverse 0 leaf_low [[0]] heap4.
Proof.
  apply (StatelessMore.GetProofItems_of_a_one_sided_leaf id reverse 0 leaf_low [[0]] heap4).
  - discriminate.
  - reflexivity.
  - apply reverse_Permutation.
  - left. rewrite leaf_low_keys. repeat constructor; lia.
Defined.

End MoreRuns.
